(** * WHAIBI API Tester: request-variation synthesis and execution

    A shallow embedding of the three server routes of the tester
    ([generate-scenarios], [run-tests], [analyze-results]) and the proofs of
    the properties its specification states about them.

    Conventions of the embedding.
    - A JavaScript string is a Rocq [string]; each character stands for one
      UTF-16 code unit below 256 (Latin-1), so [String.length] is the
      [.length] of the source.
    - Integers the code handles (timestamps, status codes, durations,
      counters) are in [Z]; JSON numbers are rationals in [Q], standing for
      the double nearest to them.
    - A JavaScript object whose property order is observed (a parsed payload)
      is an association list in own-property order; an object used as a
      dictionary (HTTP headers) is a [gmap].
    - [try]/[catch] is explicit: a computation yields a [Completion], either
      [Normal] with a value or [Throw] with the thrown value.
    - [Math.random], [Date.now], [fetch], [JSON.parse], [JSON.stringify] and
      the [URL] constructor belong to the platform, not to the repository;
      they are taken as parameters. *)

From Stdlib Require Import ZArith QArith Qround Lia Lqa Bool Ascii String DecimalString DecimalZ.
From stdpp Require Import base option list strings gmap fin_maps.

Set Warnings "-register-all".
Local Open Scope string_scope.
Local Open Scope Z_scope.

(** ** Control: normal and abrupt completion *)

Inductive Completion (A : Type) : Type :=
| Normal (a : A)
| Throw (message : string).
Arguments Normal {A} a.
Arguments Throw {A} message.

Definition try_catch {A} (c : Completion A) (handler : string -> Completion A) : Completion A :=
  match c with
  | Normal a => Normal a
  | Throw e => handler e
  end.

Definition bind {A B} (c : Completion A) (k : A -> Completion B) : Completion B :=
  match c with
  | Normal a => k a
  | Throw e => Throw e
  end.

(** ** Strings as the source uses them *)
Module Js.

Definition code (c : ascii) : N := N_of_ascii c.

Definition between (lo hi : N) (c : ascii) : bool :=
  ((lo <=? code c) && (code c <=? hi))%N.

(** [\s] of a regular expression, which is also what [trim] strips:
    tab, line feed, vertical tab, form feed, carriage return, space and the
    no-break space. *)
Definition is_space (c : ascii) : bool :=
  between 9 13 c || (code c =? 32)%N || (code c =? 160)%N.

(** [\w]: letters, digits and the underscore. *)
Definition is_word (c : ascii) : bool :=
  between 48 57 c || between 65 90 c || between 97 122 c || (code c =? 95)%N.

(** [\d] *)
Definition is_digit (c : ascii) : bool := between 48 57 c.

(** [.] without the [s] flag excludes the line terminators. *)
Definition is_line_terminator (c : ascii) : bool :=
  (code c =? 10)%N || (code c =? 13)%N.

Definition lower_char (c : ascii) : ascii :=
  if between 65 90 c || between 192 214 c || between 216 222 c
  then ascii_of_N (code c + 32)
  else c.

Fixpoint toLowerCase (s : string) : string :=
  match s with
  | EmptyString => EmptyString
  | String c s' => String (lower_char c) (toLowerCase s')
  end.

(** [s.includes(sub)] *)
Fixpoint includes (s sub : string) : bool :=
  String.prefix sub s ||
  match s with
  | EmptyString => false
  | String _ s' => includes s' sub
  end.

(** [s.split(sep)] for a separator of one character. *)
Fixpoint split (sep : ascii) (s : string) : list string :=
  match s with
  | EmptyString => [EmptyString]
  | String c s' =>
      if Ascii.eqb c sep then EmptyString :: split sep s'
      else match split sep s' with
           | [] => [String c EmptyString]
           | w :: ws => String c w :: ws
           end
  end.

(** [parts.join(sep)] *)
Definition join (sep : string) (parts : list string) : string :=
  String.concat sep parts.

Fixpoint trimStart (s : string) : string :=
  match s with
  | EmptyString => EmptyString
  | String c s' => if is_space c then trimStart s' else s
  end.

Fixpoint trimEnd (s : string) : string :=
  match s with
  | EmptyString => EmptyString
  | String c s' =>
      match trimEnd s' with
      | EmptyString => if is_space c then EmptyString else String c EmptyString
      | t => String c t
      end
  end.

Definition trim (s : string) : string := trimEnd (trimStart s).

(** [s.replace(/pat/g, rep)] for a literal, non-empty [pat]: occurrences are
    replaced left to right and do not overlap. *)
Fixpoint replaceAll_from (pat rep : string) (skip : nat) (s : string) : string :=
  match s with
  | EmptyString => EmptyString
  | String c s' =>
      match skip with
      | S n => replaceAll_from pat rep n s'
      | O =>
          if String.prefix pat s
          then rep +:+ replaceAll_from pat rep (String.length pat - 1) s'
          else String c (replaceAll_from pat rep O s')
      end
  end.

Definition replaceAll (pat rep s : string) : string := replaceAll_from pat rep O s.

(** Truthiness of a string: only the empty string is falsy. *)
Definition truthy (s : string) : bool :=
  match s with EmptyString => false | _ => true end.

(** [String(n)] of an integer (decimal digits, a leading minus sign). *)
Definition of_Z (n : Z) : string := NilZero.string_of_int (Z.to_int n).

(** [s.padStart(width, "0")] *)
Definition padStart0 (width : nat) (s : string) : string :=
  String.concat "" (replicate (width - String.length s)%nat "0") +:+ s.

(** ["x".repeat(n)] *)
Fixpoint repeat_char (c : ascii) (n : nat) : string :=
  match n with
  | O => EmptyString
  | S n' => String c (repeat_char c n')
  end.

(** [a[i]] on an array of strings that the code indexes within bounds. *)
Definition nth_string (l : list string) (i : Z) : string :=
  nth (Z.to_nat i) l EmptyString.

Definition dquote : string := String "034"%char EmptyString.

(** The literals of this file are written in UTF-8; [latin1] gives the string
    of the source, one character per code unit, for literals whose letters
    are all below code point 256. *)
Fixpoint latin1 (s : string) : string :=
  match s with
  | EmptyString => EmptyString
  | String c1 rest =>
      match rest with
      | String c2 s' =>
          if (code c1 =? 195)%N then String (ascii_of_N (code c2 + 64)) (latin1 s')
          else if (code c1 =? 194)%N then String c2 (latin1 s')
          else String c1 (latin1 rest)
      | EmptyString => s
      end
  end.

End Js.

(** ** Regular expressions

    The patterns of the source, interpreted with the backtracking semantics of
    JavaScript: alternatives and quantifiers are tried in priority order and
    the first complete match wins.  Quantifiers range over one-character
    classes, which is all the patterns use; there is one capture group. *)
Module Regex.

Inductive regex : Type :=
| Eps
| Chr (p : ascii -> bool)
| Seq (r1 r2 : regex)
| Alt (r1 r2 : regex)
| Opt (r : regex)
| Star (p : ascii -> bool)
| LazyStar (p : ascii -> bool)
| Group (r : regex)
| EndOfInput.

(** What a successful match reports: group 1 and the input after the match. *)
Definition Match : Type := option string * string.

Definition Cont : Type := string -> option string -> option Match.

(** [p*]: as many characters as possible first. *)
Fixpoint star_greedy (p : ascii -> bool) (s : string) (k : string -> option Match) : option Match :=
  match s with
  | EmptyString => k s
  | String c s' =>
      if p c then
        match star_greedy p s' k with
        | Some m => Some m
        | None => k s
        end
      else k s
  end.

(** [p*?]: as few characters as possible first. *)
Fixpoint star_lazy (p : ascii -> bool) (s : string) (k : string -> option Match) : option Match :=
  match k s with
  | Some m => Some m
  | None =>
      match s with
      | EmptyString => None
      | String c s' => if p c then star_lazy p s' k else None
      end
  end.

Fixpoint run (r : regex) (s : string) (cap : option string) (k : Cont) : option Match :=
  match r with
  | Eps => k s cap
  | Chr p =>
      match s with
      | String c s' => if p c then k s' cap else None
      | EmptyString => None
      end
  | Seq r1 r2 => run r1 s cap (fun s' cap' => run r2 s' cap' k)
  | Alt r1 r2 =>
      match run r1 s cap k with
      | Some m => Some m
      | None => run r2 s cap k
      end
  | Opt r1 =>
      match run r1 s cap k with
      | Some m => Some m
      | None => k s cap
      end
  | Star p => star_greedy p s (fun s' => k s' cap)
  | LazyStar p => star_lazy p s (fun s' => k s' cap)
  | Group r1 =>
      run r1 s cap
        (fun s' _ => k s' (Some (String.substring 0 (String.length s - String.length s') s)))
  | EndOfInput =>
      match s with
      | EmptyString => k s cap
      | String _ _ => None
      end
  end.

Definition match_here (r : regex) (s : string) : option Match :=
  run r s None (fun s' cap => Some (cap, s')).

(** [s.match(r)] without the [g] flag: the leftmost match. *)
Fixpoint search (r : regex) (s : string) : option Match :=
  match match_here r s with
  | Some m => Some m
  | None =>
      match s with
      | EmptyString => None
      | String _ s' => search r s'
      end
  end.

(** [s.matchAll(r)]: successive matches, each search resuming where the
    previous match ended (one character further after an empty match). *)
Fixpoint matchAll_fuel (fuel : nat) (r : regex) (s : string) : list (option string) :=
  match fuel with
  | O => []
  | S fuel' =>
      match search r s with
      | None => []
      | Some (cap, rest) =>
          let next :=
            if (String.length rest <? String.length s)%nat then rest
            else match s with EmptyString => EmptyString | String _ s' => s' end in
          match s with
          | EmptyString => [cap]
          | String _ _ => cap :: matchAll_fuel fuel' r next
          end
      end
  end.

Definition matchAll (r : regex) (s : string) : list (option string) :=
  matchAll_fuel (S (String.length s)) r s.

(** Pattern builders. *)
Fixpoint lit (s : string) : regex :=
  match s with
  | EmptyString => Eps
  | String c s' => Seq (Chr (Ascii.eqb c)) (lit s')
  end.

Definition plus (p : ascii -> bool) : regex := Seq (Chr p) (Star p).

Fixpoint seq (rs : list regex) : regex :=
  match rs with
  | [] => Eps
  | [r] => r
  | r :: rs' => Seq r (seq rs')
  end.

Definition one_of (cs : string) (c : ascii) : bool :=
  Js.includes cs (String c EmptyString).

Definition none_of (cs : string) (c : ascii) : bool := negb (one_of cs c).

Definition any (_ : ascii) : bool := true.

Definition dot (c : ascii) : bool := negb (Js.is_line_terminator c).

Definition quote (c : ascii) : bool :=
  Ascii.eqb c "'"%char || Ascii.eqb c "034"%char.

End Regex.

(** ** Data model *)

(** [{url, method, headers, body}] as [parseCurlCommand] returns it. *)
Record RequestDescriptor : Type := mkDescriptor {
  url : string;
  method : string;
  headers : gmap string string;
  body : option string
}.

Definition emptyDescriptor : RequestDescriptor :=
  {| url := ""; method := "GET"; headers := ∅; body := None |}.

(** * Route [generate-scenarios] *)

(** ** [parseCurlCommand] *)
Module Curl.
Import Regex.

(** [/curl\s+(?:-X\s+\w+\s+)?Q*([^Q>\s]+)Q*/], writing [Q] for the class
    of the two quote characters. *)
Definition url_pattern : regex :=
  seq [ lit "curl"; plus Js.is_space;
        Opt (seq [lit "-X"; plus Js.is_space; plus Js.is_word; plus Js.is_space]);
        Star quote;
        Group (plus (fun c => negb (quote c || Ascii.eqb c ">"%char || Js.is_space c)));
        Star quote ].

(** [/-X\s+(\w+)/] *)
Definition method_pattern : regex :=
  seq [ lit "-X"; plus Js.is_space; Group (plus Js.is_word) ].

(** [/-H\s+Q(.*?)Q/g] *)
Definition header_pattern : regex :=
  seq [ lit "-H"; plus Js.is_space; Chr quote; Group (LazyStar dot); Chr quote ].

Definition space_or_end : regex := Alt (Chr Js.is_space) EndOfInput.

(** [/--data-raw\s+Q(.*?)Q(?:\s|$)/s] and its [--data] and [-d] variants;
    with the [s] flag the dot matches every character. *)
Definition quoted_data_pattern (flag : string) : regex :=
  seq [ lit flag; plus Js.is_space; Chr quote; Group (LazyStar any); Chr quote; space_or_end ].

(** [/--data-raw\s+([^-\s].*?)(?:\s+-|$)/s] *)
Definition bare_data_pattern : regex :=
  seq [ lit "--data-raw"; plus Js.is_space;
        Group (Seq (Chr (fun c => negb (Ascii.eqb c "-"%char || Js.is_space c))) (LazyStar any));
        Alt (Seq (plus Js.is_space) (Chr (Ascii.eqb "-"%char))) EndOfInput ].

Definition dataPatterns : list regex :=
  [ quoted_data_pattern "--data-raw";
    bare_data_pattern;
    quoted_data_pattern "--data";
    quoted_data_pattern "-d" ].

(** Group 1 of a match; every pattern above has its group on each path. *)
Definition group1 (m : Match) : string := default "" (fst m).

(** The loop over [dataPatterns]: the first pattern that matches with a
    non-empty group gives the body. *)
Fixpoint first_data (patterns : list regex) (cleanCurl : string) : option string :=
  match patterns with
  | [] => None
  | pattern :: rest =>
      match search pattern cleanCurl with
      | Some dataMatch =>
          if Js.truthy (group1 dataMatch) then Some (group1 dataMatch)
          else first_data rest cleanCurl
      | None => first_data rest cleanCurl
      end
  end.

(** One iteration of the header loop.  An assignment to the key [__proto__]
    of an object literal reaches the prototype setter, which ignores a string:
    no property is stored. *)
Definition add_header (headers : gmap string string) (captured : string) : gmap string string :=
  match Js.split ":"%char captured with
  | key :: valueParts =>
      if Js.truthy key && (0 <? length valueParts)%nat then
        if String.eqb (Js.trim key) "__proto__" then headers
        else <[Js.trim key := Js.trim (Js.join ":" valueParts)]> headers
      else headers
  | [] => headers
  end.

Definition unescape_body (body : string) : string :=
  Js.replaceAll "^" ""
    (Js.replaceAll ("^" +:+ Js.dquote) Js.dquote
       (Js.replaceAll ("\" +:+ Js.dquote) Js.dquote
          (Js.replaceAll "\\" "\" body))).

Definition cleanCurl_of (curlCommand : string) : string :=
  Js.replaceAll "^" "" (Js.replaceAll ("^" +:+ Js.dquote) Js.dquote curlCommand).

(** The [try] block. *)
Definition parse_body (curlCommand : string) : Completion RequestDescriptor :=
  let cleanCurl := cleanCurl_of curlCommand in
  let urlMatch := search url_pattern cleanCurl in
  let url := match urlMatch with Some m => group1 m | None => "" end in
  let methodMatch := search method_pattern cleanCurl in
  let method := match methodMatch with Some m => group1 m | None => "GET" end in
  let method :=
    if negb (bool_decide (is_Some methodMatch)) &&
       (Js.includes cleanCurl "--data-raw" || Js.includes cleanCurl "--data" ||
        Js.includes cleanCurl "-d ")
    then "POST" else method in
  let headers :=
    fold_left add_header (map (default "") (matchAll header_pattern cleanCurl)) ∅ in
  let body := first_data dataPatterns cleanCurl in
  let body := unescape_body <$> body in
  Normal {| url := url; method := method; headers := headers; body := body |}.

Definition parseCurlCommand (curlCommand : string) : Completion RequestDescriptor :=
  try_catch (parse_body curlCommand) (fun _ => Normal emptyDescriptor).

End Curl.

(** ** JSON values and objects *)

Inductive JValue : Type :=
| JNull
| JBool (b : bool)
| JNum (q : Q)
| JStr (s : string)
| JArr (items : list JValue)
| JObj (props : list (string * JValue)).

(** An object: its own properties in property order, keys distinct. *)
Definition Obj : Type := list (string * JValue).

Module Object.

Definition keys (o : Obj) : list string := map fst o.

Fixpoint get (k : string) (o : Obj) : option JValue :=
  match o with
  | [] => None
  | (k', v) :: o' => if String.eqb k' k then Some v else get k o'
  end.

Definition hasOwn (k : string) (o : Obj) : bool := bool_decide (is_Some (get k o)).

(** [o[k] = v]: an existing property keeps its place, a new one is added
    last. *)
Fixpoint set (k : string) (v : JValue) (o : Obj) : Obj :=
  match o with
  | [] => [(k, v)]
  | (k', v') :: o' => if String.eqb k' k then (k', v) :: o' else (k', v') :: set k v o'
  end.

(** [delete o[k]] *)
Fixpoint remove (k : string) (o : Obj) : Obj :=
  match o with
  | [] => []
  | (k', v') :: o' => if String.eqb k' k then o' else (k', v') :: remove k o'
  end.

Fixpoint indexed {A} (i : nat) (l : list A) : list (string * A) :=
  match l with
  | [] => []
  | x :: l' => (Js.of_Z (Z.of_nat i), x) :: indexed (S i) l'
  end.

Fixpoint chars (s : string) : list JValue :=
  match s with
  | EmptyString => []
  | String c s' => JStr (String c EmptyString) :: chars s'
  end.

(** The own enumerable properties of a value, which is what the spread
    [{...v}] copies: the properties of an object, the elements of an array,
    the characters of a string, nothing for the other values. *)
Definition spread (v : JValue) : Obj :=
  match v with
  | JObj o => o
  | JArr items => indexed 0 items
  | JStr s => indexed 0 (chars s)
  | _ => []
  end.

(** [Object.keys(v)], a [TypeError] on [null]. *)
Definition keys_of (v : JValue) : Completion (list string) :=
  match v with
  | JNull => Throw "TypeError: Cannot convert undefined or null to object"
  | _ => Normal (keys (spread v))
  end.

(** [v[k]] for an own key [k]; [None] is [undefined]. *)
Definition prop (v : JValue) (k : string) : option JValue := get k (spread v).

End Object.

(** ** The platform *)

Class Platform : Type := {
  (** [JSON.parse]; [None] is a [SyntaxError]. *)
  JSON_parse : string -> option JValue;
  (** [JSON.stringify] *)
  JSON_stringify : JValue -> string;
  (** whether [new URL(s)] succeeds *)
  URL_valid : string -> bool;
  (** the empty string is not a JSON text *)
  JSON_parse_empty : JSON_parse "" = None
}.

(** ** [analyzeApiContext] *)

Record FieldPatterns : Type := {
  hasEmail : bool; hasPassword : bool; hasName : bool; hasAddress : bool;
  hasPhone : bool; hasPrice : bool; hasDate : bool; hasId : bool;
  hasStatus : bool; hasType : bool
}.

Record PayloadContext : Type := {
  fields : list string;
  patterns : FieldPatterns;
  sampleData : JValue
}.

Record ApiContext : Type := {
  domain : string;
  confidence : Z;
  endpoint : string;
  resource : string;
  payloadContext : option PayloadContext;
  businessContext : string
}.

Definition domainIndicators : list (string * list string) :=
  [ ("auth", ["auth"; "login"; "register"; "signin"; "signup"; "token"; "oauth"]);
    ("user", ["user"; "profile"; "account"; "member"; "customer"]);
    ("company", ["company"; "organization"; "business"; "enterprise"; "corp"]);
    ("product", ["product"; "item"; "catalog"; "inventory"; "goods"]);
    ("order", ["order"; "purchase"; "transaction"; "payment"; "checkout"]);
    ("content", ["post"; "article"; "blog"; "content"; "media"; "document"]);
    ("finance", ["payment"; "invoice"; "billing"; "subscription"; "wallet"]);
    ("communication", ["message"; "notification"; "email"; "sms"; "chat"]);
    ("analytics", ["analytics"; "stats"; "metrics"; "report"; "dashboard"]);
    ("admin", ["admin"; "management"; "config"; "settings"; "control"]);
    ("iot", ["iot"; "sensor"; "device"; "capture"]) ].

Definition businessContexts : list (string * string) :=
  [ ("auth", "API d'authentification - gestion des connexions, inscriptions et tokens");
    ("user", Js.latin1 "API de gestion utilisateurs - profils, comptes et données personnelles");
    ("company", Js.latin1 "API de gestion d'entreprises - organisations, sociétés et entités business");
    ("product", Js.latin1 "API de gestion produits - catalogue, inventaire et références");
    ("order", "API de commandes - transactions, achats et processus de vente");
    ("content", Js.latin1 "API de contenu - articles, médias et publications");
    ("finance", Js.latin1 "API financière - paiements, facturation et transactions monétaires");
    ("communication", Js.latin1 "API de communication - messages, notifications et échanges");
    ("analytics", Js.latin1 "API d'analytics - statistiques, métriques et rapports");
    ("admin", Js.latin1 "API d'administration - configuration, gestion et contrôle système");
    ("iot", "API IoT - gestion des capteurs et appareils");
    ("generic", Js.latin1 "API générique - fonctionnalités diverses") ].

Fixpoint assoc (k : string) (l : list (string * string)) : option string :=
  match l with
  | [] => None
  | (k', v) :: l' => if String.eqb k' k then Some v else assoc k l'
  end.

(** [contexts[domain] || contexts.generic] *)
Definition generateBusinessContext (domain : string) (payloadContext : option PayloadContext) : string :=
  match assoc domain businessContexts with
  | Some text => text
  | None => default "" (assoc "generic" businessContexts)
  end.

(** [a[i] || "unknown"] for the element [back] places before the end. *)
Definition part_from_end (urlParts : list string) (back : nat) : string :=
  match nth_error (rev urlParts) back with
  | Some part => if Js.truthy part then part else "unknown"
  | None => "unknown"
  end.

Definition urlParts_of (url : string) : list string := Js.split "/"%char (Js.toLowerCase url).

Definition queryParams_of (url : string) : string :=
  if Js.includes url "?" then nth 1 (Js.split "?"%char url) "" else "".

(** The number of indicators of one domain found in the path or the query. *)
Definition count_matches (urlParts : list string) (queryParams : string)
    (indicators : list string) : Z :=
  Z.of_nat (length (filter
    (fun indicator =>
       Is_true (existsb (fun part => Js.includes part indicator) urlParts
                || Js.includes queryParams indicator))
    indicators)).

(** The loop over [domainIndicators], from [("generic", 0)]. *)
Definition score_step (urlParts : list string) (queryParams : string)
    (acc : string * Z) (entry : string * list string) : string * Z :=
  let matches := count_matches urlParts queryParams (snd entry) in
  if snd acc <? matches then (fst entry, matches) else acc.

Definition score_url (url : string) : string * Z :=
  fold_left (score_step (urlParts_of url) (queryParams_of url)) domainIndicators ("generic", 0).

Definition some_field (fields : list string) (needle : string) : bool :=
  existsb (fun f => Js.includes (Js.toLowerCase f) needle) fields.

Definition fieldPatterns_of (fields : list string) : FieldPatterns :=
  {| hasEmail := some_field fields "email";
     hasPassword := some_field fields "password";
     hasName := some_field fields "name";
     hasAddress := some_field fields "address";
     hasPhone := some_field fields "phone";
     hasPrice := existsb (fun f => Js.includes (Js.toLowerCase f) "price"
                                   || Js.includes (Js.toLowerCase f) "amount") fields;
     hasDate := existsb (fun f => Js.includes (Js.toLowerCase f) "date"
                                  || Js.includes (Js.toLowerCase f) "time") fields;
     hasId := some_field fields "id";
     hasStatus := some_field fields "status";
     hasType := some_field fields "type" |}.

(** The three refinements of the detected domain, first match only. *)
Definition refine_domain (fp : FieldPatterns) (acc : string * Z) : string * Z :=
  if hasEmail fp && hasPassword fp then ("auth", snd acc + 2)
  else if hasPrice fp && hasName fp then ("product", snd acc + 2)
  else if hasAddress fp && hasPhone fp then ("user", snd acc + 2)
  else acc.

Section WithPlatform.
Context {P : Platform}.

(** The payload analysis: the [try] block under [if (body)], whose [catch]
    keeps what the URL gave. *)
Definition analyze_payload (body : option string) (acc : string * Z)
    : (string * Z) * option PayloadContext :=
  match body with
  | Some text =>
      if Js.truthy text then
        match JSON_parse text with
        | Some bodyObj =>
            match Object.keys_of bodyObj with
            | Normal fields =>
                let fp := fieldPatterns_of fields in
                (refine_domain fp acc,
                 Some {| fields := fields; patterns := fp; sampleData := bodyObj |})
            | Throw _ => (acc, None)
            end
        | None => (acc, None)
        end
      else (acc, None)
  | None => (acc, None)
  end.

Definition analyzeApiContext (parsedCurl : RequestDescriptor) : ApiContext :=
  let urlParts := urlParts_of (url parsedCurl) in
  let '(detected, payloadContext) := analyze_payload (body parsedCurl) (score_url (url parsedCurl)) in
  {| domain := fst detected;
     confidence := snd detected;
     endpoint := part_from_end urlParts 0;
     resource := part_from_end urlParts 1;
     payloadContext := payloadContext;
     businessContext := generateBusinessContext (fst detected) payloadContext |}.

End WithPlatform.

(** ** [analyzeFieldContext] *)

Inductive DataType : Type :=
| human_name | business_name | identifier | contact | url_type | generic.

Record FieldContext : Type := {
  needsUniqueness : bool;
  dataType : DataType;
  isHumanReadable : bool
}.

(** [/^(first_?name|last_?name|given_?name|family_?name|prenom|nom)$/] *)
Definition human_name_pattern : Regex.regex :=
  let opt_name (stem : string) :=
    Regex.seq [Regex.lit stem; Regex.Opt (Regex.lit "_"); Regex.lit "name"] in
  Regex.Seq
    (Regex.Group
       (Regex.Alt (opt_name "first")
          (Regex.Alt (opt_name "last")
             (Regex.Alt (opt_name "given")
                (Regex.Alt (opt_name "family")
                   (Regex.Alt (Regex.lit "prenom") (Regex.lit "nom")))))))
    Regex.EndOfInput.

Definition analyzeFieldContext (fieldName domain : string) : FieldContext :=
  let lowerField := Js.toLowerCase fieldName in
  if bool_decide (is_Some (Regex.match_here human_name_pattern lowerField)) then
    {| needsUniqueness := false; dataType := human_name; isHumanReadable := true |}
  else if Js.includes lowerField "email" || Js.includes lowerField "username"
          || Js.includes lowerField "login" then
    {| needsUniqueness := true; dataType := contact; isHumanReadable := true |}
  else if Js.includes lowerField "url" || Js.includes lowerField "website"
          || Js.includes lowerField "linkedin" then
    {| needsUniqueness := true; dataType := url_type; isHumanReadable := true |}
  else if Js.includes lowerField "name" && negb (Js.includes lowerField "first")
          && negb (Js.includes lowerField "last") then
    if String.eqb domain "company" || Js.includes lowerField "company"
       || Js.includes lowerField "business" then
      {| needsUniqueness := true; dataType := business_name; isHumanReadable := true |}
    else if Js.includes lowerField "product" || Js.includes lowerField "item" then
      {| needsUniqueness := true; dataType := business_name; isHumanReadable := true |}
    else
      {| needsUniqueness := true; dataType := business_name; isHumanReadable := true |}
  else if Js.includes lowerField "id" || Js.includes lowerField "ref"
          || Js.includes lowerField "code" then
    {| needsUniqueness := true; dataType := identifier; isHumanReadable := false |}
  else if Js.includes lowerField "phone" || Js.includes lowerField "tel" then
    {| needsUniqueness := true; dataType := contact; isHumanReadable := false |}
  else
    {| needsUniqueness := false; dataType := generic; isHumanReadable := true |}.

Definition DataType_eqb (a b : DataType) : bool :=
  match a, b with
  | human_name, human_name | business_name, business_name
  | identifier, identifier | contact, contact
  | url_type, url_type | generic, generic => true
  | _, _ => false
  end.

(** ** [generateValidTestData] *)

Record StaticAttribute : Type := {
  name : string;
  value : string
}.

(** [staticAttributes.some((attr) => attr.name === key)] *)
Definition isStatic (staticAttributes : list StaticAttribute) (key : string) : bool :=
  existsb (fun attr => String.eqb (name attr) key) staticAttributes.

(** [Math.random]: the successive draws, each a 53-bit numerator [k] standing
    for the number [k / 2^53] of the unit interval.  The computations on a
    draw are carried out on rationals. *)
Definition RandomSource : Type := nat -> N.

Definition unit_interval (k : N) : Q := Z.of_N (k mod 2 ^ 53) # 2 ^ 53.

(** A computation that draws random numbers: from the index of the next
    draw to a result and the index after it. *)
Definition Rand (A : Type) : Type := nat -> A * nat.

Definition ret {A} (a : A) : Rand A := fun next => (a, next).

Definition Math_random (rnd : RandomSource) : Rand Q :=
  fun next => (unit_interval (rnd next), S next).

Definition rbind {A B} (c : Rand A) (k : A -> Rand B) : Rand B :=
  fun next => let '(a, next') := c next in k a next'.

Notation "'let*' x := c 'in' k" := (rbind c (fun x => k))
  (at level 10, x name, c at level 100, k at level 200).

Module Pools.
Definition firstNames : list string :=
  [ "Jean"; "Marie"; "Pierre"; "Sophie"; "Ahmed"; "Fatima"; "David"; "Sarah";
    "Lucas"; "Emma"; "Thomas"; "Julie"; "Nicolas"; "Camille"; "Alexandre" ].
Definition lastNames : list string :=
  [ "Martin"; "Dubois"; "Bernard"; "Moreau"; "Petit"; "Robert"; "Richard";
    "Durand"; "Leroy"; "Simon"; "Laurent"; "Lefebvre"; "Michel"; "Garcia" ].
Definition companyNames : list string :=
  [ "TechSolutions"; "InnovaCorp"; "DigitalPro"; "SmartBusiness"; "FutureTech";
    "ProServices"; "EliteConsulting"; "NextGen"; "DataFlow"; "CloudTech";
    "WebMaster"; "CodeCraft"; "InnovateLab"; "TechVision"; "DigitalEdge" ].
Definition companyTypes : list string :=
  [ "IT_SERVICES_COMPANY"; "CONSULTING"; "MANUFACTURING"; "RETAIL"; "FINANCE";
    "HEALTHCARE"; "EDUCATION"; "LOGISTICS" ].
Definition productNames : list string :=
  [ "Smartphone Pro"; "Laptop Gaming"; "Casque Audio"; "Tablette Design";
    Js.latin1 "Montre Connectée"; Js.latin1 "Écouteurs Sans Fil" ].
Definition domains : list string := [ ".com"; ".fr"; ".net"; ".org"; ".io"; ".tech" ].
Definition linkedinSuffixes : list string :=
  [ ""; "-corp"; "-group"; "-solutions"; "-tech"; "-consulting" ].
Definition passwords : list string :=
  [ "SecurePass123!"; "MyPassword2024!"; "StrongPwd456!"; "SafeLogin789!" ].
End Pools.

(** [pool[index % pool.length]] *)
Definition pick (pool : list string) (index : Z) : string :=
  Js.nth_string pool (Z.rem index (Z.of_nat (length pool))).

(** [s.replace(/\s+/g, "")] *)
Fixpoint remove_spaces (s : string) : string :=
  match s with
  | EmptyString => EmptyString
  | String c s' => if Js.is_space c then remove_spaces s' else String c (remove_spaces s')
  end.

(** [Math.abs(timestamp + key.length) % 1000] *)
Definition index_of (timestamp : Z) (key : string) : Z :=
  Z.rem (Z.abs (timestamp + Z.of_nat (String.length key))) 1000.

(** [Math.floor(u * 9) + 1] *)
Definition leading_digit (u : Q) : Z := Qfloor (u * 9) + 1.

(** The phone number, from the leading digit.
    [`0${digit}${(timestamp % 100000000).toString().padStart(8, "0")}`] *)
Definition phone_number (digit : Z) (timestamp : Z) : string :=
  "0" +:+ Js.of_Z digit +:+ Js.padStart0 8 (Js.of_Z (Z.rem timestamp 100000000)).

(** [Number.parseFloat((u * 1000 + 10).toFixed(2))]: [toFixed] takes the
    nearest multiple of a hundredth, the larger one on a tie. *)
Definition price_of (u : Q) : Q :=
  Qred (Qfloor ((u * 1000 + 10) * 100 + (1 # 2)) # 100).

(** The assignment of the static values: the first [forEach].  The method
    [hasOwnProperty] is looked up on [testData] itself: a payload with a
    property of that name shadows the inherited method with a value that
    cannot be called. *)
Definition apply_static_attribute (testData : Completion Obj) (attr : StaticAttribute)
    : Completion Obj :=
  bind testData (fun testData =>
    if Object.hasOwn "hasOwnProperty" testData then
      Throw "TypeError: testData.hasOwnProperty is not a function"
    else if Object.hasOwn (name attr) testData then
      Normal (Object.set (name attr) (JStr (value attr)) testData)
    else Normal testData).

Definition apply_static (staticAttributes : list StaticAttribute) (testData : Obj)
    : Completion Obj :=
  fold_left apply_static_attribute staticAttributes (Normal testData).

(** The body of the second [forEach] for a key that is not static: the value
    assigned to [testData[key]], or [None] when no branch assigns. *)
Definition synthesize (rnd : RandomSource) (domain : string) (timestamp : Z)
    (key : string) (current : option JValue) : Rand (option JValue) :=
  let lowerKey := Js.toLowerCase key in
  let fieldContext := analyzeFieldContext key domain in
  let index := index_of timestamp key in
  if Js.includes lowerKey "email" then
    let firstName := Js.toLowerCase (pick Pools.firstNames index) in
    let lastName := Js.toLowerCase (pick Pools.lastNames index) in
    ret (Some (JStr (firstName +:+ "." +:+ lastName +:+ "." +:+ Js.of_Z timestamp
                     +:+ "@example.com")))
  else if DataType_eqb (dataType fieldContext) human_name then
    if Js.includes lowerKey "first" then ret (Some (JStr (pick Pools.firstNames index)))
    else ret (Some (JStr (pick Pools.lastNames index)))
  else if DataType_eqb (dataType fieldContext) business_name then
    let baseName :=
      if String.eqb domain "company" || Js.includes lowerKey "company"
      then pick Pools.companyNames index
      else if Js.includes lowerKey "product" then pick Pools.productNames index
      else pick Pools.companyNames index in
    ret (Some (JStr (if needsUniqueness fieldContext && String.eqb lowerKey "name"
                     then baseName +:+ " " +:+ Js.of_Z index else baseName)))
  else if Js.includes lowerKey "type"
          && (String.eqb domain "company" || Js.includes lowerKey "company") then
    ret (Some (JStr (pick Pools.companyTypes index)))
  else if Js.includes lowerKey "phone" then
    let* u := Math_random rnd in
    ret (Some (JStr (phone_number (leading_digit u) timestamp)))
  else if Js.includes lowerKey "linkedin" then
    let companyName := remove_spaces (Js.toLowerCase (pick Pools.companyNames index)) in
    let suffix := pick Pools.linkedinSuffixes index in
    ret (Some (JStr ("https://linkedin.com/company/" +:+ companyName +:+ suffix +:+ "-"
                     +:+ Js.of_Z timestamp)))
  else if Js.includes lowerKey "website"
          || (Js.includes lowerKey "url" && negb (Js.includes lowerKey "linkedin")) then
    let companyName := remove_spaces (Js.toLowerCase (pick Pools.companyNames index)) in
    let domain := pick Pools.domains index in
    ret (Some (JStr ("https://" +:+ companyName +:+ "-" +:+ Js.of_Z timestamp +:+ domain)))
  else if Js.includes lowerKey "password" then
    ret (Some (JStr (pick Pools.passwords index)))
  else if Js.includes lowerKey "price" || Js.includes lowerKey "amount" then
    let* u := Math_random rnd in
    ret (Some (JNum (price_of u)))
  else if DataType_eqb (dataType fieldContext) identifier then
    ret (Some (JStr (lowerKey +:+ "_" +:+ Js.of_Z timestamp +:+ "_" +:+ Js.of_Z index)))
  else
    match current with
    | Some (JStr text) =>
        if (10 <? String.length text)%nat then
          if isHumanReadable fieldContext then
            let baseName :=
              if String.eqb domain "company" then pick Pools.companyNames index
              else if String.eqb domain "product" then pick Pools.productNames index
              else Js.latin1 "Valeur Réaliste" in
            ret (Some (JStr (if needsUniqueness fieldContext
                             then baseName +:+ " " +:+ Js.of_Z timestamp else baseName)))
          else
            ret (Some (JStr ("value_" +:+ Js.of_Z timestamp +:+ "_" +:+ Js.of_Z index)))
        else ret None
    | _ => ret None
    end.

(** One iteration of the second [forEach]. *)
Definition process_key (rnd : RandomSource) (domain : string) (timestamp : Z)
    (staticAttributes : list StaticAttribute) (testData : Obj) (key : string) : Rand Obj :=
  if isStatic staticAttributes key then ret testData
  else
    let* assigned := synthesize rnd domain timestamp key (Object.get key testData) in
    ret (match assigned with
         | Some v => Object.set key v testData
         | None => testData
         end).

Fixpoint process_keys (rnd : RandomSource) (domain : string) (timestamp : Z)
    (staticAttributes : list StaticAttribute) (keys : list string) (testData : Obj)
    : Rand Obj :=
  match keys with
  | [] => ret testData
  | key :: keys' =>
      let* testData' := process_key rnd domain timestamp staticAttributes testData key in
      process_keys rnd domain timestamp staticAttributes keys' testData'
  end.

Definition generateValidTestData (rnd : RandomSource) (originalData : JValue)
    (domain : string) (timestamp : Z) (staticAttributes : list StaticAttribute)
    (next : nat) : Completion (Obj * nat) :=
  let testData := Object.spread originalData in
  bind (apply_static staticAttributes testData) (fun testData =>
    Normal (process_keys rnd domain timestamp staticAttributes
              (Object.keys testData) testData next)).

(** ** [generateInvalidValue] *)

Definition generateInvalidValue (fieldName : string) (originalValue : option JValue) : JValue :=
  let lowerField := Js.toLowerCase fieldName in
  let is_string := match originalValue with Some (JStr _) => true | _ => false end in
  let is_number := match originalValue with Some (JNum _) => true | _ => false end in
  let is_boolean := match originalValue with Some (JBool _) => true | _ => false end in
  if Js.includes lowerField "email" then JStr "invalid-email-format-without-at-symbol"
  else if Js.includes lowerField "phone" then JStr "invalid-phone-123abc"
  else if Js.includes lowerField "url" || Js.includes lowerField "website"
          || Js.includes lowerField "linkedin" then JStr "not-a-valid-url-format"
  else if Js.includes lowerField "password" then JStr "123"
  else if Js.includes lowerField "name" && is_string then JStr (Js.repeat_char "x" 1000)
  else if is_number then JNum (-999999 # 1)
  else if is_boolean then JStr "not-a-boolean-value"
  else if is_string then JStr (Js.repeat_char "x" 1000)
  else JNull.

(** ** [generateComprehensiveFallback] *)

Module Scenario.
Record TestScenario : Type := mk {
  name : string;
  description : string;
  method : string;
  url : string;
  headers : option (gmap string string);
  body : option string;
  expectedStatus : option Z
}.
End Scenario.
Abbreviation TestScenario := Scenario.TestScenario.

(** [body || undefined] *)
Definition body_or_undefined (body : option string) : option string :=
  match body with
  | Some text => if Js.truthy text then Some text else None
  | None => None
  end.

(** [url.replace(/\/\d+/, "/999999")]: the first slash followed by digits. *)
Fixpoint replace_first (r : Regex.regex) (replacement s : string) : string :=
  match Regex.match_here r s with
  | Some (_, rest) => replacement +:+ rest
  | None =>
      match s with
      | EmptyString => EmptyString
      | String c s' => String c (replace_first r replacement s')
      end
  end.

Definition numeric_segment : Regex.regex :=
  Regex.Seq (Regex.Chr (Ascii.eqb "/"%char)) (Regex.plus Js.is_digit).

Section Fallback.
Context {P : Platform}.
Variable rnd : RandomSource.
Variable parsedCurl : RequestDescriptor.
Variable apiContext : ApiContext.
Variable staticAttributes : list StaticAttribute.
(** [Date.now()] when the builder starts *)
Variable timestamp : Z.

Definition scenario_with (name description url : string) (headers : gmap string string)
    (body : option string) (expectedStatus : Z) : TestScenario :=
  {| Scenario.name := name;
     Scenario.description := description;
     Scenario.method := method parsedCurl;
     Scenario.url := url;
     Scenario.headers := Some headers;
     Scenario.body := body;
     Scenario.expectedStatus := Some expectedStatus |}.

Definition nominal_scenario (validData : Obj) : TestScenario :=
  scenario_with
    (domain apiContext +:+ Js.latin1 " - Données valides")
    (Js.latin1 "Test nominal avec données valides pour " +:+ businessContext apiContext)
    (url parsedCurl) (headers parsedCurl)
    (Some (JSON_stringify (JObj validData)))
    (if String.eqb (method parsedCurl) "POST" then 201 else 200).

(** The object sent by a per-field test: a copy of the valid data in which
    the one field is assigned its invalid value. *)
Definition invalidData_of (bodyObj : JValue) (field : string) (baseValidData : Obj) : Obj :=
  Object.set field (generateInvalidValue field (Object.prop bodyObj field)) baseValidData.

Definition invalid_field_scenario (field : string) (invalidData : Obj) : TestScenario :=
  scenario_with
    ("Validation - " +:+ field +:+ " invalide")
    ("Test avec " +:+ field
       +:+ " contenant une valeur invalide, tous autres champs valides et uniques")
    (url parsedCurl) (headers parsedCurl)
    (Some (JSON_stringify (JObj invalidData)))
    400.

(** [fields.forEach((field, index) => ...)]: the scenarios it pushes, the
    index of the next random draw, and whether it ran to its end ([false]
    when a call of the generator threw). *)
Fixpoint field_scenarios (bodyObj : JValue) (fields : list string) (index : nat) (next : nat)
    : list TestScenario * nat * bool :=
  match fields with
  | [] => ([], next, true)
  | field :: fields' =>
      if (index <? 4)%nat then
        match generateValidTestData rnd bodyObj (domain apiContext)
                (timestamp + Z.of_nat index) staticAttributes next with
        | Throw _ => ([], next, false)
        | Normal (baseValidData, next') =>
            let pushed :=
              if isStatic staticAttributes field then []
              else [invalid_field_scenario field (invalidData_of bodyObj field baseValidData)] in
            let '(more, next'', completed) := field_scenarios bodyObj fields' (S index) next' in
            ((pushed ++ more)%list, next'', completed)
        end
      else field_scenarios bodyObj fields' (S index) next
  end.

(** [fields.find((field) => !isStatic(field)) || fields[0]], as the property
    key and template text it is used for. *)
Definition requiredField_of (fields : list string) : string :=
  match List.find (fun field => negb (isStatic staticAttributes field)) fields with
  | Some field =>
      if Js.truthy field then field else default "undefined" (head fields)
  | None => default "undefined" (head fields)
  end.

Definition missing_field_scenario (requiredField : string) (validData : Obj) : TestScenario :=
  scenario_with
    ("Validation - " +:+ requiredField +:+ " manquant")
    ("Test avec champ obligatoire " +:+ requiredField
       +:+ " manquant, autres champs valides et uniques")
    (url parsedCurl) (headers parsedCurl)
    (Some (JSON_stringify (JObj (Object.remove requiredField validData))))
    400.

(** Part 1, the [try] block under [if (body)]; what was pushed before an
    exception stays in the array. *)
Definition business_scenarios (next : nat) : list TestScenario * nat :=
  match body_or_undefined (body parsedCurl) with
  | None => ([], next)
  | Some text =>
      match JSON_parse text with
      | None => ([], next)
      | Some bodyObj =>
          match Object.keys_of bodyObj with
          | Throw _ => ([], next)
          | Normal fields =>
              match generateValidTestData rnd bodyObj (domain apiContext) timestamp
                      staticAttributes next with
              | Throw _ => ([], next)
              | Normal (validData, next1) =>
                  let '(per_field, next2, completed) :=
                    field_scenarios bodyObj fields 0 next1 in
                  if completed then
                    match generateValidTestData rnd bodyObj (domain apiContext)
                            (timestamp + 100) staticAttributes next2 with
                    | Throw _ => (nominal_scenario validData :: per_field, next2)
                    | Normal (validDataForMissingTest, next3) =>
                        ((nominal_scenario validData :: per_field
                            ++ [missing_field_scenario (requiredField_of fields)
                                  validDataForMissingTest])%list,
                         next3)
                    end
                  else (nominal_scenario validData :: per_field, next2)
              end
          end
      end
  end.

(** Part 2.  The header set to [undefined] in the first scenario is absent
    from the serialised response, hence deleted here. *)
Definition security_scenarios : list TestScenario :=
  [ scenario_with
      (Js.latin1 "Sécurité - Authentification manquante")
      "Test sans token d'authentification"
      (url parsedCurl) (delete "Authorization" (headers parsedCurl))
      (body_or_undefined (body parsedCurl)) 401;
    scenario_with
      (Js.latin1 "Sécurité - Token invalide")
      "Test avec token d'authentification invalide"
      (url parsedCurl) (<["Authorization" := "Bearer invalid_token_12345"]> (headers parsedCurl))
      (body_or_undefined (body parsedCurl)) 401;
    scenario_with
      (Js.latin1 "Sécurité - Injection SQL")
      (Js.latin1 "Test d'injection SQL dans les paramètres")
      (if Js.includes (url parsedCurl) "?"
       then url parsedCurl +:+ "&id=1' OR '1'='1"
       else url parsedCurl +:+ "?id=1' OR '1'='1")
      (headers parsedCurl)
      (body_or_undefined (body parsedCurl)) 400 ].

(** Part 3, under [if (body)]: the [catch] pushes the same scenario with the
    original body. *)
Definition performance_scenarios (next : nat) : list TestScenario * nat :=
  match body_or_undefined (body parsedCurl) with
  | None => ([], next)
  | Some text =>
      let rate_limit (body : option string) :=
        scenario_with "Performance - Rate limiting" "Test de limitation de taux"
          (url parsedCurl) (<["X-Test-Rate-Limit" := "true"]> (headers parsedCurl))
          body 429 in
      match JSON_parse text with
      | None => ([rate_limit (Some text)], next)
      | Some bodyObj =>
          match generateValidTestData rnd bodyObj (domain apiContext) (timestamp + 200)
                  staticAttributes next with
          | Throw _ => ([rate_limit (Some text)], next)
          | Normal (validData, next') =>
              ([rate_limit (Some (JSON_stringify (JObj validData)))], next')
          end
      end
  end.

(** Part 4. *)
Definition http_error_scenarios : list TestScenario :=
  [ scenario_with
      "Erreur - Ressource inexistante"
      "Test avec ID de ressource inexistant"
      (replace_first numeric_segment "/999999" (url parsedCurl))
      (headers parsedCurl) (body_or_undefined (body parsedCurl)) 404;
    scenario_with
      (Js.latin1 "Erreur - Conflit de données")
      (Js.latin1 "Test de création avec données en conflit")
      (url parsedCurl) (headers parsedCurl) (body_or_undefined (body parsedCurl)) 409 ].

Definition generateComprehensiveFallback (next : nat) : list TestScenario * nat :=
  let '(business, next1) := business_scenarios next in
  let '(performance, next2) := performance_scenarios next1 in
  ((business ++ security_scenarios ++ performance ++ http_error_scenarios)%list, next2).

End Fallback.

(** * JavaScript numbers that may fail to be finite *)
Module Num.

Inductive JsNumber : Type :=
| Finite (q : Q)
| NaN
| PosInfinity
| NegInfinity.

Definition of_Z (n : Z) : JsNumber := Finite (inject_Z n).

(** [a / b] on integers *)
Definition div (a b : Z) : JsNumber :=
  if b =? 0 then
    if a =? 0 then NaN else if 0 <? a then PosInfinity else NegInfinity
  else Finite (Qred (inject_Z a / inject_Z b)).

(** [x * c] and [x / c] for a positive constant [c] *)
Definition scale (x : JsNumber) (c : Q) : JsNumber :=
  match x with
  | Finite q => Finite (Qred (q * c))
  | other => other
  end.

(** [Math.round]: the nearest integer, the larger one on a tie. *)
Definition round (x : JsNumber) : JsNumber :=
  match x with
  | Finite q => Finite (inject_Z (Qfloor (q + (1 # 2))))
  | other => other
  end.

(** [Math.min] and [Math.max] with an integer constant; [NaN] is
    contagious. *)
Definition min (c : Z) (x : JsNumber) : JsNumber :=
  match x with
  | Finite q => if Qle_bool q (inject_Z c) then Finite q else of_Z c
  | NaN => NaN
  | PosInfinity => of_Z c
  | NegInfinity => NegInfinity
  end.

Definition max (c : Z) (x : JsNumber) : JsNumber :=
  match x with
  | Finite q => if Qle_bool (inject_Z c) q then Finite q else of_Z c
  | NaN => NaN
  | PosInfinity => PosInfinity
  | NegInfinity => of_Z c
  end.

(** [x > c] *)
Definition gt (x : JsNumber) (c : Z) : bool :=
  match x with
  | Finite q => negb (Qle_bool q (inject_Z c))
  | PosInfinity => true
  | _ => false
  end.

End Num.

(** * Route [run-tests] *)

(** A thrown value, as [error instanceof Error ? error.message : ...] tells
    them apart. *)
Inductive Thrown : Type :=
| ErrorObject (message : string)
| OtherValue.

Definition message_or_unknown (e : Thrown) : string :=
  match e with
  | ErrorObject message => message
  | OtherValue => "Erreur inconnue"
  end.

Record RequestInit : Type := {
  init_method : string;
  init_headers : gmap string string;
  init_body : option string
}.

(** What [fetch] resolves to: the status and what [response.text()] gives. *)
Record Response : Type := {
  response_status : Z;
  response_text : Thrown + string
}.

Inductive FetchOutcome : Type :=
| Rejected (e : Thrown)
| Resolved (r : Response).

(** The world as one execution of [executeTest] sees it: the two readings of
    [Date.now()] and the behaviour of [fetch]. *)
Record Exchange : Type := {
  startTime : Z;
  endTime : Z;
  fetch : string -> RequestInit -> FetchOutcome
}.

Module Result.
Record TestResult : Type := mk {
  scenario : TestScenario;
  success : bool;
  status : Z;
  responseTime : Z;
  error : option string;
  response : option JValue;
  payload : option string
}.
End Result.
Abbreviation TestResult := Result.TestResult.

Record Summary : Type := {
  total : Z;
  passed : Z;
  failed : Z;
  avgResponseTime : Num.JsNumber
}.

(** The report repeats the array it was given; its elements are scenario
    objects or [null] (see [ScenariosField] below). *)
Record TestReport : Type := {
  scenarios : list (option TestScenario);
  results : list TestResult;
  summary : Summary
}.

Definition default_headers : gmap string string :=
  <["User-Agent" := "API-Tester/1.0"]>
    (<["Accept" := "application/json, text/plain, */*"]> ∅).

(** [!headers[k]]: the header is absent or empty. *)
Definition header_missing (headers : gmap string string) (k : string) : bool :=
  match headers !! k with
  | Some v => negb (Js.truthy v)
  | None => true
  end.

(** The status expected when the scenario gives none (or gives 0). *)
Definition default_status (method : string) : Z :=
  if String.eqb method "POST" then 201
  else if String.eqb method "PUT" || String.eqb method "PATCH" then 200
  else if String.eqb method "DELETE" then 204
  else 200.

Section Executor.
Context {P : Platform}.

Definition content_type_for (body : string) : string :=
  if bool_decide (is_Some (JSON_parse body)) then "application/json"
  else if Js.includes body "=" && Js.includes body "&" then "application/x-www-form-urlencoded"
  else "text/plain".

Definition requestOptions_of (scenario : TestScenario) : RequestInit :=
  let headers := default ∅ (Scenario.headers scenario) ∪ default_headers in
  match body_or_undefined (Scenario.body scenario) with
  | Some body =>
      {| init_method := Scenario.method scenario;
         init_headers :=
           if header_missing headers "Content-Type" && header_missing headers "content-type"
           then <["Content-Type" := content_type_for body]> headers
           else headers;
         init_body := Some body |}
  | None =>
      {| init_method := Scenario.method scenario; init_headers := headers; init_body := None |}
  end.

(** [responseData]: the parsed text, [null] for an empty text, the text
    itself when it is not JSON, a message when it cannot be read. *)
Definition responseData_of (text : Thrown + string) : JValue :=
  match text with
  | inr text =>
      if Js.truthy text then
        match JSON_parse text with
        | Some v => v
        | None => JStr text
        end
      else JNull
  | inl e =>
      JStr (Js.latin1 "Erreur de lecture de la réponse: " +:+ message_or_unknown e)
  end.

(** The outer [try] block. *)
Definition attempt (w : Exchange) (scenario : TestScenario) : Thrown + TestResult :=
  let requestOptions := requestOptions_of scenario in
  let payload := body_or_undefined (Scenario.body scenario) in
  let finalUrl := Scenario.url scenario in
  if URL_valid finalUrl then
    match fetch w finalUrl requestOptions with
    | Rejected e => inl e
    | Resolved response =>
        let responseTime := endTime w - startTime w in
        let expectedStatus :=
          match Scenario.expectedStatus scenario with
          | Some expected => if expected =? 0 then default_status (Scenario.method scenario)
                             else expected
          | None => default_status (Scenario.method scenario)
          end in
        inr {| Result.scenario := scenario;
               Result.success := response_status response =? expectedStatus;
               Result.status := response_status response;
               Result.responseTime := responseTime;
               Result.error := None;
               Result.response := Some (responseData_of (response_text response));
               Result.payload := payload |}
    end
  else inl (ErrorObject ("URL invalide: " +:+ finalUrl)).

Definition executeTest (w : Exchange) (scenario : TestScenario) : TestResult :=
  match attempt w scenario with
  | inr result => result
  | inl error =>
      {| Result.scenario := scenario;
         Result.success := false;
         Result.status := 0;
         Result.responseTime := endTime w - startTime w;
         Result.error := Some (message_or_unknown error);
         Result.response := None;
         Result.payload := Scenario.body scenario |}
  end.

(** [executeTest(scenario)] for an element of the array, which is a
    scenario object or [null].  With [null], reading [scenario.method] throws
    in the [try] block and reading [scenario.body] throws again in the
    [catch] block, so the promise is rejected. *)
Definition executeTest_element (w : Exchange) (element : option TestScenario)
    : Completion TestResult :=
  match element with
  | Some scenario => Normal (executeTest w scenario)
  | None => Throw "TypeError: Cannot read properties of null (reading 'body')"
  end.

(** [Promise.all]: the values in the order of the promises, or a rejection
    when one of the promises is rejected. *)
Fixpoint Promise_all {A : Type} (promises : list (Completion A)) : Completion (list A) :=
  match promises with
  | [] => Normal []
  | promise :: rest =>
      match promise, Promise_all rest with
      | Throw e, _ => Throw e
      | Normal _, Throw e => Throw e
      | Normal a, Normal values => Normal (a :: values)
      end
  end.

(** The field [scenarios] of the request body.  The elements of an array
    are scenario objects, taken at the type the route declares, or [null]
    (the text of a request has no [undefined]). *)
Inductive ScenariosField : Type :=
| Falsy
| NotAnArray
| ScenarioArray (elements : list (option TestScenario)).

(** The request: a body that cannot be read as a JSON object, or its field. *)
Inductive RunTestsRequest : Type :=
| Unreadable
| Payload (scenarios : ScenariosField).

Inductive RunTestsResponse : Type :=
| ReportResponse (report : TestReport)
| ErrorResponse (http_status : Z) (error : string).

(** [scenarios.map(executeTest)] on an array of scenario objects: the
    result at index [i] is that of scenario [i], whose execution sees the
    exchange [world i]. *)
Definition run_all (world : nat -> Exchange) (scenarios : list TestScenario) : list TestResult :=
  imap (fun i scenario => executeTest (world i) scenario) scenarios.

Definition sum_responseTime (results : list TestResult) : Z :=
  fold_left (fun sum r => sum + Result.responseTime r) results 0.

Definition summarize (results : list TestResult) : Summary :=
  let total := Z.of_nat (length results) in
  let passed := Z.of_nat (length (filter (fun r => Is_true (Result.success r)) results)) in
  {| total := total;
     passed := passed;
     failed := total - passed;
     avgResponseTime := Num.round (Num.div (sum_responseTime results) total) |}.

Definition run_tests_POST (world : nat -> Exchange) (request : RunTestsRequest)
    : RunTestsResponse :=
  match request with
  | Unreadable => ErrorResponse 500 (Js.latin1 "Erreur lors de l'exécution des tests")
  | Payload Falsy | Payload NotAnArray => ErrorResponse 400 (Js.latin1 "Scénarios requis")
  | Payload (ScenarioArray elements) =>
      match Promise_all (imap (fun i element => executeTest_element (world i) element)
                           elements) with
      | Normal results =>
          ReportResponse
            {| scenarios := elements; results := results; summary := summarize results |}
      | Throw _ => ErrorResponse 500 (Js.latin1 "Erreur lors de l'exécution des tests")
      end
  end.

End Executor.

(** * Route [analyze-results]: the analysis built when the answer of the
    model cannot be parsed *)

Record ScenarioAnalysis : Type := {
  scenarioName : string;
  analysis_status : string;
  analysis_text : string;
  scenario_recommendations : list string;
  performance_rating : string;
  performance_details : string;
  security_level : string;
  scenario_security_issues : list string;
  businessImpact : string
}.

(** The fields of [AnalysisResult]; its [summary] sentence, which prints the
    success rate with [toFixed], is left out. *)
Record AnalysisResult : Type := {
  recommendations : list string;
  performance_assessment : string;
  performance_suggestions : list string;
  security_issues : list string;
  security_recommendations : list string;
  reliability_score : Num.JsNumber;
  reliability_issues : list string;
  scenarioAnalyses : list ScenarioAnalysis
}.

Definition rating_of (responseTime : Z) : string :=
  if responseTime <? 200 then "excellent"
  else if responseTime <? 500 then "good"
  else if responseTime <? 1000 then "average"
  else "poor".

(** [(summary.passed / summary.total) * 100] *)
Definition successRate_of (summary : Summary) : Num.JsNumber :=
  Num.scale (Num.div (passed summary) (total summary)) 100.

(** [Math.max(1, Math.min(10, Math.round(successRate / 10)))] *)
Definition reliability_score_of (summary : Summary) : Num.JsNumber :=
  Num.max 1 (Num.min 10 (Num.round (Num.scale (successRate_of summary) (1 # 10)))).

(** [scenario.expectedStatus || 200] *)
Definition expected_or_200 (scenario : TestScenario) : Z :=
  match Scenario.expectedStatus scenario with
  | Some expected => if expected =? 0 then 200 else expected
  | None => 200
  end.

Definition analyze_scenario (result : TestResult) : ScenarioAnalysis :=
  let ok := Result.success result in
  let unauthorized := Result.status result =? 401 in
  {| scenarioName := Scenario.name (Result.scenario result);
     analysis_status := if ok then "success" else "failure";
     analysis_text :=
       if ok then
         Js.latin1 "Test réussi avec un temps de réponse de "
           +:+ Js.of_Z (Result.responseTime result)
           +:+ "ms. Le comportement correspond aux attentes."
       else
         Js.latin1 "Test échoué: "
           +:+ (match Result.error result with
                | Some e => if Js.truthy e then e else "Erreur inconnue"
                | None => "Erreur inconnue"
                end)
           +:+ Js.latin1 ". Status reçu: " +:+ Js.of_Z (Result.status result)
           +:+ ", attendu: " +:+ Js.of_Z (expected_or_200 (Result.scenario result)) +:+ ".";
     scenario_recommendations :=
       if ok then [Js.latin1 "Maintenir ce niveau de qualité"; "Surveiller les performances"]
       else [Js.latin1 "Corriger l'erreur identifiée"; Js.latin1 "Vérifier la logique métier";
             Js.latin1 "Tester en environnement de développement"];
     performance_rating := rating_of (Result.responseTime result);
     performance_details :=
       Js.latin1 "Temps de réponse: " +:+ Js.of_Z (Result.responseTime result) +:+ "ms";
     security_level := if unauthorized then "vulnerable" else if ok then "secure" else "moderate";
     scenario_security_issues :=
       if unauthorized then [Js.latin1 "Problème d'authentification"] else [];
     businessImpact :=
       if ok then
         Js.latin1 "Fonctionnalité opérationnelle, impact positif sur l'expérience utilisateur"
       else
         Js.latin1 "Dysfonctionnement pouvant impacter l'expérience utilisateur et les processus métier" |}.

Definition authentication_issue : string :=
  Js.latin1 "Problèmes d'authentification détectés".

Definition fallbackAnalysis (results : list TestResult) (summary : Summary) : AnalysisResult :=
  {| recommendations :=
       [ if 0 <? failed summary
         then Js.latin1 "Corriger les erreurs identifiées dans les tests échoués"
         else Js.latin1 "Maintenir la qualité actuelle";
         if Num.gt (avgResponseTime summary) 1000
         then Js.latin1 "Optimiser les performances pour réduire les temps de réponse"
         else "Surveiller les performances";
         Js.latin1 "Implémenter une surveillance continue des APIs";
         Js.latin1 "Ajouter plus de tests de sécurité" ];
     performance_assessment :=
       if Num.gt (avgResponseTime summary) 1000
       then Js.latin1 "Performances à améliorer" else "Performances acceptables";
     performance_suggestions :=
       [ Js.latin1 "Mettre en place un cache pour les requêtes fréquentes";
         Js.latin1 "Optimiser les requêtes de base de données";
         Js.latin1 "Utiliser la compression des réponses" ];
     security_issues :=
       if existsb (fun r => Result.status r =? 401) results then [authentication_issue] else [];
     security_recommendations :=
       [ Js.latin1 "Implémenter une validation stricte des entrées";
         "Utiliser HTTPS pour toutes les communications";
         "Mettre en place un rate limiting" ];
     reliability_score := reliability_score_of summary;
     reliability_issues :=
       if 0 <? failed summary
       then [Js.of_Z (failed summary) +:+ Js.latin1 " tests échoués nécessitent une attention"]
       else [];
     scenarioAnalyses := map analyze_scenario results |}.

(** * A platform for the worked examples

    [JSON.stringify] for values whose numbers have at most two decimals,
    [JSON.parse] as its inverse on the payloads the examples use, and a [URL]
    constructor that accepts the http and https schemes. *)
Module Demo.

Fixpoint escape (s : string) : string :=
  match s with
  | EmptyString => EmptyString
  | String c s' =>
      (if Ascii.eqb c "034"%char then "\" +:+ Js.dquote
       else if Ascii.eqb c "\"%char then "\\"
       else String c EmptyString) +:+ escape s'
  end.

Definition quoted (s : string) : string := Js.dquote +:+ escape s +:+ Js.dquote.

Definition number_text (q : Q) : string :=
  let hundredths := Qfloor (q * 100) in
  let whole := Z.quot hundredths 100 in
  let cents := Z.abs (Z.rem hundredths 100) in
  if cents =? 0 then Js.of_Z whole
  else if Z.rem cents 10 =? 0 then Js.of_Z whole +:+ "." +:+ Js.of_Z (Z.quot cents 10)
  else Js.of_Z whole +:+ "." +:+ Js.padStart0 2 (Js.of_Z cents).

Fixpoint stringify (v : JValue) : string :=
  match v with
  | JNull => "null"
  | JBool b => if b then "true" else "false"
  | JNum q => number_text q
  | JStr s => quoted s
  | JArr items => "[" +:+ Js.join "," (map stringify items) +:+ "]"
  | JObj props =>
      "{" +:+ Js.join "," (map (fun p => quoted (fst p) +:+ ":" +:+ stringify (snd p)) props)
        +:+ "}"
  end.

Definition register_payload : JValue :=
  JObj [("email", JStr "a@b.com"); ("password", JStr "x")].

Definition nulls_payload : JValue :=
  JObj [("a", JNull); ("b", JNull); ("c", JNull); ("d", JNull)].

Definition known_payloads : list JValue :=
  [ register_payload; nulls_payload; JObj [] ].

Definition parse (text : string) : option JValue :=
  List.find (fun v => String.eqb (stringify v) text) known_payloads.

Definition url_valid (s : string) : bool :=
  String.prefix "http://" s || String.prefix "https://" s.

Definition platform : Platform :=
  {| JSON_parse := parse;
     JSON_stringify := stringify;
     URL_valid := url_valid;
     JSON_parse_empty := eq_refl |}.

(** A server that answers 201 with an empty object on [/register] and is
    unreachable elsewhere; every exchange takes 120 ms. *)
Definition exchange : Exchange :=
  {| startTime := 1000;
     endTime := 1120;
     fetch := fun url _ =>
       if String.eqb url "https://api.example.com/register"
       then Resolved {| response_status := 201; response_text := inr "{}" |}
       else Rejected (ErrorObject "fetch failed") |}.

Definition world (_ : nat) : Exchange := exchange.

Definition scenario (url : string) (expected : Z) : TestScenario :=
  {| Scenario.name := "demo";
     Scenario.description := "demo";
     Scenario.method := "POST";
     Scenario.url := url;
     Scenario.headers := None;
     Scenario.body := Some (stringify register_payload);
     Scenario.expectedStatus := Some expected |}.

(** Two sources of random numbers: always 0, always one half. *)
Definition zeros : RandomSource := fun _ => 0%N.
Definition halves : RandomSource := fun _ => (2 ^ 52)%N.

End Demo.

(** * Extraction of the JSON object from the answer of the model

    Both routes locate the first opening brace of the answer and scan forward
    with a counter of open braces until it returns to zero; the slice between
    the two is what they parse. *)
Module Extract.

(** [s.substring(s.indexOf("{"))], or [None] when [indexOf] is -1. *)
Fixpoint from_first_brace (s : string) : option string :=
  match s with
  | EmptyString => None
  | String c s' => if Ascii.eqb c "{"%char then Some s else from_first_brace s'
  end.

(** The [for] loop, on the text that starts at the index it has reached, with
    the current [braceCount]: the characters up to [endIndex] included, or
    [None] when the loop ends with [endIndex] still -1. *)
Fixpoint scan (s : string) (braceCount : Z) : option string :=
  match s with
  | EmptyString => None
  | String char s' =>
      if Ascii.eqb char "{"%char then String char <$> scan s' (braceCount + 1)
      else if Ascii.eqb char "}"%char then
        if braceCount - 1 =? 0 then Some (String char EmptyString)
        else String char <$> scan s' (braceCount - 1)
      else String char <$> scan s' braceCount
  end.

(** Route [generate-scenarios]: a missing or unclosed object is an error,
    which its caller answers with the fallback scenarios. *)
Definition extract_or_throw (jsonString : string) : Completion string :=
  match from_first_brace jsonString with
  | None => Throw "No JSON object found in AI response"
  | Some text =>
      match scan text 0 with
      | None => Throw "Incomplete JSON object in AI response"
      | Some object => Normal object
      end
  end.

(** Route [analyze-results]: a missing or unclosed object leaves the text as
    it is. *)
Definition extract_or_keep (jsonString : string) : string :=
  match from_first_brace jsonString with
  | None => jsonString
  | Some text =>
      match scan text 0 with
      | None => jsonString
      | Some object => object
      end
  end.

(** Opening braces minus closing braces. *)
Fixpoint depth (s : string) : Z :=
  match s with
  | EmptyString => 0
  | String c s' =>
      (if Ascii.eqb c "{"%char then 1 else if Ascii.eqb c "}"%char then -1 else 0) + depth s'
  end.

End Extract.

(** * The answer of the model before the object is cut out (route
    [generate-scenarios]) *)
Module Clean.
Import Regex.

(** [s.replace(r, "")] for a pattern with the [g] flag: the matches are
    removed from left to right, each search resuming where the previous
    match ended (one character further after an empty match). *)
Fixpoint remove_all_fuel (fuel : nat) (r : regex) (s : string) : string :=
  match fuel with
  | O => s
  | S fuel' =>
      let copy :=
        match s with
        | EmptyString => EmptyString
        | String c s' => String c (remove_all_fuel fuel' r s')
        end in
      match match_here r s with
      | Some (_, rest) =>
          if (String.length rest <? String.length s)%nat then remove_all_fuel fuel' r rest
          else copy
      | None => copy
      end
  end.

Definition remove_all (r : regex) (s : string) : string :=
  remove_all_fuel (S (String.length s)) r s.

(** A letter under the [i] flag. *)
Definition letter (c x : ascii) : bool := Ascii.eqb (Js.lower_char x) c.

(** [/```json\s*/gi] *)
Definition json_fence : regex :=
  seq [ lit "```"; Chr (letter "j"); Chr (letter "s"); Chr (letter "o"); Chr (letter "n");
        Star Js.is_space ].

(** [/```\s*/gi] *)
Definition fence : regex := Seq (lit "```") (Star Js.is_space).

(** [s.replace(/^.*?(?=\{)/s, "")]: what precedes the first opening brace is
    removed; a text without an opening brace is left as it is. *)
Definition drop_intro (s : string) : string := default s (Extract.from_first_brace s).

(** The loop over [introPatterns], on the trimmed answer. *)
Definition clean_intro (text : string) : string :=
  remove_all fence (remove_all json_fence (drop_intro (Js.trim text))).

(** [/```(?:json)?\s*([\s\S]*?)\s*```/] *)
Definition code_block_pattern : regex :=
  seq [ lit "```"; Opt (lit "json"); Star Js.is_space; Group (LazyStar any);
        Star Js.is_space; lit "```" ].

(** [if (codeBlockMatch) jsonString = codeBlockMatch[1].trim()] *)
Definition unwrap_code_block (jsonString : string) : string :=
  match search code_block_pattern jsonString with
  | Some codeBlockMatch => Js.trim (Curl.group1 codeBlockMatch)
  | None => jsonString
  end.

End Clean.

(** * The page: what it does with the analysis and with the static
    attributes *)
Module Page.

(** [score >= 8], false on [NaN] *)
Definition at_least (x : Num.JsNumber) (c : Z) : bool :=
  match x with
  | Num.Finite q => Qle_bool (inject_Z c) q
  | Num.PosInfinity => true
  | _ => false
  end.

Definition getReliabilityColor (score : Num.JsNumber) : string :=
  if at_least score 8 then "text-green-500"
  else if at_least score 6 then "text-yellow-500"
  else "text-red-500".

Definition getStatusBadgeVariant (status : string) : string :=
  if String.eqb status "success" then "default"
  else if String.eqb status "failure" then "destructive"
  else if String.eqb status "warning" then "secondary"
  else "outline".

Definition getPerformanceColor (rating : string) : string :=
  if String.eqb rating "excellent" then "text-green-600"
  else if String.eqb rating "good" then "text-blue-600"
  else if String.eqb rating "average" then "text-yellow-600"
  else if String.eqb rating "poor" then "text-red-600"
  else "text-gray-600".

Definition getSecurityColor (level : string) : string :=
  if String.eqb level "secure" then "text-green-600"
  else if String.eqb level "moderate" then "text-yellow-600"
  else if String.eqb level "vulnerable" then "text-red-600"
  else "text-gray-600".

(** [[...staticAttributes, { name: "", value: "" }]] *)
Definition addStaticAttribute (staticAttributes : list StaticAttribute) : list StaticAttribute :=
  (staticAttributes ++ [{| name := ""; value := "" |}])%list.

(** [staticAttributes.filter((_, i) => i !== index)] *)
Definition removeStaticAttribute (staticAttributes : list StaticAttribute) (index : nat)
    : list StaticAttribute :=
  omap (fun entry => if (fst entry =? index)%nat then None else Some (snd entry))
       (imap (fun i attr => (i, attr)) staticAttributes).

(** [staticAttributes.filter((attr) => attr.name.trim() && attr.value.trim())]:
    what is sent to the generation route. *)
Definition validStaticAttributes (staticAttributes : list StaticAttribute)
    : list StaticAttribute :=
  List.filter (fun attr => Js.truthy (Js.trim (name attr)) && Js.truthy (Js.trim (value attr)))
    staticAttributes.

End Page.

(** * Vocabulary of the statements *)

(** The error of a call to a property that is not a function. *)
Definition shadowed : string := "TypeError: testData.hasOwnProperty is not a function".

(** The value a key is pinned to: that of the last static attribute whose
    name is the key, letter for letter. *)
Fixpoint static_value (staticAttributes : list StaticAttribute) (key : string)
    : option string :=
  match staticAttributes with
  | [] => None
  | attr :: rest =>
      match static_value rest key with
      | Some v => Some v
      | None => if String.eqb (name attr) key then Some (value attr) else None
      end
  end.

(** What the second loop leaves under a key whose value was [current], when
    the key is reached with [next] as the index of the next random draw. *)
Definition regenerated (rnd : RandomSource) (domain : string) (timestamp : Z)
    (key : string) (current : option JValue) (next : nat) : option JValue :=
  match fst (synthesize rnd domain timestamp key current next) with
  | Some v => Some v
  | None => current
  end.

(** The branches of [synthesize] that call [Math.random]. *)
Inductive RandomUse : Type := NoDraw | PhoneDraw | PriceDraw.

Definition random_use (domain key : string) : RandomUse :=
  let lowerKey := Js.toLowerCase key in
  let fieldContext := analyzeFieldContext key domain in
  if Js.includes lowerKey "email" then NoDraw
  else if DataType_eqb (dataType fieldContext) human_name then NoDraw
  else if DataType_eqb (dataType fieldContext) business_name then NoDraw
  else if Js.includes lowerKey "type"
          && (String.eqb domain "company" || Js.includes lowerKey "company") then NoDraw
  else if Js.includes lowerKey "phone" then PhoneDraw
  else if Js.includes lowerKey "linkedin" then NoDraw
  else if Js.includes lowerKey "website"
          || (Js.includes lowerKey "url" && negb (Js.includes lowerKey "linkedin")) then NoDraw
  else if Js.includes lowerKey "password" then NoDraw
  else if Js.includes lowerKey "price" || Js.includes lowerKey "amount" then PriceDraw
  else NoDraw.

(** The status a completed request is compared with. *)
Definition effective_expected (scenario : TestScenario) : Z :=
  match Scenario.expectedStatus scenario with
  | Some expected => if expected =? 0 then default_status (Scenario.method scenario)
                     else expected
  | None => default_status (Scenario.method scenario)
  end.

(** The substrings of a lower-cased key that some rule of the generator
    looks for. *)
Definition rule_needles : list string :=
  [ "email"; "name"; "type"; "phone"; "linkedin"; "website"; "url"; "password";
    "price"; "amount"; "id"; "ref"; "code" ].

(** A key no rule looks at: it is none of the human-name spellings and
    contains none of the needles. *)
Definition plain_key (key : string) : bool :=
  negb (bool_decide (is_Some (Regex.match_here human_name_pattern (Js.toLowerCase key))))
  && forallb (fun needle => negb (Js.includes (Js.toLowerCase key) needle)) rule_needles.

(** The lower-case texts that [human_name_pattern] accepts. *)
Definition human_name_spellings : list string :=
  [ "first_name"; "firstname"; "last_name"; "lastname"; "given_name"; "givenname";
    "family_name"; "familyname"; "prenom"; "nom" ].

(** * Properties *)

(** ** Strings *)
Section StringFacts.

Lemma prefix_app (p rest : string) : String.prefix p (p +:+ rest) = true.
Proof.
  induction p as [|c p IH]; simpl.
  - by destruct rest.
  - destruct (ascii_dec c c); [exact IH | congruence].
Qed.

Lemma prefix_split (p s : string) :
  String.prefix p s = true → ∃ rest, s = p +:+ rest.
Proof.
  revert s. induction p as [|c p IH]; intros s Hp.
  - by exists s.
  - destruct s as [|b s]; simpl in Hp; [discriminate|].
    destruct (ascii_dec c b) as [->|]; [|discriminate].
    destruct (IH _ Hp) as [rest ->]. by exists rest.
Qed.

Lemma includes_prefix (s sub : string) :
  String.prefix sub s = true → Js.includes s sub = true.
Proof. intros Hp. destruct s; cbn [Js.includes]; rewrite Hp; reflexivity. Qed.

Lemma includes_intro (a sub b : string) : Js.includes (a +:+ sub +:+ b) sub = true.
Proof.
  induction a as [|c a IH].
  - change (Js.includes (sub +:+ b) sub = true). apply includes_prefix, prefix_app.
  - change (Js.includes (String c (a +:+ sub +:+ b)) sub = true).
    cbn [Js.includes]. rewrite IH. apply orb_true_r.
Qed.

Lemma includes_split (s sub : string) :
  Js.includes s sub = true → ∃ a b, s = a +:+ sub +:+ b.
Proof.
  induction s as [|c s IH]; cbn [Js.includes]; intros Hs.
  - rewrite orb_false_r in Hs. destruct (prefix_split _ _ Hs) as [b ->].
    by exists EmptyString, b.
  - apply orb_true_iff in Hs as [Hs|Hs].
    + destruct (prefix_split _ _ Hs) as [b ->]. by exists EmptyString, b.
    + destruct (IH Hs) as (a & b & ->). by exists (String c a), b.
Qed.

Lemma app_assoc_string (a b c : string) : (a +:+ b) +:+ c = a +:+ (b +:+ c).
Proof.
  induction a as [|x a IH]; [reflexivity|].
  change (String x ((a +:+ b) +:+ c) = String x (a +:+ (b +:+ c))).
  by rewrite IH.
Qed.

(** A string that lacks a piece of a needle lacks the needle. *)
Lemma includes_piece (s before piece after : string) :
  Js.includes s piece = false → Js.includes s (before +:+ piece +:+ after) = false.
Proof.
  intros Hs. destruct (Js.includes s (before +:+ piece +:+ after)) eqn:E; [|reflexivity].
  destruct (includes_split _ _ E) as (a & b & ->).
  rewrite <- Hs. symmetry.
  rewrite !app_assoc_string, <- (app_assoc_string a before).
  apply includes_intro.
Qed.

End StringFacts.

(** ** Regular expressions *)
Section RegexFacts.
Import Regex.

(** A literal consumes exactly itself. *)
Lemma run_lit (p s : string) (cap : option string) (k : Cont) (m : Match) :
  run (lit p) s cap k = Some m → ∃ rest, s = p +:+ rest ∧ k rest cap = Some m.
Proof.
  revert s. induction p as [|c p IH]; intros s Hrun; simpl in Hrun.
  - by exists s.
  - destruct s as [|b s]; [discriminate|].
    destruct (Ascii.eqb c b) eqn:E; [|discriminate].
    apply Ascii.eqb_eq in E as ->.
    destruct (IH _ Hrun) as (rest & -> & Hk). by exists rest.
Qed.

(** A pattern that starts with a literal is found only in a string that
    contains the literal. *)
Lemma search_lit_includes (p : string) (r : regex) (s : string) (m : Match) :
  search (Seq (lit p) r) s = Some m → Js.includes s p = true.
Proof.
  induction s as [|c s IH]; cbn [search].
  - destruct (match_here (Seq (lit p) r) EmptyString) eqn:E; [|discriminate].
    intros _. apply run_lit in E as (rest & Hs & _).
    apply includes_prefix. rewrite Hs. apply prefix_app.
  - destruct (match_here (Seq (lit p) r) (String c s)) eqn:E.
    + intros _. apply run_lit in E as (rest & Hs & _).
      apply includes_prefix. rewrite Hs. apply prefix_app.
    + intros Hs. cbn [Js.includes]. rewrite (IH Hs). apply orb_true_r.
Qed.

Lemma search_lit_absent (p : string) (r : regex) (s : string) :
  Js.includes s p = false → search (Seq (lit p) r) s = None.
Proof.
  intros Hs. destruct (search (Seq (lit p) r) s) eqn:E; [|reflexivity].
  apply search_lit_includes in E. congruence.
Qed.

Lemma matchAll_absent (p : string) (r : regex) (s : string) :
  Js.includes s p = false → matchAll (Seq (lit p) r) s = [].
Proof.
  intros Hs. unfold matchAll. simpl. by rewrite (search_lit_absent _ _ _ Hs).
Qed.

End RegexFacts.

(** ** The request-string parser *)
Section ParserFacts.
Import Curl.

Lemma search_url_absent (cleanCurl : string) :
  Js.includes cleanCurl "curl" = false → Regex.search url_pattern cleanCurl = None.
Proof. apply (search_lit_absent "curl"). Qed.

Lemma search_method_absent (cleanCurl : string) :
  Js.includes cleanCurl "-X" = false → Regex.search method_pattern cleanCurl = None.
Proof. apply (search_lit_absent "-X"). Qed.

Lemma matchAll_header_absent (cleanCurl : string) :
  Js.includes cleanCurl "-H" = false → Regex.matchAll header_pattern cleanCurl = [].
Proof. apply (matchAll_absent "-H"). Qed.

Lemma search_quoted_data_absent (flag cleanCurl : string) :
  Js.includes cleanCurl flag = false →
  Regex.search (quoted_data_pattern flag) cleanCurl = None.
Proof. apply (search_lit_absent flag). Qed.

Lemma search_bare_data_absent (cleanCurl : string) :
  Js.includes cleanCurl "--data-raw" = false →
  Regex.search bare_data_pattern cleanCurl = None.
Proof. apply (search_lit_absent "--data-raw"). Qed.

Lemma first_data_absent (cleanCurl : string) :
  Js.includes cleanCurl "-d" = false → first_data dataPatterns cleanCurl = None.
Proof.
  intros Hd.
  pose proof (includes_piece cleanCurl "-" "-d" "ata-raw" Hd) as Hraw.
  pose proof (includes_piece cleanCurl "-" "-d" "ata" Hd) as Hdata.
  change ("-" +:+ "-d" +:+ "ata-raw") with "--data-raw" in Hraw.
  change ("-" +:+ "-d" +:+ "ata") with "--data" in Hdata.
  unfold dataPatterns. cbn [first_data].
  rewrite (search_quoted_data_absent _ _ Hraw), (search_bare_data_absent _ Hraw).
  by rewrite (search_quoted_data_absent _ _ Hdata), (search_quoted_data_absent _ _ Hd).
Qed.

Lemma parseCurlCommand_normal (curlCommand : string) :
  parseCurlCommand curlCommand = parse_body curlCommand.
Proof. reflexivity. Qed.

End ParserFacts.

(** C3, as the code has it.  The parser returns a descriptor for every
    request string and never raises.  When the string, once its carets are
    stripped, lacks the keyword [curl] or has no URL token after it, the
    descriptor has the empty URL; its method, headers and body are still
    those read from the flags of the string, so it is the empty descriptor
    [{url: "", method: "GET", headers: {}, body: null}] when the string
    moreover contains none of [-X], [-H] and [-d]. *)
Theorem parseCurlCommand_total_and_degrades (curlCommand : string) :
  ∃ d, Curl.parseCurlCommand curlCommand = Normal d ∧
    (Js.includes (Curl.cleanCurl_of curlCommand) "curl" = false ∨
       Regex.search Curl.url_pattern (Curl.cleanCurl_of curlCommand) = None →
     url d = "" ∧
     (Js.includes (Curl.cleanCurl_of curlCommand) "-X" = false →
      Js.includes (Curl.cleanCurl_of curlCommand) "-H" = false →
      Js.includes (Curl.cleanCurl_of curlCommand) "-d" = false →
      d = emptyDescriptor)).
Proof.
  rewrite parseCurlCommand_normal. unfold Curl.parse_body.
  set (cleanCurl := Curl.cleanCurl_of curlCommand).
  eexists. split; [reflexivity|]. intros Hmissing.
  assert (Regex.search Curl.url_pattern cleanCurl = None) as Hnone.
  { destruct Hmissing as [Hk|Hu]; [by apply search_url_absent | exact Hu]. }
  cbn [url]. rewrite Hnone. split; [reflexivity|]. intros HX HH Hdata.
  pose proof (includes_piece _ "-" "-d" "ata-raw" Hdata) as Hraw.
  pose proof (includes_piece _ "-" "-d" "ata" Hdata) as Hdata'.
  pose proof (includes_piece _ "" "-d" " " Hdata) as Hd'.
  change ("-" +:+ "-d" +:+ "ata-raw") with "--data-raw" in Hraw.
  change ("-" +:+ "-d" +:+ "ata") with "--data" in Hdata'.
  change ("" +:+ "-d" +:+ " ") with "-d " in Hd'.
  rewrite Hraw, Hdata', Hd'.
  rewrite (search_method_absent _ HX), (matchAll_header_absent _ HH).
  rewrite (first_data_absent _ Hdata).
  reflexivity.
Qed.

(** The request string [wget http://x] has no keyword and none of the
    flags. *)
Lemma parseCurlCommand_total_and_degrades_witness :
  ∃ d, Curl.parseCurlCommand "wget http://x" = Normal d ∧ d = emptyDescriptor.
Proof.
  destruct (parseCurlCommand_total_and_degrades "wget http://x") as (d & Hd & Hrest).
  exists d. split; [exact Hd|].
  apply Hrest; [left|..]; reflexivity.
Defined.

(** C3, as the specification states it, fails: the request string [-X POST]
    has neither the keyword nor a URL, and the descriptor the parser returns
    for it has the method [POST]. *)
Lemma parseCurlCommand_not_empty_without_keyword :
  Js.includes "-X POST" "curl" = false ∧
  Regex.search Curl.url_pattern (Curl.cleanCurl_of "-X POST") = None ∧
  Curl.parseCurlCommand "-X POST"
    = Normal {| url := ""; method := "POST"; headers := ∅; body := None |} ∧
  Curl.parseCurlCommand "-X POST" ≠ Normal emptyDescriptor.
Proof.
  split; [reflexivity|]. split; [reflexivity|]. split; [reflexivity|].
  intros Heq. discriminate Heq.
Qed.

(** ** The context classifier *)
Section ClassifierFacts.
Context {P : Platform}.

Lemma some_field_intro (fields : list string) (needle k : string) :
  k ∈ fields → Js.includes (Js.toLowerCase k) needle = true →
  some_field fields needle = true.
Proof.
  intros Hk Hn. unfold some_field. apply existsb_exists.
  exists k. split; [by apply list_elem_of_In | exact Hn].
Qed.

(** The first refinement wins whatever the other signals are. *)
Lemma refine_domain_auth (fp : FieldPatterns) (acc : string * Z) :
  hasEmail fp = true → hasPassword fp = true →
  refine_domain fp acc = ("auth", snd acc + 2).
Proof. intros He Hp. unfold refine_domain. by rewrite He, Hp. Qed.

Lemma parsed_text_truthy (text : string) (v : JValue) :
  JSON_parse text = Some v → Js.truthy text = true.
Proof.
  destruct text; [|reflexivity]. rewrite JSON_parse_empty. discriminate.
Qed.

End ClassifierFacts.

(** C7.  Whenever the body of the request parses as a JSON object with a key
    containing [email] and a key containing [password], case ignored, the
    classifier answers the domain [auth] with the score of the URL plus 2,
    whatever the URL is and whatever other field signals are present: the
    rule is the first of the chain and the later rules are not reached. *)
Theorem analyzeApiContext_auth_override {P : Platform} (parsedCurl : RequestDescriptor)
    (text : string) (o : Obj) :
  body parsedCurl = Some text →
  JSON_parse text = Some (JObj o) →
  (∃ k, k ∈ Object.keys o ∧ Js.includes (Js.toLowerCase k) "email" = true) →
  (∃ k, k ∈ Object.keys o ∧ Js.includes (Js.toLowerCase k) "password" = true) →
  domain (analyzeApiContext parsedCurl) = "auth" ∧
  confidence (analyzeApiContext parsedCurl) = snd (score_url (url parsedCurl)) + 2.
Proof.
  intros Hbody Hparse (ke & Hke & He) (kp & Hkp & Hp).
  unfold analyzeApiContext, analyze_payload.
  rewrite Hbody, (parsed_text_truthy _ _ Hparse), Hparse.
  cbn [Object.keys_of Object.spread].
  rewrite refine_domain_auth.
  - split; reflexivity.
  - exact (some_field_intro _ _ _ Hke He).
  - exact (some_field_intro _ _ _ Hkp Hp).
Qed.

(** A registration payload sent to a product URL: the URL alone says
    [product] with score 1, the classifier says [auth] with score 3. *)
Lemma analyzeApiContext_auth_override_witness :
  score_url "https://shop.example.com/products" = ("product", 1) ∧
  domain (analyzeApiContext (P := Demo.platform)
            {| url := "https://shop.example.com/products"; method := "POST";
               headers := ∅; body := Some (Demo.stringify Demo.register_payload) |}) = "auth" ∧
  confidence (analyzeApiContext (P := Demo.platform)
            {| url := "https://shop.example.com/products"; method := "POST";
               headers := ∅; body := Some (Demo.stringify Demo.register_payload) |}) = 3.
Proof.
  split; [reflexivity|].
  apply (analyzeApiContext_auth_override (P := Demo.platform)
           {| url := "https://shop.example.com/products"; method := "POST";
              headers := ∅; body := Some (Demo.stringify Demo.register_payload) |}
           (Demo.stringify Demo.register_payload)
           [("email", JStr "a@b.com"); ("password", JStr "x")]).
  - reflexivity.
  - reflexivity.
  - exists "email". split; [apply list_elem_of_In; simpl; tauto | reflexivity].
  - exists "password". split; [apply list_elem_of_In; simpl; tauto | reflexivity].
Defined.

(** ** Rounding *)
Section RoundingFacts.

(** [Math.round(a / b)] for a positive [b] is the floor of
    [(2a + b) / 2b]. *)
Lemma round_div_floor (a b : Z) :
  0 < b →
  Num.round (Num.div a b) = Num.of_Z ((2 * a + b) / (2 * b)).
Proof.
  intros Hb. unfold Num.div, Num.round, Num.of_Z.
  destruct (b =? 0) eqn:E; [lia|]. f_equal. f_equal.
  destruct b as [|p|p]; try lia.
  transitivity (Qfloor ((2 * a + Z.pos p) # (2 * p))); [|reflexivity].
  apply Qfloor_comp. rewrite Qred_correct.
  unfold Qeq, Qdiv, Qmult, Qinv, Qplus, inject_Z. simpl. lia.
Qed.

(** The floor of [(2a + b) / 2b] is the integer nearest to [a / b], the
    larger one on a tie. *)
Lemma nearest_integer (a b : Z) :
  0 < b →
  2 * a - b < 2 * ((2 * a + b) / (2 * b)) * b ≤ 2 * a + b.
Proof.
  intros Hb.
  pose proof (Z.div_mod (2 * a + b) (2 * b) ltac:(lia)) as Hdm.
  pose proof (Z.mod_pos_bound (2 * a + b) (2 * b) ltac:(lia)) as Hmod.
  lia.
Qed.

Lemma min_of_Z (c n : Z) : Num.min c (Num.of_Z n) = Num.of_Z (Z.min c n).
Proof.
  unfold Num.min, Num.of_Z, Qle_bool, inject_Z. simpl. rewrite !Z.mul_1_r.
  destruct (n <=? c) eqn:E; f_equal; f_equal; lia.
Qed.

Lemma max_of_Z (c n : Z) : Num.max c (Num.of_Z n) = Num.of_Z (Z.max c n).
Proof.
  unfold Num.max, Num.of_Z, Qle_bool, inject_Z. simpl. rewrite !Z.mul_1_r.
  destruct (c <=? n) eqn:E; f_equal; f_equal; lia.
Qed.

End RoundingFacts.

(** ** The test executor *)
Section ExecutorFacts.
Context {P : Platform}.

Lemma executeTest_scenario (w : Exchange) (scenario : TestScenario) :
  Result.scenario (executeTest w scenario) = scenario.
Proof.
  unfold executeTest, attempt.
  destruct (URL_valid _); [|reflexivity].
  destruct (fetch _ _ _); reflexivity.
Qed.

Lemma run_all_length (world : nat → Exchange) (scs : list TestScenario) :
  length (run_all world scs) = length scs.
Proof. apply length_imap. Qed.

Lemma run_all_lookup (world : nat → Exchange) (scs : list TestScenario) (i : nat) :
  run_all world scs !! i = executeTest (world i) <$> scs !! i.
Proof. unfold run_all. by rewrite list_lookup_imap. Qed.

(** The results are those of the scenarios, in their order. *)
Lemma run_all_order (world : nat → Exchange) (scs : list TestScenario) :
  map Result.scenario (run_all world scs) = scs.
Proof.
  apply list_eq. intros i.
  rewrite list_lookup_fmap, run_all_lookup.
  destruct (scs !! i); [|reflexivity]. simpl. by rewrite executeTest_scenario.
Qed.

(** A transport failure, of either kind, gives the result of the [catch]. *)
Lemma executeTest_transport_failure (w : Exchange) (scenario : TestScenario) :
  URL_valid (Scenario.url scenario) = false ∨
    (∃ e, fetch w (Scenario.url scenario) (requestOptions_of scenario) = Rejected e) →
  ∃ message,
    Result.status (executeTest w scenario) = 0 ∧
    Result.success (executeTest w scenario) = false ∧
    Result.error (executeTest w scenario) = Some message ∧
    (URL_valid (Scenario.url scenario) = false →
     message = "URL invalide: " +:+ Scenario.url scenario).
Proof.
  unfold executeTest, attempt.
  intros [Hurl | (e & He)].
  - rewrite Hurl. eexists. do 3 (split; [reflexivity|]). reflexivity.
  - destruct (URL_valid _) eqn:Hurl.
    + rewrite He. eexists. do 3 (split; [reflexivity|]). discriminate.
    + eexists. do 3 (split; [reflexivity|]). reflexivity.
Qed.

(** [Promise.all] over promises that are all fulfilled. *)
Lemma Promise_all_fulfilled {A B : Type} (f : nat → A → B) (l : list A) :
  Promise_all (imap (fun i a => Normal (f i a)) l) = Normal (imap f l).
Proof.
  revert f. induction l as [|a l IH]; intros f; [reflexivity|].
  rewrite !imap_cons. cbn [Promise_all].
  change ((fun i a => Normal (f i a)) ∘ S) with (fun i a => Normal ((f ∘ S) i a)).
  by rewrite IH.
Qed.

Lemma Promise_all_rejected {A : Type} (promises : list (Completion A)) (e : string) :
  Throw e ∈ promises → ∃ e', Promise_all promises = Throw e'.
Proof.
  induction promises as [|promise rest IH]; intros Hin; [by apply elem_of_nil in Hin|].
  cbn [Promise_all]. destruct promise as [a|e0]; [|by eexists].
  apply elem_of_cons in Hin as [Heq|Hin]; [discriminate|].
  destruct (IH Hin) as (e' & ->). by eexists.
Qed.

(** An array is made of scenario objects, or has a [null] among its
    elements. *)
Lemma elements_cases (elements : list (option TestScenario)) :
  None ∈ elements ∨ ∃ scs : list TestScenario, elements = Some <$> scs.
Proof.
  induction elements as [|[scenario|] rest IH].
  - right. by exists [].
  - destruct IH as [Hin|(scs & ->)].
    + left. by apply elem_of_cons; right.
    + right. by exists (scenario :: scs).
  - left. by apply elem_of_cons; left.
Qed.

(** The answer to an array of scenario objects. *)
Lemma run_tests_POST_objects (world : nat → Exchange) (scs : list TestScenario) :
  run_tests_POST world (Payload (ScenarioArray (Some <$> scs)))
    = ReportResponse {| scenarios := Some <$> scs; results := run_all world scs;
                        summary := summarize (run_all world scs) |}.
Proof.
  cbn [run_tests_POST].
  assert (Promise_all (imap (fun i element => executeTest_element (world i) element)
                         (Some <$> scs)) = Normal (run_all world scs)) as ->; [|reflexivity].
  rewrite imap_fmap.
  exact (Promise_all_fulfilled (fun i scenario => executeTest (world i) scenario) scs).
Qed.

(** The answer to an array with a [null] among its elements. *)
Lemma run_tests_POST_null (world : nat → Exchange) (elements : list (option TestScenario)) :
  None ∈ elements →
  run_tests_POST world (Payload (ScenarioArray elements))
    = ErrorResponse 500 (Js.latin1 "Erreur lors de l'exécution des tests").
Proof.
  intros Hin. cbn [run_tests_POST].
  apply list_elem_of_lookup_1 in Hin as (i & Hi).
  destruct (Promise_all_rejected
              (imap (fun i element => executeTest_element (world i) element) elements)
              "TypeError: Cannot read properties of null (reading 'body')") as (e' & ->);
    [|reflexivity].
  apply (list_elem_of_lookup_2 _ i). by rewrite list_lookup_imap, Hi.
Qed.

Lemma passed_bounds (results : list TestResult) :
  0 ≤ passed (summarize results) ≤ total (summarize results).
Proof.
  unfold summarize. cbn [passed total].
  pose proof (length_filter (fun r => Is_true (Result.success r)) results).
  lia.
Qed.

End ExecutorFacts.

(** C4.  For a non-empty array of scenarios the entry point answers with a
    report in which [total] is the number of results and of scenarios,
    [passed + failed = total], [avgResponseTime] is the integer nearest to
    the mean of the response times of all the results (the larger one on a
    tie, as [Math.round] has it), and the result at each index is that of
    the scenario at the same index. *)
Theorem run_tests_report_summary {P : Platform} (world : nat → Exchange)
    (scs : list TestScenario) :
  scs ≠ [] →
  ∃ report avg,
    run_tests_POST world (Payload (ScenarioArray (Some <$> scs))) = ReportResponse report ∧
    scenarios report = Some <$> scs ∧
    total (summary report) = Z.of_nat (length (results report)) ∧
    length (results report) = length scs ∧
    passed (summary report) + failed (summary report) = total (summary report) ∧
    0 ≤ passed (summary report) ≤ total (summary report) ∧
    avgResponseTime (summary report) = Num.of_Z avg ∧
    2 * sum_responseTime (results report) - total (summary report)
      < 2 * avg * total (summary report)
      ≤ 2 * sum_responseTime (results report) + total (summary report) ∧
    map Result.scenario (results report) = scs.
Proof.
  intros Hne. rewrite run_tests_POST_objects.
  set (rs := run_all world scs).
  assert (0 < Z.of_nat (length rs)) as Hpos.
  { subst rs. rewrite run_all_length. destruct scs; [done | simpl; lia]. }
  eexists. exists ((2 * sum_responseTime rs + Z.of_nat (length rs)) / (2 * Z.of_nat (length rs))).
  split; [reflexivity|]. cbn [scenarios results summary].
  split; [reflexivity|]. split; [reflexivity|].
  split; [apply run_all_length|].
  split; [unfold summarize; cbn [passed failed total]; lia|].
  split; [apply passed_bounds|].
  split; [unfold summarize; cbn [avgResponseTime]; by apply round_div_floor|].
  split; [unfold summarize; cbn [total]; by apply nearest_integer|].
  apply run_all_order.
Qed.

(** Three scenarios, one of which passes; all three take 120 ms. *)
Lemma run_tests_report_summary_witness :
  ∃ report,
    run_tests_POST (P := Demo.platform) Demo.world
      (Payload (ScenarioArray
         (Some <$> [ Demo.scenario "https://api.example.com/register" 201;
                     Demo.scenario "nope" 201;
                     Demo.scenario "https://unreachable.example.com" 201 ])))
      = ReportResponse report ∧
    total (summary report) = 3 ∧ passed (summary report) = 1 ∧
    failed (summary report) = 2 ∧ avgResponseTime (summary report) = Num.of_Z 120.
Proof.
  destruct (run_tests_report_summary (P := Demo.platform) Demo.world
              [ Demo.scenario "https://api.example.com/register" 201;
                Demo.scenario "nope" 201;
                Demo.scenario "https://unreachable.example.com" 201 ])
    as (report & avg & Hrep & _); [discriminate|].
  exists report. split; [exact Hrep|].
  injection Hrep as <-. repeat split; reflexivity.
Defined.

(** C5, as the code has it.  In a batch of scenario objects the report is
    returned whatever happens to the scenario at index [i], and every
    scenario of the batch has its result at its own index.  When the URL of
    the scenario is malformed, or [fetch] rejects, the result has status 0,
    no success and an error message: the text [URL invalide: ...] for a
    malformed URL, the message of the rejection otherwise.  When the failure
    comes later, while the body of the answer is read, the result is that of
    an answered request: the received status, a success decided by that
    status alone, no error, and the message about the reading in the place
    of the answer's body. *)
Theorem transport_failure_is_contained {P : Platform} (world : nat → Exchange)
    (scs : list TestScenario) (i : nat) (scenario : TestScenario) :
  scs !! i = Some scenario →
  ∃ report result,
    run_tests_POST world (Payload (ScenarioArray (Some <$> scs))) = ReportResponse report ∧
    results report !! i = Some result ∧
    Result.scenario result = scenario ∧
    (URL_valid (Scenario.url scenario) = false →
       Result.status result = 0 ∧
       Result.success result = false ∧
       Result.error result = Some ("URL invalide: " +:+ Scenario.url scenario)) ∧
    (∀ e, URL_valid (Scenario.url scenario) = true →
       fetch (world i) (Scenario.url scenario) (requestOptions_of scenario) = Rejected e →
       Result.status result = 0 ∧
       Result.success result = false ∧
       Result.error result = Some (message_or_unknown e)) ∧
    (∀ response e, URL_valid (Scenario.url scenario) = true →
       fetch (world i) (Scenario.url scenario) (requestOptions_of scenario)
         = Resolved response →
       response_text response = inl e →
       Result.status result = response_status response ∧
       Result.success result = (response_status response =? effective_expected scenario) ∧
       Result.error result = None ∧
       Result.response result
         = Some (JStr (Js.latin1 "Erreur de lecture de la réponse: "
                         +:+ message_or_unknown e))) ∧
    (∀ j sibling, scs !! j = Some sibling →
       ∃ r, results report !! j = Some r ∧ Result.scenario r = sibling).
Proof.
  intros Hi.
  exists {| scenarios := Some <$> scs; results := run_all world scs;
            summary := summarize (run_all world scs) |},
         (executeTest (world i) scenario).
  split; [apply run_tests_POST_objects|]. cbn [results].
  split; [by rewrite run_all_lookup, Hi|].
  split; [apply executeTest_scenario|].
  split; [|split; [|split]].
  - intros Hurl. unfold executeTest, attempt. rewrite Hurl. by repeat split.
  - intros e Hurl He. unfold executeTest, attempt. rewrite Hurl, He. by repeat split.
  - intros response e Hurl Hresponse Htext. unfold executeTest, attempt.
    rewrite Hurl, Hresponse.
    cbn [Result.status Result.success Result.error Result.response].
    rewrite Htext. by repeat split.
  - intros j sibling Hj. exists (executeTest (world j) sibling).
    split; [by rewrite run_all_lookup, Hj | apply executeTest_scenario].
Qed.

(** A malformed URL between a scenario that passes and one whose server is
    unreachable. *)
Lemma transport_failure_is_contained_witness :
  ∃ report result,
    run_tests_POST (P := Demo.platform) Demo.world
      (Payload (ScenarioArray
         (Some <$> [ Demo.scenario "https://api.example.com/register" 201;
                     Demo.scenario "nope" 201;
                     Demo.scenario "https://unreachable.example.com" 201 ])))
      = ReportResponse report ∧
    results report !! 1%nat = Some result ∧
    Result.status result = 0 ∧
    Result.error result = Some "URL invalide: nope" ∧
    length (results report) = 3%nat.
Proof.
  destruct (transport_failure_is_contained (P := Demo.platform) Demo.world
              [ Demo.scenario "https://api.example.com/register" 201;
                Demo.scenario "nope" 201;
                Demo.scenario "https://unreachable.example.com" 201 ]
              1 (Demo.scenario "nope" 201) eq_refl)
    as (report & result & Hrep & Hres & _ & Hurl & _).
  destruct (Hurl eq_refl) as (Hstatus & _ & Herr).
  exists report, result. split; [exact Hrep|]. split; [exact Hres|].
  split; [exact Hstatus|]. split; [exact Herr|].
  rewrite run_tests_POST_objects in Hrep. injection Hrep as <-. reflexivity.
Defined.

(** C5, as the specification states it, fails: the connection may break
    while the body of the answer is read.  The server has answered 201, the
    reading of the body fails with the message [terminated], and the result
    is a success with the status 201 and no error. *)
Lemma read_failure_is_reported_as_success :
  let broken :=
    {| startTime := 1000; endTime := 1120;
       fetch := fun _ _ =>
         Resolved {| response_status := 201;
                     response_text := inl (ErrorObject "terminated") |} |} in
  let result :=
    executeTest (P := Demo.platform) broken
      (Demo.scenario "https://api.example.com/register" 201) in
  Result.status result = 201 ∧
  Result.success result = true ∧
  Result.error result = None ∧
  Result.response result
    = Some (JStr (Js.latin1 "Erreur de lecture de la réponse: terminated")).
Proof. vm_compute. by repeat split. Qed.

(** C6, as the code has it.  The entry point answers with an error when the
    request body cannot be read (status 500), when its field [scenarios] is
    missing or is not an array (status 400), and when an element of the
    array is [null] (status 500), and in no other case: an array of scenario
    objects is answered with a report that has one result per scenario.  The
    empty array is one of them: its report has no result and the total 0. *)
Theorem run_tests_validation {P : Platform} (world : nat → Exchange) :
  run_tests_POST world Unreadable
    = ErrorResponse 500 (Js.latin1 "Erreur lors de l'exécution des tests") ∧
  run_tests_POST world (Payload Falsy) = ErrorResponse 400 (Js.latin1 "Scénarios requis") ∧
  run_tests_POST world (Payload NotAnArray) = ErrorResponse 400 (Js.latin1 "Scénarios requis") ∧
  (∀ elements, None ∈ elements →
     run_tests_POST world (Payload (ScenarioArray elements))
       = ErrorResponse 500 (Js.latin1 "Erreur lors de l'exécution des tests")) ∧
  (∀ scs, ∃ report,
     run_tests_POST world (Payload (ScenarioArray (Some <$> scs))) = ReportResponse report ∧
     scenarios report = Some <$> scs ∧
     length (results report) = length scs ∧
     total (summary report) = Z.of_nat (length scs)) ∧
  (∀ request,
     (∃ http_status error, run_tests_POST world request = ErrorResponse http_status error) ↔
     request = Unreadable ∨ request = Payload Falsy ∨ request = Payload NotAnArray ∨
     ∃ elements, request = Payload (ScenarioArray elements) ∧ None ∈ elements) ∧
  run_tests_POST world (Payload (ScenarioArray []))
    = ReportResponse
        {| scenarios := []; results := [];
           summary := {| total := 0; passed := 0; failed := 0;
                         avgResponseTime := Num.NaN |} |}.
Proof.
  repeat (split; [reflexivity|]).
  split; [apply run_tests_POST_null|].
  split; [|split; [|reflexivity]].
  - intros scs. eexists. split; [apply run_tests_POST_objects|].
    cbn [scenarios results summary].
    split; [reflexivity|]. split; [apply run_all_length|].
    unfold summarize. cbn [total]. by rewrite run_all_length.
  - intros request. split.
    + intros (http_status & error & Heq).
      destruct request as [|[| |elements]]; [by left | by right; left | by right; right; left|].
      right; right; right. exists elements. split; [reflexivity|].
      destruct (elements_cases elements) as [Hin|(scs & ->)]; [exact Hin|].
      rewrite run_tests_POST_objects in Heq. discriminate Heq.
    + intros [->|[->|[->|(elements & -> & Hin)]]]; try (by do 2 eexists).
      do 2 eexists. by apply run_tests_POST_null.
Qed.

(** A scenario followed by [null]: no report, though the array is not
    empty. *)
Lemma run_tests_validation_witness :
  run_tests_POST (P := Demo.platform) Demo.world
    (Payload (ScenarioArray [Some (Demo.scenario "https://api.example.com/register" 201); None]))
  = ErrorResponse 500 (Js.latin1 "Erreur lors de l'exécution des tests").
Proof.
  apply (proj1 (proj2 (proj2 (proj2 (run_tests_validation (P := Demo.platform) Demo.world))))).
  apply elem_of_cons. right. apply elem_of_cons. by left.
Defined.

(** C6, as the specification states it, fails: the empty array of scenarios
    is answered with a report, not with an error. *)
Lemma run_tests_accepts_empty_array :
  (∃ report,
     run_tests_POST (P := Demo.platform) Demo.world (Payload (ScenarioArray []))
       = ReportResponse report) ∧
  ¬ (∃ http_status error,
       run_tests_POST (P := Demo.platform) Demo.world (Payload (ScenarioArray []))
         = ErrorResponse http_status error).
Proof.
  split.
  - eexists. reflexivity.
  - intros (http_status & error & Heq). discriminate Heq.
Qed.

(** ** The analysis built without the model *)
Section AnalysisFacts.


Lemma unauthorized_flagged (results : list TestResult) :
  existsb (fun r => Result.status r =? 401) results = true ↔
  ∃ r, r ∈ results ∧ Result.status r = 401.
Proof.
  rewrite existsb_exists. split; intros (r & Hr & Hs); exists r.
  - split; [by apply list_elem_of_In | lia].
  - split; [by apply list_elem_of_In | lia].
Qed.

(** The score for a summary with a positive total: the rate over 10 is
    [10 * passed / total]. *)
Lemma reliability_score_value (s : Summary) :
  0 < total s →
  reliability_score_of s
    = Num.of_Z (Z.max 1 (Z.min 10 ((2 * (10 * passed s) + total s) / (2 * total s)))).
Proof.
  intros Ht. unfold reliability_score_of.
  rewrite <- max_of_Z, <- min_of_Z. f_equal. f_equal.
  rewrite <- (round_div_floor (10 * passed s) (total s) Ht).
  unfold successRate_of, Num.div, Num.scale, Num.round.
  destruct (total s =? 0) eqn:E; [lia|]. f_equal. f_equal.
  apply Qfloor_comp. rewrite !Qred_correct.
  destruct (total s) as [|p|p]; try lia.
  unfold Qeq, Qdiv, Qmult, Qinv, Qplus, inject_Z. simpl. lia.
Qed.




End AnalysisFacts.




(** ** Objects *)
Section ObjectFacts.

Lemma hasOwn_true (k : string) (o : Obj) :
  Object.hasOwn k o = true ↔ k ∈ Object.keys o.
Proof.
  unfold Object.hasOwn. rewrite bool_decide_eq_true.
  induction o as [|[k' v] o IH]; simpl.
  - split; [intros [? ?]; discriminate | intros H; inversion H].
  - destruct (String.eqb k' k) eqn:E.
    + apply String.eqb_eq in E as ->. split; [intros _; left | by eauto].
    + apply String.eqb_neq in E. rewrite IH. split; [by right|].
      intros H. inversion H; subst; [congruence | assumption].
Qed.

Lemma hasOwn_get (k : string) (o : Obj) :
  Object.hasOwn k o = bool_decide (is_Some (Object.get k o)).
Proof. reflexivity. Qed.

Lemma hasOwn_false_get (k : string) (o : Obj) :
  Object.hasOwn k o = false → Object.get k o = None.
Proof.
  unfold Object.hasOwn. rewrite bool_decide_eq_false.
  destruct (Object.get k o); [intros H; exfalso; apply H; eauto | reflexivity].
Qed.

Lemma get_Some_hasOwn (k : string) (o : Obj) (v : JValue) :
  Object.get k o = Some v → Object.hasOwn k o = true.
Proof. intros Hg. unfold Object.hasOwn. rewrite Hg. by apply bool_decide_eq_true. Qed.

Lemma get_set_eq (k : string) (v : JValue) (o : Obj) :
  Object.get k (Object.set k v o) = Some v.
Proof.
  induction o as [|[k' v'] o IH]; simpl.
  - by rewrite String.eqb_refl.
  - destruct (String.eqb k' k) eqn:E; simpl; rewrite E; [reflexivity | exact IH].
Qed.

Lemma get_set_ne (k k' : string) (v : JValue) (o : Obj) :
  k ≠ k' → Object.get k (Object.set k' v o) = Object.get k o.
Proof.
  intros Hne. induction o as [|[k0 v0] o IH]; simpl.
  - destruct (String.eqb k' k) eqn:E; [|reflexivity].
    apply String.eqb_eq in E. congruence.
  - destruct (String.eqb k0 k') eqn:E; simpl.
    + apply String.eqb_eq in E as ->.
      destruct (String.eqb k' k) eqn:E'; [|reflexivity].
      apply String.eqb_eq in E'. congruence.
    + by rewrite IH.
Qed.

(** An assignment to an own property neither adds nor moves a key. *)
Lemma keys_set_own (k : string) (v : JValue) (o : Obj) :
  k ∈ Object.keys o → Object.keys (Object.set k v o) = Object.keys o.
Proof.
  induction o as [|[k' v'] o IH]; simpl; intros Hk.
  - inversion Hk.
  - destruct (String.eqb k' k) eqn:E; [reflexivity|]. simpl. f_equal.
    apply IH. apply String.eqb_neq in E. inversion Hk; subst; [congruence | assumption].
Qed.

Lemma hasOwn_set_own (k k' : string) (v : JValue) (o : Obj) :
  k' ∈ Object.keys o → Object.hasOwn k (Object.set k' v o) = Object.hasOwn k o.
Proof.
  intros Hk'. destruct (Object.hasOwn k o) eqn:E.
  - apply hasOwn_true. rewrite keys_set_own by assumption. by apply hasOwn_true.
  - destruct (Object.hasOwn k (Object.set k' v o)) eqn:E'; [|reflexivity].
    apply hasOwn_true in E'. rewrite keys_set_own in E' by assumption.
    apply hasOwn_true in E'. congruence.
Qed.

End ObjectFacts.

(** ** The synthetic data generator *)
Section GeneratorFacts.
Variable rnd : RandomSource.
Variable domain : string.
Variable timestamp : Z.
Variable staticAttributes : list StaticAttribute.

Lemma apply_static_after_throw (attrs : list StaticAttribute) (e : string) :
  fold_left apply_static_attribute attrs (Throw e) = Throw e.
Proof. induction attrs as [|a attrs IH]; [reflexivity | exact IH]. Qed.

(** With a property named [hasOwnProperty] in the payload, the first static
    attribute already fails. *)
Lemma apply_static_throws (attrs : list StaticAttribute) (testData : Obj) :
  attrs ≠ [] → Object.hasOwn "hasOwnProperty" testData = true →
  apply_static attrs testData = Throw shadowed.
Proof.
  intros Hne Hown. destruct attrs as [|a attrs]; [done|].
  unfold apply_static. cbn [fold_left]. unfold apply_static_attribute at 2.
  cbn [bind]. rewrite Hown. apply apply_static_after_throw.
Qed.

(** Without it, every attribute is applied: the keys stay, and each own key
    ends with its pinned value if it has one, with its own value if not. *)
Lemma apply_static_normal (attrs : list StaticAttribute) (testData : Obj) :
  Object.hasOwn "hasOwnProperty" testData = false →
  ∃ testData',
    apply_static attrs testData = Normal testData' ∧
    Object.keys testData' = Object.keys testData ∧
    ∀ k, Object.get k testData' =
         match static_value attrs k with
         | Some v => if Object.hasOwn k testData then Some (JStr v) else None
         | None => Object.get k testData
         end.
Proof.
  revert testData. induction attrs as [|a attrs IH]; intros testData Hown.
  - exists testData. repeat split.
  - unfold apply_static. cbn [fold_left]. unfold apply_static_attribute at 2.
    cbn [bind]. rewrite Hown.
    destruct (Object.hasOwn (name a) testData) eqn:Ha.
    + pose proof (proj1 (hasOwn_true _ _) Ha) as Hin.
      destruct (IH (Object.set (name a) (JStr (value a)) testData)) as (t' & Ht' & Hkeys & Hget).
      { by rewrite hasOwn_set_own. }
      exists t'. split; [exact Ht'|]. split; [by rewrite Hkeys, keys_set_own|].
      intros k. rewrite Hget. cbn [static_value]. rewrite hasOwn_set_own by assumption.
      destruct (static_value attrs k); [reflexivity|].
      destruct (String.eqb (name a) k) eqn:E.
      * apply String.eqb_eq in E as <-. by rewrite get_set_eq, Ha.
      * apply String.eqb_neq in E. by rewrite get_set_ne.
    + destruct (IH testData Hown) as (t' & Ht' & Hkeys & Hget).
      exists t'. split; [exact Ht'|]. split; [exact Hkeys|].
      intros k. rewrite Hget. cbn [static_value].
      destruct (static_value attrs k); [reflexivity|].
      destruct (String.eqb (name a) k) eqn:E; [|reflexivity].
      apply String.eqb_eq in E as <-. rewrite Ha. by apply hasOwn_false_get.
Qed.

Lemma apply_static_nil (testData : Obj) : apply_static [] testData = Normal testData.
Proof. reflexivity. Qed.

Lemma isStatic_static_value (attrs : list StaticAttribute) (k : string) :
  isStatic attrs k = bool_decide (is_Some (static_value attrs k)).
Proof.
  induction attrs as [|a attrs IH]; [reflexivity|].
  cbn [isStatic existsb static_value]. fold (isStatic attrs k). rewrite IH.
  destruct (static_value attrs k); simpl.
  - apply orb_true_r.
  - rewrite orb_false_r. by destruct (String.eqb (name a) k).
Qed.

(** *** The second loop *)

Lemma process_key_keys (testData : Obj) (key : string) (next : nat) :
  key ∈ Object.keys testData →
  Object.keys (fst (process_key rnd domain timestamp staticAttributes testData key next))
    = Object.keys testData.
Proof.
  intros Hin. unfold process_key. destruct (isStatic staticAttributes key); [reflexivity|].
  unfold rbind, ret.
  destruct (synthesize rnd domain timestamp key (Object.get key testData) next) as [[v|] n'];
    [by apply keys_set_own | reflexivity].
Qed.

Lemma process_keys_keys (keys : list string) (testData : Obj) (next : nat) :
  (∀ k, k ∈ keys → k ∈ Object.keys testData) →
  Object.keys (fst (process_keys rnd domain timestamp staticAttributes keys testData next))
    = Object.keys testData.
Proof.
  revert testData next. induction keys as [|key keys IH]; intros testData next Hsub.
  - reflexivity.
  - cbn [process_keys]. unfold rbind.
    pose proof (process_key_keys testData key next (Hsub key ltac:(left))) as Hk.
    destruct (process_key rnd domain timestamp staticAttributes testData key next)
      as [testData' next'] eqn:E.
    simpl in Hk. rewrite IH; [exact Hk|].
    intros k Hin. rewrite Hk. apply Hsub. by right.
Qed.

Lemma process_key_get_same (testData : Obj) (key : string) (next : nat) :
  Object.get key (fst (process_key rnd domain timestamp staticAttributes testData key next))
    = if isStatic staticAttributes key then Object.get key testData
      else regenerated rnd domain timestamp key (Object.get key testData) next.
Proof.
  unfold process_key, regenerated. destruct (isStatic staticAttributes key); [reflexivity|].
  unfold rbind, ret.
  destruct (synthesize rnd domain timestamp key (Object.get key testData) next) as [[v|] n'];
    [apply get_set_eq | reflexivity].
Qed.

Lemma process_key_get_other (testData : Obj) (key k : string) (next : nat) :
  k ≠ key →
  Object.get k (fst (process_key rnd domain timestamp staticAttributes testData key next))
    = Object.get k testData.
Proof.
  intros Hne. unfold process_key. destruct (isStatic staticAttributes key); [reflexivity|].
  unfold rbind, ret.
  destruct (synthesize rnd domain timestamp key (Object.get key testData) next) as [[v|] n'];
    [by apply get_set_ne | reflexivity].
Qed.

Lemma process_keys_get_notin (keys : list string) (testData : Obj) (k : string) (next : nat) :
  k ∉ keys →
  Object.get k (fst (process_keys rnd domain timestamp staticAttributes keys testData next))
    = Object.get k testData.
Proof.
  revert testData next. induction keys as [|key keys IH]; intros testData next Hnotin.
  - reflexivity.
  - cbn [process_keys]. unfold rbind.
    pose proof (process_key_get_other testData key k next) as Hk.
    destruct (process_key rnd domain timestamp staticAttributes testData key next)
      as [testData' next'] eqn:E.
    simpl in Hk. rewrite IH.
    + apply Hk. intros ->. apply Hnotin. by left.
    + intros Hin. apply Hnotin. by right.
Qed.

(** Each key of the loop is rewritten once, from the value it had before the
    loop. *)
Lemma process_keys_get_in (keys : list string) (testData : Obj) (k : string) (next : nat) :
  NoDup keys → k ∈ keys →
  ∃ m,
    Object.get k (fst (process_keys rnd domain timestamp staticAttributes keys testData next))
      = if isStatic staticAttributes k then Object.get k testData
        else regenerated rnd domain timestamp k (Object.get k testData) m.
Proof.
  revert testData next. induction keys as [|key keys IH]; intros testData next Hnd Hin.
  - inversion Hin.
  - apply NoDup_cons in Hnd as [Hfresh Hnd].
    cbn [process_keys]. unfold rbind.
    pose proof (process_key_get_same testData key next) as Hsame.
    pose proof (process_key_get_other testData key k next) as Hother.
    destruct (process_key rnd domain timestamp staticAttributes testData key next)
      as [testData' next'] eqn:E.
    simpl in Hsame, Hother.
    destruct (decide (k = key)) as [->|Hne].
    + exists next. rewrite process_keys_get_notin by assumption. exact Hsame.
    + assert (k ∈ keys) as Hin' by (inversion Hin; subst; [congruence | assumption]).
      destruct (IH testData' next' Hnd Hin') as [m Hm].
      exists m. rewrite Hm, (Hother Hne). reflexivity.
Qed.

(** *** The whole generator *)

Lemma generateValidTestData_throws (originalData : JValue) (next : nat) :
  staticAttributes ≠ [] →
  Object.hasOwn "hasOwnProperty" (Object.spread originalData) = true →
  generateValidTestData rnd originalData domain timestamp staticAttributes next
    = Throw shadowed.
Proof.
  intros Hne Hown. unfold generateValidTestData.
  by rewrite (apply_static_throws _ _ Hne Hown).
Qed.

(** When the generator returns, the keys of its result are those of the
    payload, in the same order. *)
Lemma generateValidTestData_keys (originalData : JValue) (next next' : nat) (out : Obj) :
  generateValidTestData rnd originalData domain timestamp staticAttributes next
    = Normal (out, next') →
  Object.keys out = Object.keys (Object.spread originalData).
Proof.
  unfold generateValidTestData.
  destruct (Object.hasOwn "hasOwnProperty" (Object.spread originalData)) eqn:Hown.
  - destruct (decide (staticAttributes = [])) as [Hnil|Hne].
    + assert (apply_static staticAttributes (Object.spread originalData)
              = Normal (Object.spread originalData)) as -> by (by rewrite Hnil).
      cbn [bind]. intros Heq. injection Heq as Heq.
      apply (f_equal fst) in Heq. cbn [fst] in Heq. rewrite <- Heq.
      by apply process_keys_keys.
    + rewrite apply_static_throws by done. discriminate.
  - destruct (apply_static_normal staticAttributes _ Hown) as (t' & -> & Hkeys & _).
    cbn [bind]. intros Heq. injection Heq as Heq.
    apply (f_equal fst) in Heq. cbn [fst] in Heq. rewrite <- Heq.
    rewrite process_keys_keys; [exact Hkeys | done].
Qed.

(** It returns unless the payload shadows [hasOwnProperty] and there is a
    static attribute; its result holds, under each key, the pinned value or
    the regenerated one. *)
Lemma generateValidTestData_returns (originalData : JValue) (next : nat) :
  Object.hasOwn "hasOwnProperty" (Object.spread originalData) = false ∨ staticAttributes = [] →
  NoDup (Object.keys (Object.spread originalData)) →
  ∃ out next',
    generateValidTestData rnd originalData domain timestamp staticAttributes next
      = Normal (out, next') ∧
    Object.keys out = Object.keys (Object.spread originalData) ∧
    ∀ k orig, Object.get k (Object.spread originalData) = Some orig →
      match static_value staticAttributes k with
      | Some v => Object.get k out = Some (JStr v)
      | None => ∃ m, Object.get k out = regenerated rnd domain timestamp k (Some orig) m
      end.
Proof.
  intros Hok Hnd. unfold generateValidTestData.
  assert (∃ t', apply_static staticAttributes (Object.spread originalData) = Normal t' ∧
            Object.keys t' = Object.keys (Object.spread originalData) ∧
            ∀ k, Object.get k t' =
              match static_value staticAttributes k with
              | Some v => if Object.hasOwn k (Object.spread originalData)
                          then Some (JStr v) else None
              | None => Object.get k (Object.spread originalData)
              end) as (t' & Ht' & Hkeys & Hget).
  { destruct Hok as [Hown | Hnil]; [by apply apply_static_normal|].
    exists (Object.spread originalData). rewrite Hnil. repeat split. }
  rewrite Ht'. cbn [bind].
  destruct (process_keys rnd domain timestamp staticAttributes (Object.keys t') t' next)
    as [out next'] eqn:E.
  exists out, next'. split; [reflexivity|].
  assert (out = fst (process_keys rnd domain timestamp staticAttributes
                       (Object.keys t') t' next)) as Hout by (by rewrite E).
  split.
  - rewrite Hout, process_keys_keys; [exact Hkeys | done].
  - intros k orig Horig.
    assert (k ∈ Object.keys t') as Hin.
    { rewrite Hkeys. apply hasOwn_true. by eapply get_Some_hasOwn. }
    destruct (process_keys_get_in (Object.keys t') t' k next) as [m Hm];
      [by rewrite Hkeys | exact Hin |].
    rewrite <- Hout in Hm. rewrite isStatic_static_value, Hget in Hm.
    destruct (static_value staticAttributes k) as [v|].
    + rewrite (get_Some_hasOwn _ _ _ Horig) in Hm. exact Hm.
    + exists m. rewrite Hm, Horig. reflexivity.
Qed.

End GeneratorFacts.

(** C1, where the code departs from it.  A payload with a property named
    [hasOwnProperty] shadows the method the generator calls on its copy of
    the payload: with at least one static attribute the call
    [testData.hasOwnProperty(attr.name)] throws a [TypeError] and no object
    is returned.  (On every other input the key set is kept, which is
    [generateValidTestData_keys] with [generateValidTestData_returns].) *)
Theorem generateValidTestData_throws_on_shadowed_method (rnd : RandomSource)
    (originalData : JValue) (domain : string) (timestamp : Z)
    (staticAttributes : list StaticAttribute) (next : nat) :
  staticAttributes ≠ [] →
  "hasOwnProperty" ∈ Object.keys (Object.spread originalData) →
  generateValidTestData rnd originalData domain timestamp staticAttributes next
    = Throw "TypeError: testData.hasOwnProperty is not a function".
Proof.
  intros Hne Hin. apply generateValidTestData_throws; [exact Hne|].
  by apply hasOwn_true.
Qed.

(** The payload [{"hasOwnProperty": 1}] with the static attribute
    [tenant = acme]. *)
Lemma generateValidTestData_throws_on_shadowed_method_witness :
  generateValidTestData Demo.zeros (JObj [("hasOwnProperty", JNum 1)]) "generic"
    1755943608718 [{| name := "tenant"; value := "acme" |}] 0
    = Throw "TypeError: testData.hasOwnProperty is not a function".
Proof.
  apply (generateValidTestData_throws_on_shadowed_method Demo.zeros
           (JObj [("hasOwnProperty", JNum 1)]) "generic" 1755943608718
           [{| name := "tenant"; value := "acme" |}] 0).
  - discriminate.
  - apply list_elem_of_In. simpl. tauto.
Defined.

(** ** Determinism *)
Section DeterminismFacts.

Ltac split_rules :=
  repeat match goal with
         | |- context [if ?b then _ else _] => destruct b eqn:?
         end.

(** A key that reaches no branch with [Math.random] gets a value that
    depends neither on the source nor on the position in it. *)
Lemma synthesize_no_draw (rnd1 rnd2 : RandomSource) (domain : string) (timestamp : Z)
    (key : string) (current : option JValue) (next1 next2 : nat) :
  random_use domain key = NoDraw →
  fst (synthesize rnd1 domain timestamp key current next1)
    = fst (synthesize rnd2 domain timestamp key current next2).
Proof.
  unfold random_use, synthesize. cbv zeta.
  destruct current as [[]|]; split_rules; intros Huse;
    first [discriminate Huse | reflexivity].
Qed.

Lemma synthesize_phone (rnd : RandomSource) (domain : string) (timestamp : Z)
    (key : string) (current : option JValue) (next : nat) :
  random_use domain key = PhoneDraw →
  fst (synthesize rnd domain timestamp key current next)
    = Some (JStr (phone_number (leading_digit (unit_interval (rnd next))) timestamp)).
Proof.
  unfold random_use, synthesize. cbv zeta.
  destruct current as [[]|]; split_rules; intros Huse;
    first [discriminate Huse | reflexivity].
Qed.

Lemma leading_digit_range (k : N) : 1 ≤ leading_digit (unit_interval k) ≤ 9.
Proof.
  unfold leading_digit, unit_interval.
  set (m := Z.of_N (k mod 2 ^ 53)).
  assert (0 ≤ m < 9007199254740992) as Hm.
  { subst m. split; [apply N2Z.is_nonneg|].
    change 9007199254740992 with (Z.of_N (2 ^ 53)%N).
    apply N2Z.inj_lt. by apply N.mod_upper_bound. }
  change (Qfloor ((m # 2 ^ 53) * 9)) with ((m * 9) / 9007199254740992).
  assert (0 ≤ m * 9 / 9007199254740992 < 9); [|lia].
  split.
  - apply Z.div_pos; lia.
  - apply Z.div_lt_upper_bound; lia.
Qed.

Lemma regenerated_no_draw (rnd1 rnd2 : RandomSource) (domain : string) (timestamp : Z)
    (key : string) (current : option JValue) (next1 next2 : nat) :
  random_use domain key = NoDraw →
  regenerated rnd1 domain timestamp key current next1
    = regenerated rnd2 domain timestamp key current next2.
Proof.
  intros Huse. unfold regenerated.
  by rewrite (synthesize_no_draw rnd1 rnd2 _ _ _ _ next1 next2 Huse).
Qed.

Lemma get_not_own (k : string) (o o' : Obj) :
  Object.keys o' = Object.keys o → Object.get k o = None → Object.get k o' = None.
Proof.
  intros Hkeys Hnone. apply hasOwn_false_get.
  destruct (Object.hasOwn k o') eqn:E; [|reflexivity].
  apply hasOwn_true in E. rewrite Hkeys in E. apply hasOwn_true in E.
  unfold Object.hasOwn in E. rewrite Hnone in E. by apply bool_decide_eq_true in E as [? ?].
Qed.

End DeterminismFacts.

(** C2, as the code has it.  Two calls with the same payload, domain, nonce
    and static attributes, whatever the random numbers they draw, either both
    throw the same error or both return objects with the same keys that hold
    the same value under every key that is pinned or that reaches no branch
    calling [Math.random].  Two branches call it: the phone branch, whose
    values differ from call to call in the leading digit only, and the
    price/amount branch, whose value is a fresh random number. *)
Theorem generateValidTestData_deterministic_apart_from_draws
    (rnd1 rnd2 : RandomSource) (originalData : JValue) (domain : string) (timestamp : Z)
    (staticAttributes : list StaticAttribute) (next1 next2 : nat) :
  NoDup (Object.keys (Object.spread originalData)) →
  (generateValidTestData rnd1 originalData domain timestamp staticAttributes next1
     = Throw shadowed ∧
   generateValidTestData rnd2 originalData domain timestamp staticAttributes next2
     = Throw shadowed) ∨
  ∃ out1 out2 next1' next2',
    generateValidTestData rnd1 originalData domain timestamp staticAttributes next1
      = Normal (out1, next1') ∧
    generateValidTestData rnd2 originalData domain timestamp staticAttributes next2
      = Normal (out2, next2') ∧
    Object.keys out1 = Object.keys out2 ∧
    (∀ k, isStatic staticAttributes k = true ∨ random_use domain k = NoDraw →
          Object.get k out1 = Object.get k out2) ∧
    (∀ k, k ∈ Object.keys (Object.spread originalData) →
          isStatic staticAttributes k = false → random_use domain k = PhoneDraw →
          ∃ digit1 digit2,
            1 ≤ digit1 ≤ 9 ∧ 1 ≤ digit2 ≤ 9 ∧
            Object.get k out1 = Some (JStr (phone_number digit1 timestamp)) ∧
            Object.get k out2 = Some (JStr (phone_number digit2 timestamp))).
Proof.
  intros Hnd.
  destruct (Object.hasOwn "hasOwnProperty" (Object.spread originalData)) eqn:Hown;
    [destruct (decide (staticAttributes = [])) as [Hnil|Hne]|].
  2: { left. split; by apply generateValidTestData_throws. }
  all: right.
  all: destruct (generateValidTestData_returns rnd1 domain timestamp staticAttributes
                   originalData next1) as (out1 & n1 & H1 & Hk1 & Hv1); [by auto | exact Hnd |].
  all: destruct (generateValidTestData_returns rnd2 domain timestamp staticAttributes
                   originalData next2) as (out2 & n2 & H2 & Hk2 & Hv2); [by auto | exact Hnd |].
  all: exists out1, out2, n1, n2.
  all: split; [exact H1|]; split; [exact H2|]; split; [by rewrite Hk1, Hk2|].
  all: split.
  all: try (intros k Hrule;
    destruct (Object.get k (Object.spread originalData)) as [orig|] eqn:Horig;
      [ specialize (Hv1 k orig Horig); specialize (Hv2 k orig Horig);
        rewrite isStatic_static_value in Hrule;
        destruct (static_value staticAttributes k) as [v|];
          [ by rewrite Hv1, Hv2
          | destruct Hrule as [Hs|Huse]; [by apply bool_decide_eq_true in Hs as [? ?]|];
            destruct Hv1 as [m1 ->]; destruct Hv2 as [m2 ->];
            by apply regenerated_no_draw ]
      | by rewrite (get_not_own k _ out1 Hk1 Horig), (get_not_own k _ out2 Hk2 Horig) ]).
  all: intros k Hin Hstatic Huse.
  all: apply hasOwn_true in Hin; unfold Object.hasOwn in Hin;
       apply bool_decide_eq_true in Hin as [orig Horig].
  all: specialize (Hv1 k orig Horig); specialize (Hv2 k orig Horig).
  all: rewrite isStatic_static_value in Hstatic.
  all: destruct (static_value staticAttributes k) as [v|];
       [by apply bool_decide_eq_false in Hstatic; exfalso; apply Hstatic; eauto|].
  all: destruct Hv1 as [m1 Hm1]; destruct Hv2 as [m2 Hm2].
  all: unfold regenerated in Hm1, Hm2.
  all: rewrite synthesize_phone in Hm1 by exact Huse.
  all: rewrite synthesize_phone in Hm2 by exact Huse.
  all: exists (leading_digit (unit_interval (rnd1 m1))), (leading_digit (unit_interval (rnd2 m2))).
  all: split; [apply leading_digit_range|]; split; [apply leading_digit_range|]; by split.
Qed.

(** A contact payload under two sources of random numbers: the e-mail address
    is the same, the phone numbers differ in their second character. *)
Lemma generateValidTestData_deterministic_apart_from_draws_witness :
  ∃ out1 out2,
    generateValidTestData Demo.zeros
      (JObj [("email", JStr "a@b.com"); ("phone", JStr "0611223344")])
      "user" 1755943608718 [] 0 = Normal (out1, 1%nat) ∧
    generateValidTestData Demo.halves
      (JObj [("email", JStr "a@b.com"); ("phone", JStr "0611223344")])
      "user" 1755943608718 [] 0 = Normal (out2, 1%nat) ∧
    Object.get "email" out1 = Object.get "email" out2 ∧
    Object.get "phone" out1 = Some (JStr "0143608718") ∧
    Object.get "phone" out2 = Some (JStr "0543608718").
Proof.
  destruct (generateValidTestData_deterministic_apart_from_draws Demo.zeros Demo.halves
              (JObj [("email", JStr "a@b.com"); ("phone", JStr "0611223344")])
              "user" 1755943608718 [] 0 0)
    as [[Hthrow _] | (out1 & out2 & n1 & n2 & H1 & H2 & _ & Hsame & _)].
  - apply (bool_decide_unpack _). vm_compute. exact I.
  - discriminate Hthrow.
  - exists out1, out2.
    assert (Object.get "email" out1 = Object.get "email" out2) as Hemail
      by (apply Hsame; right; reflexivity).
    vm_compute in H1, H2. injection H1 as <- <-. injection H2 as <- <-.
    split; [reflexivity|]. split; [reflexivity|]. split; [exact Hemail|].
    split; reflexivity.
Defined.

(** C2, as the specification states it, fails: the phone number is not the
    only value that depends on [Math.random].  The key [price] is no phone
    key, and under the same nonce the generator gives it 10 with one source
    of random numbers and 510 with another. *)
Lemma generateValidTestData_price_is_random :
  Js.includes (Js.toLowerCase "price") "phone" = false ∧
  generateValidTestData Demo.zeros (JObj [("price", JNum 5)]) "generic" 1755943608718 [] 0
    = Normal ([("price", JNum 10)], 1%nat) ∧
  generateValidTestData Demo.halves (JObj [("price", JNum 5)]) "generic" 1755943608718 [] 0
    = Normal ([("price", JNum 510)], 1%nat) ∧
  JNum 10 ≠ JNum 510.
Proof.
  split; [reflexivity|]. split; [vm_compute; reflexivity|].
  split; [vm_compute; reflexivity|]. intros Heq. discriminate Heq.
Qed.

(** ** Pinning *)
Section PinningFacts.

(** The pinned value is that of the last attribute with exactly that name. *)
Lemma static_value_last (before after : list StaticAttribute) (attr : StaticAttribute) :
  (∀ a, a ∈ after → name a ≠ name attr) →
  static_value (before ++ attr :: after) (name attr) = Some (value attr).
Proof.
  intros Hafter.
  assert (static_value after (name attr) = None) as Hnone.
  { induction after as [|a after IH]; [reflexivity|]. cbn [static_value].
    rewrite IH by (intros b Hb; apply Hafter; by right).
    destruct (String.eqb (name a) (name attr)) eqn:E; [|reflexivity].
    apply String.eqb_eq in E. exfalso. apply (Hafter a); [by left | exact E]. }
  induction before as [|b before IH]; cbn [app static_value].
  - by rewrite Hnone, String.eqb_refl.
  - by rewrite IH.
Qed.

(** No attribute with exactly that name: nothing is pinned. *)
Lemma static_value_none (attrs : list StaticAttribute) (key : string) :
  (∀ a, a ∈ attrs → name a ≠ key) → static_value attrs key = None.
Proof.
  induction attrs as [|a attrs IH]; intros Hnames; [reflexivity|].
  cbn [static_value]. rewrite IH by (intros b Hb; apply Hnames; by right).
  destruct (String.eqb (name a) key) eqn:E; [|reflexivity].
  apply String.eqb_eq in E. exfalso. apply (Hnames a); [by left | exact E].
Qed.

Lemma toLowerCase_length (s : string) : String.length (Js.toLowerCase s) = String.length s.
Proof. induction s as [|c s IH]; simpl; [reflexivity | by rewrite IH]. Qed.

(** The rules read the key through its lower-case form and its length. *)
Lemma synthesize_case_insensitive (rnd : RandomSource) (domain : string) (timestamp : Z)
    (key key' : string) (current : option JValue) (next : nat) :
  Js.toLowerCase key = Js.toLowerCase key' →
  synthesize rnd domain timestamp key current next
    = synthesize rnd domain timestamp key' current next.
Proof.
  intros Hlower.
  assert (index_of timestamp key = index_of timestamp key') as Hindex.
  { unfold index_of.
    by rewrite <- (toLowerCase_length key), <- (toLowerCase_length key'), Hlower. }
  assert (analyzeFieldContext key domain = analyzeFieldContext key' domain) as Hcontext.
  { unfold analyzeFieldContext. by rewrite Hlower. }
  unfold synthesize. by rewrite Hlower, Hindex, Hcontext.
Qed.

End PinningFacts.

(** C10.  Static attributes are matched to payload keys by equality of the
    names, letter case included.  For a payload on which the generator runs
    (one that does not shadow [hasOwnProperty]): a key that is the name of an
    attribute ends with the value of the last such attribute, as a string,
    and no rule touches it; a key that is the name of no attribute, even if
    it differs from one only in letter case, ends with the value the rules
    give it, and those rules read the key through its lower-case form
    only. *)
Theorem static_pinning_is_exact_match (rnd : RandomSource) (originalData : JValue)
    (domain : string) (timestamp : Z) (staticAttributes : list StaticAttribute)
    (next : nat) :
  NoDup (Object.keys (Object.spread originalData)) →
  Object.hasOwn "hasOwnProperty" (Object.spread originalData) = false →
  ∃ out next',
    generateValidTestData rnd originalData domain timestamp staticAttributes next
      = Normal (out, next') ∧
    (∀ key orig (before : list StaticAttribute) attr after,
       Object.get key (Object.spread originalData) = Some orig →
       staticAttributes = (before ++ attr :: after)%list →
       name attr = key →
       (∀ a, a ∈ after → name a ≠ key) →
       Object.get key out = Some (JStr (value attr))) ∧
    (∀ key orig,
       Object.get key (Object.spread originalData) = Some orig →
       (∀ a, a ∈ staticAttributes → name a ≠ key) →
       ∃ m, Object.get key out = regenerated rnd domain timestamp key (Some orig) m) ∧
    (∀ key key' current m,
       Js.toLowerCase key = Js.toLowerCase key' →
       regenerated rnd domain timestamp key current m
         = regenerated rnd domain timestamp key' current m).
Proof.
  intros Hnd Hown.
  destruct (generateValidTestData_returns rnd domain timestamp staticAttributes
              originalData next) as (out & next' & Hgen & _ & Hvalues); [by left | exact Hnd |].
  exists out, next'. split; [exact Hgen|]. split; [|split].
  - intros key orig before attr after Horig -> <- Hlast.
    specialize (Hvalues _ _ Horig). by rewrite static_value_last in Hvalues.
  - intros key orig Horig Hnames.
    specialize (Hvalues _ _ Horig). by rewrite static_value_none in Hvalues.
  - intros key key' current m Hlower. unfold regenerated.
    by rewrite (synthesize_case_insensitive _ _ _ _ _ _ _ Hlower).
Qed.

(** The payload [{"email": ..., "Email": ...}] with the attribute
    [email = pinned@corp.test]: the key [email] is pinned, the key [Email]
    is not and receives a synthetic address. *)
Lemma static_pinning_is_exact_match_witness :
  ∃ out,
    generateValidTestData Demo.zeros
      (JObj [("email", JStr "a@b.com"); ("Email", JStr "c@d.com")])
      "user" 1755943608718 [{| name := "email"; value := "pinned@corp.test" |}] 0
      = Normal (out, 0%nat) ∧
    Object.get "email" out = Some (JStr "pinned@corp.test") ∧
    Object.get "Email" out = Some (JStr "sophie.simon.1755943608718@example.com").
Proof.
  destruct (static_pinning_is_exact_match Demo.zeros
              (JObj [("email", JStr "a@b.com"); ("Email", JStr "c@d.com")])
              "user" 1755943608718 [{| name := "email"; value := "pinned@corp.test" |}] 0)
    as (out & next' & Hgen & Hpinned & Hfree & _).
  - apply (bool_decide_unpack _). vm_compute. exact I.
  - reflexivity.
  - exists out.
    pose proof (Hpinned "email" (JStr "a@b.com") []
                  {| name := "email"; value := "pinned@corp.test" |} []
                  eq_refl eq_refl eq_refl) as Hemail.
    destruct (Hfree "Email" (JStr "c@d.com") eq_refl) as [m HEmail].
    { intros a Ha. apply list_elem_of_In in Ha. destruct Ha as [<-|[]]. discriminate. }
    vm_compute in Hgen. injection Hgen as <- <-.
    split; [reflexivity|]. split; reflexivity.
Defined.

(** ** The fallback builder *)
Section FallbackFacts.
Context {P : Platform}.

(** The generator leaves a payload of [null] fields with plain names as it
    is, whatever the nonce and the random numbers. *)
Lemma generateValidTestData_nulls (rnd : RandomSource) (domain : string) (timestamp : Z)
    (next : nat) :
  generateValidTestData rnd Demo.nulls_payload domain timestamp [] next
    = Normal (Object.spread Demo.nulls_payload, next).
Proof. reflexivity. Qed.

(** The invalid value for such a field is [null] again. *)
Lemma generateInvalidValue_null (field : string) :
  field ∈ ["a"; "b"; "c"; "d"] →
  generateInvalidValue field (Object.prop Demo.nulls_payload field) = JNull.
Proof.
  intros Hin. apply list_elem_of_In in Hin.
  destruct Hin as [<-|[<-|[<-|[<-|[]]]]]; reflexivity.
Qed.

End FallbackFacts.

(** C8, where the code departs from it.  For the payload
    [{"a": null, "b": null, "c": null, "d": null}] and no static attribute,
    the builder pushes four per-field scenarios with the expected status 400,
    but the invalid value it assigns to the targeted field is [null], the
    value the field has in the valid baseline: the body of each of the four
    scenarios is the serialisation of its baseline, and differs from it in no
    field. *)
Theorem invalid_field_scenarios_repeat_the_baseline {P : Platform} (rnd : RandomSource)
    (parsedCurl : RequestDescriptor) (apiContext : ApiContext) (timestamp : Z)
    (next : nat) (text : string) :
  body parsedCurl = Some text →
  JSON_parse text = Some Demo.nulls_payload →
  let baseline := Object.spread Demo.nulls_payload in
  (∀ index : nat,
     generateValidTestData rnd Demo.nulls_payload (domain apiContext)
       (timestamp + Z.of_nat index) [] next = Normal (baseline, next)) ∧
  (∀ field, field ∈ ["a"; "b"; "c"; "d"] →
     invalidData_of Demo.nulls_payload field baseline = baseline) ∧
  business_scenarios rnd parsedCurl apiContext [] timestamp next
    = ([ nominal_scenario parsedCurl apiContext baseline;
         invalid_field_scenario parsedCurl "a" baseline;
         invalid_field_scenario parsedCurl "b" baseline;
         invalid_field_scenario parsedCurl "c" baseline;
         invalid_field_scenario parsedCurl "d" baseline;
         missing_field_scenario parsedCurl "a" baseline ], next) ∧
  (∀ field, field ∈ ["a"; "b"; "c"; "d"] →
     Scenario.body (invalid_field_scenario parsedCurl field baseline)
       = Some (JSON_stringify (JObj baseline)) ∧
     Scenario.expectedStatus (invalid_field_scenario parsedCurl field baseline) = Some 400).
Proof.
  intros Hbody Hparse baseline.
  split; [intros index; apply generateValidTestData_nulls|].
  split.
  { intros field Hin. unfold invalidData_of. rewrite generateInvalidValue_null by exact Hin.
    apply list_elem_of_In in Hin. destruct Hin as [<-|[<-|[<-|[<-|[]]]]]; reflexivity. }
  split; [|intros field _; split; reflexivity].
  unfold business_scenarios. unfold body_or_undefined.
  rewrite Hbody, (parsed_text_truthy _ _ Hparse), Hparse.
  reflexivity.
Qed.

(** The request of the registration example with the payload of four
    [null] fields. *)
Lemma invalid_field_scenarios_repeat_the_baseline_witness :
  let parsedCurl :=
    {| url := "https://api.example.com/register"; method := "POST"; headers := ∅;
       body := Some (Demo.stringify Demo.nulls_payload) |} in
  map Scenario.body
    (fst (business_scenarios (P := Demo.platform) Demo.zeros parsedCurl
            (analyzeApiContext (P := Demo.platform) parsedCurl) [] 1755943608718 0))
  = [ Some (Demo.stringify Demo.nulls_payload);
      Some (Demo.stringify Demo.nulls_payload);
      Some (Demo.stringify Demo.nulls_payload);
      Some (Demo.stringify Demo.nulls_payload);
      Some (Demo.stringify Demo.nulls_payload);
      Some (Demo.stringify (JObj [("b", JNull); ("c", JNull); ("d", JNull)])) ].
Proof.
  intros parsedCurl.
  destruct (invalid_field_scenarios_repeat_the_baseline (P := Demo.platform) Demo.zeros
              parsedCurl (analyzeApiContext (P := Demo.platform) parsedCurl)
              1755943608718 0 (Demo.stringify Demo.nulls_payload) eq_refl eq_refl)
    as (_ & _ & Hscenarios & _).
  rewrite Hscenarios. reflexivity.
Defined.

(** * Further properties of the code *)

(** ** Splitting and joining *)
Section SplitFacts.

Lemma includes_char_cons (c x : ascii) (s : string) :
  Js.includes (String x s) (String c EmptyString) = false →
  x ≠ c ∧ Js.includes s (String c EmptyString) = false.
Proof.
  cbn [Js.includes]. intros Hinc. apply orb_false_iff in Hinc as [Hp Hs].
  split; [|exact Hs]. intros ->. simpl in Hp.
  destruct (ascii_dec c c); [|congruence]. by destruct s.
Qed.

Lemma split_nonempty (sep : ascii) (s : string) : Js.split sep s ≠ [].
Proof.
  destruct s as [|c s]; simpl; [done|].
  destruct (Ascii.eqb c sep); [done|]. by destruct (Js.split sep s).
Qed.

(** The first piece of a split ends at the first separator. *)
Lemma split_at_first (sep : ascii) (key rest : string) :
  Js.includes key (String sep EmptyString) = false →
  Js.split sep (key +:+ String sep rest) = key :: Js.split sep rest.
Proof.
  induction key as [|x key IH]; intros Hkey.
  - change (Js.split sep (String sep rest) = EmptyString :: Js.split sep rest).
    simpl. by rewrite Ascii.eqb_refl.
  - apply includes_char_cons in Hkey as [Hx Hkey].
    change (Js.split sep (String x (key +:+ String sep rest))
            = String x key :: Js.split sep rest).
    simpl. destruct (Ascii.eqb x sep) eqn:E; [apply Ascii.eqb_eq in E; congruence|].
    by rewrite (IH Hkey).
Qed.

Lemma split_without_separator (sep : ascii) (s : string) :
  Js.includes s (String sep EmptyString) = false → Js.split sep s = [s].
Proof.
  induction s as [|x s IH]; intros Hs; [reflexivity|].
  apply includes_char_cons in Hs as [Hx Hs]. simpl.
  destruct (Ascii.eqb x sep) eqn:E; [apply Ascii.eqb_eq in E; congruence|].
  by rewrite (IH Hs).
Qed.

(** Joining the pieces with the separator gives the string back. *)
Lemma join_split (sep : ascii) (s : string) :
  Js.join (String sep EmptyString) (Js.split sep s) = s.
Proof.
  unfold Js.join. induction s as [|x s IH]; [reflexivity|]. simpl.
  destruct (Ascii.eqb x sep) eqn:E.
  - apply Ascii.eqb_eq in E as ->.
    pose proof (split_nonempty sep s) as Hne.
    destruct (Js.split sep s) as [|w ws]; [done|].
    change (String.concat (String sep EmptyString) (EmptyString :: w :: ws))
      with (String sep (String.concat (String sep EmptyString) (w :: ws))).
    by rewrite IH.
  - pose proof (split_nonempty sep s) as Hne.
    destruct (Js.split sep s) as [|w ws]; [done|].
    rewrite <- IH. destruct ws; reflexivity.
Qed.

End SplitFacts.

(** ** More on the request-string parser *)
Section MoreParserFacts.
Import Curl.

(** Removing a one-character pattern leaves no occurrence of it. *)
Lemma replaceAll_char_gone (c : ascii) (s : string) :
  Js.includes (Js.replaceAll (String c EmptyString) EmptyString s) (String c EmptyString)
    = false.
Proof.
  unfold Js.replaceAll. induction s as [|x s IH]; [reflexivity|].
  cbn [Js.replaceAll_from String.length Nat.sub].
  assert (∀ t, String.prefix (String c EmptyString) (String x t)
               = if ascii_dec c x then true else false) as Hprefix.
  { intros t. simpl. destruct (ascii_dec c x); [by destruct t | reflexivity]. }
  rewrite Hprefix. destruct (ascii_dec c x) as [Heq|Hne].
  - exact IH.
  - cbn [Js.includes]. rewrite Hprefix, IH.
    destruct (ascii_dec c x); [contradiction | reflexivity].
Qed.

End MoreParserFacts.

(** X1.  The method of the descriptor.  A verb given with [-X] is returned
    as written, whatever else the request string contains; a request string
    without [-X] gets [POST] when it contains one of the payload flags
    [--data-raw], [--data] or [-d] followed by a space, and [GET]
    otherwise. *)
Theorem parseCurlCommand_method (curlCommand : string) (d : RequestDescriptor) :
  Curl.parseCurlCommand curlCommand = Normal d →
  (∀ m, Regex.search Curl.method_pattern (Curl.cleanCurl_of curlCommand) = Some m →
        method d = Curl.group1 m) ∧
  (Js.includes (Curl.cleanCurl_of curlCommand) "-X" = false →
   method d =
     if Js.includes (Curl.cleanCurl_of curlCommand) "--data-raw"
        || Js.includes (Curl.cleanCurl_of curlCommand) "--data"
        || Js.includes (Curl.cleanCurl_of curlCommand) "-d "
     then "POST" else "GET").
Proof.
  rewrite parseCurlCommand_normal. unfold Curl.parse_body. intros Hd.
  injection Hd as <-. cbn [method]. split.
  - intros m ->. reflexivity.
  - intros HX. rewrite (search_method_absent _ HX). reflexivity.
Qed.

(** [curl -X PUT ... -d ...] keeps [PUT]; [curl ... -d ...] becomes [POST]. *)
Lemma parseCurlCommand_method_witness :
  (∃ d, Curl.parseCurlCommand "curl -X PUT https://x.test/a -d 'k=v'" = Normal d ∧
        method d = "PUT") ∧
  (∃ d, Curl.parseCurlCommand "curl https://x.test/a -d 'k=v'" = Normal d ∧
        method d = "POST").
Proof.
  split.
  - assert (∃ d, Curl.parseCurlCommand "curl -X PUT https://x.test/a -d 'k=v'" = Normal d)
      as [d Hd] by (eexists; vm_compute; reflexivity).
    exists d. split; [exact Hd|].
    apply (proj1 (parseCurlCommand_method _ d Hd) (Some "PUT", " https://x.test/a -d 'k=v'")).
    reflexivity.
  - assert (∃ d, Curl.parseCurlCommand "curl https://x.test/a -d 'k=v'" = Normal d)
      as [d Hd] by (eexists; vm_compute; reflexivity).
    exists d. split; [exact Hd|].
    rewrite (proj2 (parseCurlCommand_method _ d Hd)); reflexivity.
Defined.

(** X2.  One header of the request string.  The text between the quotes of
    a [-H] flag is cut at its first colon: what precedes is the name, what
    follows, further colons included, is the value, both trimmed; the entry
    replaces an earlier one of the same name.  A text without a colon or
    with nothing before its first colon adds no header, and neither does
    the name [__proto__]. *)
Theorem add_header_cuts_at_first_colon (headers : gmap string string)
    (key value : string) :
  Js.includes key ":" = false →
  Curl.add_header headers (key +:+ ":" +:+ value)
    = (if Js.truthy key && negb (String.eqb (Js.trim key) "__proto__")
       then <[Js.trim key := Js.trim value]> headers else headers) ∧
  Curl.add_header headers key = headers.
Proof.
  intros Hkey. split.
  - unfold Curl.add_header.
    change (key +:+ ":" +:+ value) with (key +:+ String ":"%char value).
    rewrite (split_at_first ":"%char key value Hkey).
    pose proof (split_nonempty ":"%char value) as Hne.
    destruct (Js.split ":"%char value) as [|w ws] eqn:E; [done|].
    cbn [length Nat.ltb Nat.leb]. rewrite <- E.
    change ":" with (String ":"%char EmptyString). rewrite join_split.
    destruct (Js.truthy key); [|reflexivity]. cbn [andb].
    by destruct (String.eqb (Js.trim key) "__proto__").
  - unfold Curl.add_header.
    rewrite (split_without_separator ":"%char key Hkey). cbn [length Nat.ltb Nat.leb].
    by rewrite andb_false_r.
Qed.

(** A referer, whose value contains colons, replaces an earlier one. *)
Lemma add_header_cuts_at_first_colon_witness :
  Curl.add_header (<["Referer" := "about:blank"]> ∅) "Referer: https://x.test:8443/a"
    = <["Referer" := "https://x.test:8443/a"]> ∅.
Proof.
  rewrite (proj1 (add_header_cuts_at_first_colon (<["Referer" := "about:blank"]> ∅)
                    "Referer" " https://x.test:8443/a" eq_refl)).
  vm_compute. reflexivity.
Defined.

(** X3.  Carets never survive: for every request string, the cleaned command
    the patterns are run on contains no caret, and neither does the body of
    the descriptor. *)
Theorem parseCurlCommand_strips_carets (curlCommand : string) :
  Js.includes (Curl.cleanCurl_of curlCommand) "^" = false ∧
  ∀ d b, Curl.parseCurlCommand curlCommand = Normal d → body d = Some b →
         Js.includes b "^" = false.
Proof.
  split; [apply replaceAll_char_gone|].
  intros d b Hd Hb.
  assert (body d = Curl.unescape_body
                     <$> Curl.first_data Curl.dataPatterns (Curl.cleanCurl_of curlCommand))
    as Hbody.
  { rewrite parseCurlCommand_normal in Hd. unfold Curl.parse_body in Hd.
    injection Hd as <-. reflexivity. }
  rewrite Hbody in Hb.
  destruct (Curl.first_data Curl.dataPatterns (Curl.cleanCurl_of curlCommand)) as [raw|];
    [|discriminate Hb].
  injection Hb as <-. apply replaceAll_char_gone.
Qed.

(** A caret-escaped payload: the body comes out without its caret. *)
Lemma parseCurlCommand_strips_carets_witness :
  ∃ d, Curl.parseCurlCommand "curl https://x.test/a -d 'k^=v'" = Normal d ∧
       body d = Some "k=v" ∧ Js.includes "k=v" "^" = false.
Proof.
  assert (∃ d, Curl.parseCurlCommand "curl https://x.test/a -d 'k^=v'" = Normal d)
    as [d Hd] by (eexists; vm_compute; reflexivity).
  exists d. split; [exact Hd|].
  assert (body d = Some "k=v") as Hb.
  { vm_compute in Hd. injection Hd as <-. reflexivity. }
  split; [exact Hb|].
  exact (proj2 (parseCurlCommand_strips_carets _) d "k=v" Hd Hb).
Defined.

(** ** More on the context classifier *)
Section ScoreFacts.
Variable urlParts : list string.
Variable queryParams : string.

Let count (entry : string * list string) : Z :=
  count_matches urlParts queryParams (snd entry).

Lemma count_matches_range (indicators : list string) :
  0 ≤ count_matches urlParts queryParams indicators ≤ Z.of_nat (length indicators).
Proof.
  unfold count_matches.
  pose proof (length_filter
    (fun indicator =>
       Is_true (existsb (fun part => Js.includes part indicator) urlParts
                || Js.includes queryParams indicator)) indicators).
  lia.
Qed.

(** The loop keeps the first entry whose count is the largest, if that count
    is above the score it started from. *)
Lemma score_fold (entries : list (string * list string)) (acc : string * Z) :
  let result := fold_left (score_step urlParts queryParams) entries acc in
  (∀ e, e ∈ entries → count e ≤ snd result) ∧
  ((result = acc ∧ ∀ e, e ∈ entries → count e ≤ snd acc) ∨
   (snd acc < snd result ∧
    ∃ before entry after,
      entries = (before ++ entry :: after)%list ∧ fst entry = fst result ∧
      count entry = snd result ∧ ∀ e, e ∈ before → count e < snd result)).
Proof.
  revert acc. induction entries as [|e entries IH]; intros acc; cbn zeta.
  - split; [intros e He; inversion He|]. left. split; [reflexivity|].
    intros e He. inversion He.
  - cbn [fold_left]. specialize (IH (score_step urlParts queryParams acc e)).
    cbn zeta in IH.
    set (result := fold_left (score_step urlParts queryParams) entries
                     (score_step urlParts queryParams acc e)) in *.
    destruct IH as [Hmax Hcases].
    assert (snd (score_step urlParts queryParams acc e) ≤ snd result) as Hmono.
    { destruct Hcases as [[-> _]|[Hlt _]]; lia. }
    assert (count e ≤ snd (score_step urlParts queryParams acc e) ∧
            snd acc ≤ snd (score_step urlParts queryParams acc e)) as [Hce Hacc].
    { unfold score_step. fold (count e).
      destruct (snd acc <? count e) eqn:E; cbn [snd]; lia. }
    split.
    { intros e' He'. apply elem_of_cons in He' as [->|He']; [lia | by apply Hmax]. }
    unfold score_step in Hcases, Hmono, Hce, Hacc. fold (count e) in *.
    destruct (snd acc <? count e) eqn:E; cbn [fst snd] in *.
    + right. split; [lia|].
      destruct Hcases as [[Heq Hle]|(Hlt & before & entry & after & -> & Hd & Hc & Hb)].
      * exists [], e, entries. rewrite Heq. cbn [fst snd]. repeat split.
        intros e' He'. inversion He'.
      * exists (e :: before), entry, after. repeat split; try done.
        intros e' He'. apply elem_of_cons in He' as [->|He']; [lia | by apply Hb].
    + destruct Hcases as [[Heq Hle]|(Hlt & before & entry & after & -> & Hd & Hc & Hb)].
      * left. split; [exact Heq|].
        intros e' He'. apply elem_of_cons in He' as [->|He']; [lia | by apply Hle].
      * right. split; [lia|].
        exists (e :: before), entry, after. repeat split; try done.
        intros e' He'. apply elem_of_cons in He' as [->|He']; [lia | by apply Hb].
Qed.

End ScoreFacts.

(** X4.  The score of a URL.  The confidence is the largest number of
    indicators of one domain found in the URL, and it is at most 7; when it
    is 0 the domain is [generic], and when it is positive the domain is the
    first one of the table, in its order, that reaches this number: on a
    tie the earlier domain wins. *)
Theorem score_url_first_maximum (url : string) :
  let count entry := count_matches (urlParts_of url) (queryParams_of url) (snd entry) in
  (∀ e, e ∈ domainIndicators → count e ≤ snd (score_url url)) ∧
  0 ≤ snd (score_url url) ≤ 7 ∧
  (snd (score_url url) = 0 → fst (score_url url) = "generic") ∧
  (0 < snd (score_url url) →
   ∃ before entry after,
     domainIndicators = (before ++ entry :: after)%list ∧
     fst entry = fst (score_url url) ∧
     count entry = snd (score_url url) ∧
     ∀ e, e ∈ before → count e < snd (score_url url)).
Proof.
  intros count. unfold score_url.
  destruct (score_fold (urlParts_of url) (queryParams_of url) domainIndicators ("generic", 0))
    as [Hmax Hcases].
  cbn zeta in Hmax, Hcases.
  set (result := fold_left (score_step (urlParts_of url) (queryParams_of url))
                   domainIndicators ("generic", 0)) in *.
  split; [exact Hmax|]. split; [|split].
  - destruct Hcases as [[-> _]|(Hlt & before & entry & after & Hsplit & _ & Hc & _)];
      cbn [snd] in *; [lia|].
    split; [lia|]. rewrite <- Hc.
    pose proof (count_matches_range (urlParts_of url) (queryParams_of url) (snd entry)).
    assert (entry ∈ domainIndicators) as Hin.
    { rewrite Hsplit. apply elem_of_app. right. apply elem_of_cons. by left. }
    assert (Z.of_nat (length (snd entry)) ≤ 7); [|lia].
    clear -Hin. unfold domainIndicators in Hin.
    repeat (apply elem_of_cons in Hin as [->|Hin]; [simpl; lia|]). inversion Hin.
  - intros Hzero. destruct Hcases as [[-> _]|[Hlt _]]; [reflexivity|].
    cbn [snd] in Hlt. lia.
  - intros Hpos. destruct Hcases as [[Heq _]|(_ & Hsplit)]; [|exact Hsplit].
    rewrite Heq in Hpos. cbn [snd] in Hpos. lia.
Qed.

(** [payment] is an indicator of both [order] and [finance]; [order] comes
    first in the table. *)
Lemma score_url_first_maximum_witness :
  score_url "https://pay.example.com/payment/42" = ("order", 1).
Proof.
  destruct (score_url_first_maximum "https://pay.example.com/payment/42")
    as (_ & _ & _ & Hfirst).
  reflexivity.
Defined.

Section ContextFacts.
Context {P : Platform}.

Lemma score_url_domain (url : string) :
  fst (score_url url) ∈ "generic" :: map fst domainIndicators.
Proof.
  unfold score_url.
  destruct (score_fold (urlParts_of url) (queryParams_of url) domainIndicators ("generic", 0))
    as [_ [[-> _]|(_ & before & entry & after & Hsplit & <- & _)]].
  - by left.
  - right. apply list_elem_of_fmap. exists entry. split; [reflexivity|].
    rewrite Hsplit. apply elem_of_app. right. apply elem_of_cons. by left.
Qed.

Lemma score_url_range (url : string) : 0 ≤ snd (score_url url) ≤ 7.
Proof.
  unfold score_url.
  destruct (score_fold (urlParts_of url) (queryParams_of url) domainIndicators ("generic", 0))
    as [_ [[-> _]|(Hlt & before & entry & after & Hsplit & _ & <- & _)]]; cbn [snd] in *.
  - lia.
  - pose proof (count_matches_range (urlParts_of url) (queryParams_of url) (snd entry)).
    assert (entry ∈ domainIndicators) as Hin.
    { rewrite Hsplit. apply elem_of_app. right. apply elem_of_cons. by left. }
    assert (Z.of_nat (length (snd entry)) ≤ 7); [|lia].
    clear -Hin. unfold domainIndicators in Hin.
    repeat (apply elem_of_cons in Hin as [->|Hin]; [simpl; lia|]). inversion Hin.
Qed.

(** What the analysis of the payload can do to the score of the URL. *)
Lemma analyze_payload_cases (body : option string) (acc : string * Z) :
  fst (analyze_payload body acc) = acc ∨
  ∃ d, d ∈ ["auth"; "product"; "user"] ∧ fst (analyze_payload body acc) = (d, snd acc + 2).
Proof.
  unfold analyze_payload.
  destruct body as [text|]; [|by left].
  destruct (Js.truthy text); [|by left].
  destruct (JSON_parse text) as [bodyObj|]; [|by left].
  destruct (Object.keys_of bodyObj) as [fields|]; [|by left].
  cbn [fst]. unfold refine_domain.
  destruct (hasEmail _ && hasPassword _); [right; exists "auth"; split; [set_solver|done]|].
  destruct (hasPrice _ && hasName _); [right; exists "product"; split; [set_solver|done]|].
  destruct (hasAddress _ && hasPhone _); [right; exists "user"; split; [set_solver|done]|].
  by left.
Qed.

Lemma part_from_end_truthy (urlParts : list string) (back : nat) :
  Js.truthy (part_from_end urlParts back) = true.
Proof.
  unfold part_from_end. destruct (nth_error (rev urlParts) back) as [part|]; [|reflexivity].
  by destruct (Js.truthy part) eqn:E.
Qed.

End ContextFacts.

(** X5.  The context the classifier returns is well formed for every
    request: its domain is one of the twelve domains of the table of
    descriptions, its business description is the entry of the table for
    that domain, its confidence lies between 0 and 9, and its endpoint and
    resource are never empty ([unknown] stands in for a missing or empty
    path segment). *)
Theorem analyzeApiContext_well_formed {P : Platform} (parsedCurl : RequestDescriptor) :
  domain (analyzeApiContext parsedCurl) ∈ map fst businessContexts ∧
  assoc (domain (analyzeApiContext parsedCurl)) businessContexts
    = Some (businessContext (analyzeApiContext parsedCurl)) ∧
  0 ≤ confidence (analyzeApiContext parsedCurl) ≤ 9 ∧
  endpoint (analyzeApiContext parsedCurl) ≠ "" ∧
  resource (analyzeApiContext parsedCurl) ≠ "".
Proof.
  unfold analyzeApiContext.
  pose proof (analyze_payload_cases (body parsedCurl) (score_url (url parsedCurl))) as Hcases.
  pose proof (score_url_domain (url parsedCurl)) as Hdom.
  pose proof (score_url_range (url parsedCurl)) as Hrange.
  destruct (analyze_payload (body parsedCurl) (score_url (url parsedCurl)))
    as [detected payloadContext].
  cbn [fst] in Hcases.
  cbn [domain confidence endpoint resource businessContext].
  assert (fst detected ∈ map fst businessContexts ∧ 0 ≤ snd detected ≤ 9) as [Hin Hconf].
  { destruct Hcases as [->|(d & Hd & ->)]; cbn [fst snd].
    - split; [|lia]. clear -Hdom. unfold domainIndicators in Hdom. cbn [map fst] in Hdom.
      repeat (apply elem_of_cons in Hdom as [->|Hdom];
              [apply list_elem_of_In; simpl; tauto|]).
      inversion Hdom.
    - split; [|lia]. clear -Hd.
      repeat (apply elem_of_cons in Hd as [->|Hd];
              [apply list_elem_of_In; simpl; tauto|]).
      inversion Hd. }
  split; [exact Hin|]. split; [|split; [exact Hconf|]].
  - clear -Hin. unfold businessContexts in Hin. cbn [map fst] in Hin.
    unfold generateBusinessContext.
    repeat (apply elem_of_cons in Hin as [->|Hin]; [vm_compute; reflexivity|]).
    inversion Hin.
  - split; intros Hempty;
      pose proof (part_from_end_truthy (urlParts_of (url parsedCurl))) as Ht.
    + specialize (Ht 0%nat). rewrite Hempty in Ht. discriminate.
    + specialize (Ht 1%nat). rewrite Hempty in Ht. discriminate.
Qed.

(** ** More on the synthetic data generator *)
Section PoolFacts.

Lemma index_of_range (timestamp : Z) (key : string) : 0 ≤ index_of timestamp key < 1000.
Proof. unfold index_of. apply Z.rem_bound_pos; lia. Qed.

Lemma pick_in_pool (pool : list string) (index : Z) :
  pool ≠ [] → 0 ≤ index → pick pool index ∈ pool.
Proof.
  intros Hne Hindex. unfold pick, Js.nth_string.
  apply list_elem_of_In, nth_In.
  assert (0 < Z.of_nat (length pool)) by (destruct pool; [done | simpl; lia]).
  pose proof (Z.rem_bound_pos index (Z.of_nat (length pool)) Hindex ltac:(lia)). lia.
Qed.

Lemma unit_interval_range (k : N) : (0 <= unit_interval k)%Q ∧ (unit_interval k < 1)%Q.
Proof.
  unfold unit_interval.
  set (m := Z.of_N (k mod 2 ^ 53)).
  assert (0 ≤ m < 9007199254740992) as Hm.
  { subst m. split; [apply N2Z.is_nonneg|].
    change 9007199254740992 with (Z.of_N (2 ^ 53)%N).
    apply N2Z.inj_lt. by apply N.mod_upper_bound. }
  unfold Qle, Qlt. cbn [Qnum Qden].
  change (Z.pos (2 ^ 53)) with 9007199254740992. lia.
Qed.

End PoolFacts.

(** X6.  The pools are never indexed out of range: for every nonce and key
    the index lies between 0 and 999, and the name, company, type, suffix or
    password selected with it is an element of its pool. *)
Theorem pool_selection_in_range (timestamp : Z) (key : string) :
  0 ≤ index_of timestamp key < 1000 ∧
  ∀ pool,
    pool ∈ [ Pools.firstNames; Pools.lastNames; Pools.companyNames; Pools.companyTypes;
             Pools.productNames; Pools.domains; Pools.linkedinSuffixes; Pools.passwords ] →
    pick pool (index_of timestamp key) ∈ pool.
Proof.
  pose proof (index_of_range timestamp key) as Hrange.
  split; [exact Hrange|]. intros pool Hpool.
  apply pick_in_pool; [|lia].
  repeat (apply elem_of_cons in Hpool as [->|Hpool]; [discriminate|]). inversion Hpool.
Qed.

(** A negative nonce: the index is that of its absolute value. *)
Lemma pool_selection_in_range_witness :
  index_of (-5) "email" = 0 ∧ pick Pools.firstNames (index_of (-5) "email") = "Jean".
Proof.
  destruct (pool_selection_in_range (-5) "email") as [_ Hpick].
  split; reflexivity.
Defined.

(** X7.  The value of the price/amount rule: for every random draw it is a
    number of hundredths, between 10 and 1010, both bounds being possible
    after the rounding of [toFixed(2)]. *)
Theorem price_of_range (k : N) :
  ∃ cents : Z,
    price_of (unit_interval k) = Qred (cents # 100) ∧
    1000 ≤ cents ≤ 101000 ∧
    (10 <= price_of (unit_interval k))%Q ∧ (price_of (unit_interval k) <= 1010)%Q.
Proof.
  destruct (unit_interval_range k) as [H0 H1].
  set (u := unit_interval k) in *.
  set (x := ((u * 1000 + 10) * 100 + (1 # 2))%Q).
  assert (1000 ≤ Qfloor x ≤ 101000) as Hcents.
  { split.
    - rewrite <- (Qfloor_Z 1000). apply Qfloor_resp_le. subst x. clearbody u.
      change (inject_Z 1000) with 1000%Q. lra.
    - assert (Qfloor x < 101001); [|lia].
      rewrite Zlt_Qlt. apply Qle_lt_trans with x; [apply Qfloor_le|].
      subst x. clearbody u. change (inject_Z 101001) with 101001%Q. lra. }
  exists (Qfloor x). split; [reflexivity|]. split; [exact Hcents|].
  unfold price_of. fold x. rewrite Qred_correct.
  unfold Qle. cbn [Qnum Qden]. lia.
Qed.

(** ** Decimal renderings and the uniqueness they give *)
Section DecimalFacts.

Lemma length_append_string (a b : string) :
  String.length (a +:+ b) = (String.length a + String.length b)%nat.
Proof.
  induction a as [|x a IH]; [reflexivity|].
  change (S (String.length (a +:+ b)) = S (String.length a + String.length b)).
  by rewrite IH.
Qed.

Lemma app_inv_tail_string (a b t : string) : a +:+ t = b +:+ t → a = b.
Proof.
  revert b. induction a as [|x a IH]; intros [|y b] Heq.
  - reflexivity.
  - apply (f_equal String.length) in Heq. rewrite !length_append_string in Heq.
    cbn [String.length] in Heq. lia.
  - apply (f_equal String.length) in Heq. rewrite !length_append_string in Heq.
    cbn [String.length] in Heq. lia.
  - change (String x (a +:+ t) = String y (b +:+ t)) in Heq.
    injection Heq as -> Heq. by rewrite (IH b Heq).
Qed.

(** Two texts cut at their last separator: equal texts have equal tails. *)
Lemma tail_after_last (sep : ascii) (x1 x2 n1 n2 : string) :
  Js.includes n1 (String sep EmptyString) = false →
  Js.includes n2 (String sep EmptyString) = false →
  x1 +:+ String sep n1 = x2 +:+ String sep n2 → n1 = n2.
Proof.
  intros Hn1 Hn2. revert x2. induction x1 as [|a x1 IH]; intros [|b x2] Heq.
  - by injection Heq.
  - change (String sep n1 = String b (x2 +:+ String sep n2)) in Heq.
    injection Heq as _ Heq. exfalso.
    pose proof (includes_intro x2 (String sep EmptyString) n2) as Hinc.
    change (x2 +:+ String sep EmptyString +:+ n2) with (x2 +:+ String sep n2) in Hinc.
    rewrite <- Heq in Hinc. congruence.
  - change (String a (x1 +:+ String sep n1) = String sep n2) in Heq.
    injection Heq as _ Heq. exfalso.
    pose proof (includes_intro x1 (String sep EmptyString) n1) as Hinc.
    change (x1 +:+ String sep EmptyString +:+ n1) with (x1 +:+ String sep n1) in Hinc.
    rewrite Heq in Hinc. congruence.
  - change (String a (x1 +:+ String sep n1) = String b (x2 +:+ String sep n2)) in Heq.
    injection Heq as _ Heq. exact (IH x2 Heq).
Qed.

Lemma to_int_not_nil (z : Z) :
  Z.to_int z ≠ Decimal.Pos Decimal.Nil ∧ Z.to_int z ≠ Decimal.Neg Decimal.Nil.
Proof.
  pose proof (DecimalZ.to_of (Z.to_int z)) as Hnorm.
  rewrite DecimalZ.of_to in Hnorm.
  split; intros Hnil; rewrite Hnil in Hnorm; discriminate Hnorm.
Qed.

(** Distinct integers have distinct renderings. *)
Lemma of_Z_injective (a b : Z) : Js.of_Z a = Js.of_Z b → a = b.
Proof.
  unfold Js.of_Z. intros Heq.
  destruct (to_int_not_nil a) as [Ha1 Ha2]. destruct (to_int_not_nil b) as [Hb1 Hb2].
  pose proof (NilZero.isi _ Ha1 Ha2) as Hia. pose proof (NilZero.isi _ Hb1 Hb2) as Hib.
  rewrite Heq, Hib in Hia. injection Hia as Hint.
  rewrite <- (DecimalZ.of_to a), <- (DecimalZ.of_to b). by rewrite Hint.
Qed.

Lemma uint_text_no_dot (d : Decimal.uint) :
  Js.includes (NilEmpty.string_of_uint d) "." = false.
Proof. induction d; cbn [NilEmpty.string_of_uint Js.includes]; try rewrite IHd; reflexivity. Qed.

(** The rendering of an integer has no dot. *)
Lemma of_Z_no_dot (z : Z) : Js.includes (Js.of_Z z) "." = false.
Proof.
  unfold Js.of_Z, NilZero.string_of_int, NilZero.string_of_uint.
  destruct (Z.to_int z) as [d|d]; destruct d;
    cbn [Js.includes]; try rewrite uint_text_no_dot; try reflexivity;
    cbn [NilEmpty.string_of_uint Js.includes]; rewrite uint_text_no_dot; reflexivity.
Qed.

Lemma email_shape (f l n : string) :
  f +:+ "." +:+ l +:+ "." +:+ n +:+ "@example.com"
    = ((f +:+ "." +:+ l) +:+ String "."%char n) +:+ "@example.com".
Proof.
  change (String "."%char n) with ("." +:+ n).
  by rewrite !app_assoc_string.
Qed.

End DecimalFacts.

(** X8.  The nonce makes the e-mail addresses unique: for a key that
    contains [email], two calls of the rules, whatever the domains, the
    current values and the random sources, give the same address only when
    their nonces are equal. *)
Theorem email_unique_per_nonce (rnd1 rnd2 : RandomSource) (domain1 domain2 : string)
    (timestamp1 timestamp2 : Z) (key : string) (current1 current2 : option JValue)
    (next1 next2 : nat) :
  Js.includes (Js.toLowerCase key) "email" = true →
  fst (synthesize rnd1 domain1 timestamp1 key current1 next1)
    = fst (synthesize rnd2 domain2 timestamp2 key current2 next2) →
  timestamp1 = timestamp2.
Proof.
  intros Hemail. unfold synthesize. rewrite Hemail. cbn [ret fst].
  intros Heq. injection Heq as Heq.
  set (f1 := Js.toLowerCase (pick Pools.firstNames (index_of timestamp1 key))) in Heq.
  set (l1 := Js.toLowerCase (pick Pools.lastNames (index_of timestamp1 key))) in Heq.
  set (f2 := Js.toLowerCase (pick Pools.firstNames (index_of timestamp2 key))) in Heq.
  set (l2 := Js.toLowerCase (pick Pools.lastNames (index_of timestamp2 key))) in Heq.
  rewrite !email_shape in Heq. apply app_inv_tail_string in Heq.
  apply of_Z_injective.
  apply (tail_after_last "."%char _ _ _ _ (of_Z_no_dot _) (of_Z_no_dot _) Heq).
Qed.

(** Two consecutive nonces: the addresses differ. *)
Lemma email_unique_per_nonce_witness :
  fst (synthesize Demo.zeros "user" 1755943608718 "email" None 0%nat)
    ≠ fst (synthesize Demo.zeros "user" 1755943608719 "email" None 0%nat).
Proof.
  intros Heq.
  pose proof (email_unique_per_nonce Demo.zeros Demo.zeros "user" "user"
                1755943608718 1755943608719 "email" None None 0%nat 0%nat eq_refl Heq)
    as Hts.
  discriminate Hts.
Defined.

(** X9.  When the generator throws and what it keeps.  It throws, with the
    [TypeError] of a call to a non-function, exactly when there is at least
    one static attribute and the payload has an own property named
    [hasOwnProperty]; in every other case it returns an object whose keys
    are those of the payload, in the same order: no key is added, removed
    or moved, also when a static attribute names no key of the payload. *)
Theorem generateValidTestData_throws_or_keeps_keys (rnd : RandomSource)
    (originalData : JValue) (domain : string) (timestamp : Z)
    (staticAttributes : list StaticAttribute) (next : nat) :
  (staticAttributes ≠ [] ∧
   Object.hasOwn "hasOwnProperty" (Object.spread originalData) = true ∧
   generateValidTestData rnd originalData domain timestamp staticAttributes next
     = Throw shadowed) ∨
  ((staticAttributes = [] ∨
    Object.hasOwn "hasOwnProperty" (Object.spread originalData) = false) ∧
   ∃ out next',
     generateValidTestData rnd originalData domain timestamp staticAttributes next
       = Normal (out, next') ∧
     Object.keys out = Object.keys (Object.spread originalData)).
Proof.
  destruct (decide (staticAttributes = [])) as [Hnil|Hne];
    [|destruct (Object.hasOwn "hasOwnProperty" (Object.spread originalData)) eqn:Hown].
  - right. split; [by left|].
    destruct (generateValidTestData rnd originalData domain timestamp staticAttributes next)
      as [[out next']|e] eqn:Hgen.
    + exists out, next'. split; [reflexivity|]. by eapply generateValidTestData_keys.
    + exfalso. unfold generateValidTestData in Hgen. rewrite Hnil in Hgen.
      discriminate Hgen.
  - left. split; [exact Hne|]. split; [reflexivity|].
    by apply generateValidTestData_throws.
  - right. split; [by right|].
    destruct (generateValidTestData rnd originalData domain timestamp staticAttributes next)
      as [[out next']|e] eqn:Hgen.
    + exists out, next'. split; [reflexivity|]. by eapply generateValidTestData_keys.
    + exfalso. unfold generateValidTestData in Hgen.
      destruct (apply_static_normal staticAttributes _ Hown) as (t' & Ht' & _).
      rewrite Ht' in Hgen. discriminate Hgen.
Qed.

(** ** Keys no rule looks at *)
Section PlainKeyFacts.

Ltac split_rules :=
  repeat match goal with
         | |- context [if ?b then _ else _] => destruct b eqn:?
         end.

Lemma synthesize_plain (rnd : RandomSource) (domain : string) (timestamp : Z)
    (key : string) (current : option JValue) (next : nat) :
  plain_key key = true →
  (∀ text, current = Some (JStr text) → (String.length text ≤ 10)%nat) →
  synthesize rnd domain timestamp key current next = (None, next).
Proof.
  unfold plain_key, rule_needles. cbn [forallb]. intros Hplain Hshort.
  repeat (apply andb_true_iff in Hplain as [? Hplain]).
  repeat match goal with
         | H : negb _ = true |- _ => apply negb_true_iff in H
         end.
  match goal with
  | H : Js.includes (Js.toLowerCase key) "name" = false |- _ =>
      pose proof (includes_piece _ "user" "name" "" H) as Huser;
      change ("user" +:+ "name" +:+ "") with "username" in Huser
  end.
  assert (∀ text, current = Some (JStr text) → (10 <? String.length text)%nat = false)
    as Hshort' by (intros text Ht; apply Nat.ltb_ge; by apply Hshort).
  unfold synthesize, analyzeFieldContext. cbv zeta.
  repeat match goal with
         | H : _ = false |- _ => rewrite H
         end.
  cbn [orb andb negb].
  destruct (Js.includes (Js.toLowerCase key) "login");
    destruct (Js.includes (Js.toLowerCase key) "tel");
    cbn [dataType needsUniqueness isHumanReadable DataType_eqb];
    destruct current as [[| | |text| |]|];
    try rewrite (Hshort' text eq_refl);
    split_rules; reflexivity.
Qed.

End PlainKeyFacts.

(** X10.  What the generator leaves alone.  In a payload with distinct
    keys on which the generator runs, a key that is not pinned, is none of
    the human-name spellings and contains none of the substrings the rules
    look for ([email], [name], [type], [phone], [linkedin], [website],
    [url], [password], [price], [amount], [id], [ref], [code]) keeps its
    original value, unless that value is a string of more than 10
    characters: numbers, booleans, [null], arrays, nested objects and short
    strings under such keys come out unchanged. *)
Theorem generateValidTestData_keeps_plain_values (rnd : RandomSource)
    (originalData : JValue) (domain : string) (timestamp : Z)
    (staticAttributes : list StaticAttribute) (next : nat) (key : string) (orig : JValue) :
  NoDup (Object.keys (Object.spread originalData)) →
  Object.hasOwn "hasOwnProperty" (Object.spread originalData) = false →
  Object.get key (Object.spread originalData) = Some orig →
  (∀ a, a ∈ staticAttributes → name a ≠ key) →
  plain_key key = true →
  (∀ text, orig = JStr text → (String.length text ≤ 10)%nat) →
  ∃ out next',
    generateValidTestData rnd originalData domain timestamp staticAttributes next
      = Normal (out, next') ∧
    Object.get key out = Some orig.
Proof.
  intros Hnd Hown Horig Hnames Hplain Hshort.
  destruct (generateValidTestData_returns rnd domain timestamp staticAttributes
              originalData next) as (out & next' & Hgen & _ & Hvalues); [by left | exact Hnd |].
  exists out, next'. split; [exact Hgen|].
  specialize (Hvalues _ _ Horig). rewrite (static_value_none _ _ Hnames) in Hvalues.
  destruct Hvalues as [m ->]. unfold regenerated.
  rewrite synthesize_plain; [reflexivity | exact Hplain |].
  intros text Ht. injection Ht as ->. by apply Hshort.
Qed.

(** A counter, a flag and a nested object next to an e-mail address. *)
Lemma generateValidTestData_keeps_plain_values_witness :
  ∃ out next',
    generateValidTestData Demo.zeros
      (JObj [("email", JStr "a@b.com"); ("count", JNum 3); ("active", JBool true);
             ("meta", JObj [("name", JStr "kept")])])
      "user" 1755943608718 [] 0 = Normal (out, next') ∧
    Object.get "meta" out = Some (JObj [("name", JStr "kept")]).
Proof.
  apply (generateValidTestData_keeps_plain_values Demo.zeros
           (JObj [("email", JStr "a@b.com"); ("count", JNum 3); ("active", JBool true);
                  ("meta", JObj [("name", JStr "kept")])])
           "user" 1755943608718 [] 0 "meta" (JObj [("name", JStr "kept")])).
  - apply (bool_decide_unpack _). vm_compute. exact I.
  - reflexivity.
  - reflexivity.
  - intros a Ha. inversion Ha.
  - reflexivity.
  - intros text Ht. discriminate Ht.
Defined.

(** ** More on the fallback builder *)
Section BuilderFacts.
Context {P : Platform}.
Variable rnd : RandomSource.
Variable parsedCurl : RequestDescriptor.
Variable apiContext : ApiContext.
Variable staticAttributes : list StaticAttribute.
Variable timestamp : Z.

(** The generator returns when it does not meet the shadowed method. *)
Lemma generateValidTestData_normal (originalData : JValue) (domain : string) (ts : Z)
    (next : nat) :
  staticAttributes = [] ∨ Object.hasOwn "hasOwnProperty" (Object.spread originalData) = false →
  ∃ out next',
    generateValidTestData rnd originalData domain ts staticAttributes next
      = Normal (out, next').
Proof.
  intros Hok. unfold generateValidTestData.
  assert (∃ t', apply_static staticAttributes (Object.spread originalData) = Normal t')
    as [t' ->].
  { destruct Hok as [Hnil|Hown]; [rewrite Hnil; by eexists|].
    destruct (apply_static_normal staticAttributes _ Hown) as (t' & Ht' & _). by exists t'. }
  cbn [bind].
  destruct (process_keys rnd domain ts staticAttributes (Object.keys t') t' next)
    as [out next'].
  by exists out, next'.
Qed.

(** The per-field loop: one scenario for each of the first four fields that
    is not pinned, in the order of the fields. *)
Lemma field_scenarios_shape (bodyObj : JValue) (fields : list string) (index next : nat) :
  staticAttributes = [] ∨ Object.hasOwn "hasOwnProperty" (Object.spread bodyObj) = false →
  ∃ scs next',
    field_scenarios rnd parsedCurl apiContext staticAttributes timestamp bodyObj fields
      index next = (scs, next', true) ∧
    map Scenario.name scs
      = map (fun field => "Validation - " +:+ field +:+ " invalide")
          (List.filter (fun field => negb (isStatic staticAttributes field))
             (take (4 - index) fields)) ∧
    Forall (fun sc => Scenario.expectedStatus sc = Some 400) scs.
Proof.
  intros Hok. revert index next.
  induction fields as [|field fields IH]; intros index next.
  - exists [], next. split; [reflexivity|]. split; [by rewrite take_nil | constructor].
  - cbn [field_scenarios]. destruct (index <? 4)%nat eqn:E.
    + apply Nat.ltb_lt in E.
      destruct (generateValidTestData_normal bodyObj (domain apiContext)
                  (timestamp + Z.of_nat index) next Hok) as (base & next1 & ->).
      destruct (IH (S index) next1) as (scs & next' & -> & Hnames & Hstatus).
      eexists _, next'. split; [reflexivity|].
      replace (4 - index)%nat with (S (4 - S index)) by lia.
      cbn [take List.filter].
      destruct (isStatic staticAttributes field); cbn [negb app map].
      * split; assumption.
      * split; [by rewrite Hnames|]. constructor; [reflexivity | assumption].
    + apply Nat.ltb_ge in E.
      destruct (IH (S index) next) as (scs & next' & -> & Hnames & Hstatus).
      exists scs, next'. split; [reflexivity|]. split; [|assumption].
      rewrite Hnames. replace (4 - index)%nat with 0%nat by lia.
      replace (4 - S index)%nat with 0%nat by lia. by rewrite !take_0.
Qed.

End BuilderFacts.

(** X11.  The per-field loop of the builder.  On a body whose generation
    does not throw, the loop runs to its end and pushes one scenario for
    each of the first four fields that is not pinned, in field order, named
    after the field and expecting the status 400.  A pinned field among the
    first four is skipped without a replacement, so the loop pushes between
    0 and 4 scenarios, and exactly [min 4 n] when none of the [n] fields is
    pinned. *)
Theorem field_scenarios_count {P : Platform} (rnd : RandomSource)
    (parsedCurl : RequestDescriptor) (apiContext : ApiContext)
    (staticAttributes : list StaticAttribute) (timestamp : Z) (bodyObj : JValue)
    (fields : list string) (next : nat) :
  staticAttributes = [] ∨ Object.hasOwn "hasOwnProperty" (Object.spread bodyObj) = false →
  ∃ scs next',
    field_scenarios rnd parsedCurl apiContext staticAttributes timestamp bodyObj fields
      0 next = (scs, next', true) ∧
    map Scenario.name scs
      = map (fun field => "Validation - " +:+ field +:+ " invalide")
          (List.filter (fun field => negb (isStatic staticAttributes field))
             (take 4 fields)) ∧
    Forall (fun sc => Scenario.expectedStatus sc = Some 400) scs ∧
    (length scs ≤ 4)%nat ∧
    ((∀ field, field ∈ fields → isStatic staticAttributes field = false) →
     length scs = Nat.min 4 (length fields)).
Proof.
  intros Hok.
  destruct (field_scenarios_shape rnd parsedCurl apiContext staticAttributes timestamp
              bodyObj fields 0 next Hok) as (scs & next' & Hloop & Hnames & Hstatus).
  exists scs, next'. split; [exact Hloop|]. split; [exact Hnames|]. split; [exact Hstatus|].
  assert (length scs
          = length (List.filter (fun field => negb (isStatic staticAttributes field))
                      (take 4 fields))) as Hlen.
  { rewrite <- (length_map Scenario.name scs), Hnames. by rewrite length_map. }
  split.
  - rewrite Hlen.
    pose proof (List.filter_length_le
                  (fun field => negb (isStatic staticAttributes field)) (take 4 fields)).
    pose proof (length_take_le fields 4). rewrite length_take in *. lia.
  - intros Hfree. rewrite Hlen.
    rewrite List.forallb_filter_id; [by rewrite length_take|].
    apply forallb_forall. intros field Hin. apply negb_true_iff, Hfree.
    apply list_elem_of_In in Hin. rewrite <- (take_drop 4 fields).
    apply elem_of_app. by left.
Qed.

(** Five fields of which the second is pinned: three scenarios. *)
Lemma field_scenarios_count_witness :
  ∃ scs next',
    field_scenarios (P := Demo.platform) Demo.zeros emptyDescriptor
      (analyzeApiContext (P := Demo.platform) emptyDescriptor)
      [{| name := "b"; value := "fixed" |}] 0
      (JObj [("a", JNull); ("b", JNull); ("c", JNull); ("d", JNull); ("e", JNull)])
      ["a"; "b"; "c"; "d"; "e"] 0 0 = (scs, next', true) ∧
    map Scenario.name scs
      = ["Validation - a invalide"; "Validation - c invalide"; "Validation - d invalide"].
Proof.
  destruct (field_scenarios_count (P := Demo.platform) Demo.zeros emptyDescriptor
              (analyzeApiContext (P := Demo.platform) emptyDescriptor)
              [{| name := "b"; value := "fixed" |}] 0
              (JObj [("a", JNull); ("b", JNull); ("c", JNull); ("d", JNull); ("e", JNull)])
              ["a"; "b"; "c"; "d"; "e"] 0)
    as (scs & next' & Hloop & Hnames & _); [by right|].
  exists scs, next'. split; [exact Hloop|]. rewrite Hnames. reflexivity.
Defined.

Section RemoveFacts.

Lemma get_remove_ne (k k' : string) (o : Obj) :
  k ≠ k' → Object.get k (Object.remove k' o) = Object.get k o.
Proof.
  intros Hne. induction o as [|[k0 v0] o IH]; [reflexivity|]. cbn [Object.remove].
  destruct (String.eqb k0 k') eqn:E; cbn [Object.get].
  - apply String.eqb_eq in E as ->.
    destruct (String.eqb k' k) eqn:E'; [|reflexivity].
    apply String.eqb_eq in E'. congruence.
  - by rewrite IH.
Qed.

Lemma get_remove_eq (k : string) (o : Obj) :
  NoDup (Object.keys o) → Object.get k (Object.remove k o) = None.
Proof.
  induction o as [|[k0 v0] o IH]; intros Hnd; [reflexivity|].
  cbn [Object.keys map fst] in Hnd. apply NoDup_cons in Hnd as [Hfresh Hnd].
  cbn [Object.remove]. destruct (String.eqb k0 k) eqn:E.
  - apply String.eqb_eq in E as ->. apply hasOwn_false_get.
    destruct (Object.hasOwn k o) eqn:Hown; [|reflexivity].
    apply hasOwn_true in Hown. contradiction.
  - cbn [Object.get]. rewrite E. by apply IH.
Qed.

End RemoveFacts.

(** X12.  Isolation in a per-field scenario.  The object sent for the
    targeted field has the keys of the valid baseline, in the same order,
    holds under every other key the value of the baseline, and holds under
    the targeted key the value of the invalid value generator: at most the
    targeted field differs from the baseline. *)
Theorem invalidData_changes_one_field (rnd : RandomSource) (bodyObj : JValue)
    (domain : string) (timestamp : Z) (staticAttributes : list StaticAttribute)
    (next next' : nat) (baseValidData : Obj) (field : string) :
  generateValidTestData rnd bodyObj domain timestamp staticAttributes next
    = Normal (baseValidData, next') →
  field ∈ Object.keys (Object.spread bodyObj) →
  Object.keys (invalidData_of bodyObj field baseValidData) = Object.keys baseValidData ∧
  Object.get field (invalidData_of bodyObj field baseValidData)
    = Some (generateInvalidValue field (Object.prop bodyObj field)) ∧
  ∀ k, k ≠ field →
       Object.get k (invalidData_of bodyObj field baseValidData)
         = Object.get k baseValidData.
Proof.
  intros Hgen Hfield. apply generateValidTestData_keys in Hgen.
  unfold invalidData_of. split; [|split].
  - apply keys_set_own. by rewrite Hgen.
  - apply get_set_eq.
  - intros k Hne. by apply get_set_ne.
Qed.

(** The registration payload with its password as the target. *)
Lemma invalidData_changes_one_field_witness :
  Object.get "password"
    (invalidData_of Demo.register_payload "password"
       [("email", JStr "sophie.simon.1755943608718@example.com");
        ("password", JStr "StrongPwd456!")]) = Some (JStr "123") ∧
  Object.get "email"
    (invalidData_of Demo.register_payload "password"
       [("email", JStr "sophie.simon.1755943608718@example.com");
        ("password", JStr "StrongPwd456!")])
    = Some (JStr "sophie.simon.1755943608718@example.com").
Proof.
  destruct (invalidData_changes_one_field Demo.zeros Demo.register_payload "auth"
              1755943608718 [] 0 0
              [("email", JStr "sophie.simon.1755943608718@example.com");
               ("password", JStr "StrongPwd456!")]
              "password") as (_ & Hget & Hothers).
  - vm_compute. reflexivity.
  - apply list_elem_of_In. simpl. tauto.
  - split; [exact Hget|]. by rewrite (Hothers "email").
Defined.

(** X13.  The field that the missing-field scenario deletes.  It is the
    first field that is not pinned, when its name is not empty; when every
    field is pinned it is the first field of the payload, which is deleted
    although it is pinned; for a payload without fields it is the text
    [undefined].  In an object with distinct keys the deletion removes that
    key and leaves the value under every other key. *)
Theorem requiredField_choice (staticAttributes : list StaticAttribute)
    (fields : list string) :
  (∀ before field after,
     fields = (before ++ field :: after)%list →
     (∀ f, f ∈ before → isStatic staticAttributes f = true) →
     isStatic staticAttributes field = false → field ≠ "" →
     requiredField_of staticAttributes fields = field) ∧
  ((∀ f, f ∈ fields → isStatic staticAttributes f = true) →
   requiredField_of staticAttributes fields = default "undefined" (head fields)) ∧
  (∀ (o : Obj) k, NoDup (Object.keys o) →
     Object.get (requiredField_of staticAttributes fields)
       (Object.remove (requiredField_of staticAttributes fields) o) = None ∧
     (k ≠ requiredField_of staticAttributes fields →
      Object.get k (Object.remove (requiredField_of staticAttributes fields) o)
        = Object.get k o)).
Proof.
  split; [|split].
  - intros before field after -> Hbefore Hfree Hne. unfold requiredField_of.
    assert (List.find (fun f => negb (isStatic staticAttributes f))
              (before ++ field :: after) = Some field) as ->.
    { induction before as [|b before IH]; cbn [app List.find].
      - by rewrite Hfree.
      - rewrite (Hbefore b ltac:(by left)). cbn [negb]. apply IH.
        intros f Hf. apply Hbefore. by right. }
    destruct field; [done | reflexivity].
  - intros Hall. unfold requiredField_of.
    assert (List.find (fun f => negb (isStatic staticAttributes f)) fields = None) as ->.
    { induction fields as [|f fields' IH]; [reflexivity|]. cbn [List.find].
      rewrite (Hall f ltac:(by left)). cbn [negb]. apply IH.
      intros g Hg. apply Hall. by right. }
    reflexivity.
  - intros o k Hnd. split; [by apply get_remove_eq | intros Hne; by apply get_remove_ne].
Qed.

(** Both fields pinned: the first one is the one deleted. *)
Lemma requiredField_choice_witness :
  requiredField_of [{| name := "a"; value := "1" |}; {| name := "b"; value := "2" |}]
    ["a"; "b"] = "a" ∧
  requiredField_of [{| name := "a"; value := "1" |}] ["a"; "b"] = "b".
Proof.
  split.
  - rewrite (proj1 (proj2 (requiredField_choice
               [{| name := "a"; value := "1" |}; {| name := "b"; value := "2" |}]
               ["a"; "b"]))); [reflexivity|].
    intros f Hf. apply list_elem_of_In in Hf. destruct Hf as [<-|[<-|[]]]; reflexivity.
  - apply (proj1 (requiredField_choice [{| name := "a"; value := "1" |}] ["a"; "b"])
             ["a"] "b" []); [reflexivity | | reflexivity | discriminate].
    intros f Hf. apply list_elem_of_In in Hf. destruct Hf as [<-|[]]. reflexivity.
Defined.

(** X14.  The battery without a usable body.  For a request without body,
    or with an empty one, the builder returns exactly five scenarios, the
    two authentication probes, the injection probe, the not-found probe and
    the conflict probe, all without body, and draws no random number.  For a
    body that is not JSON it returns these five and the rate-limit probe,
    six scenarios that all carry the original body unchanged. *)
Theorem fallback_without_json_body {P : Platform} (rnd : RandomSource)
    (parsedCurl : RequestDescriptor) (apiContext : ApiContext)
    (staticAttributes : list StaticAttribute) (timestamp : Z) (next : nat) :
  let result :=
    generateComprehensiveFallback rnd parsedCurl apiContext staticAttributes timestamp next in
  (body_or_undefined (body parsedCurl) = None →
   snd result = next ∧
   map Scenario.expectedStatus (fst result) = [Some 401; Some 401; Some 400; Some 404; Some 409] ∧
   Forall (fun sc => Scenario.body sc = None) (fst result)) ∧
  (∀ text, body parsedCurl = Some text → Js.truthy text = true → JSON_parse text = None →
   snd result = next ∧
   map Scenario.expectedStatus (fst result)
     = [Some 401; Some 401; Some 400; Some 429; Some 404; Some 409] ∧
   Forall (fun sc => Scenario.body sc = Some text) (fst result)).
Proof.
  cbn zeta. unfold generateComprehensiveFallback, business_scenarios, performance_scenarios.
  split.
  - intros Hnone. rewrite Hnone. cbn [fst snd app].
    unfold security_scenarios, http_error_scenarios. rewrite Hnone.
    split; [reflexivity|]. split; [reflexivity|]. repeat constructor.
  - intros text Hbody Htruthy Hparse.
    assert (body_or_undefined (body parsedCurl) = Some text) as Hsome.
    { unfold body_or_undefined. by rewrite Hbody, Htruthy. }
    rewrite Hsome, Hparse. cbn [fst snd app].
    unfold security_scenarios, http_error_scenarios. rewrite Hsome.
    split; [reflexivity|]. split; [reflexivity|]. repeat constructor.
Qed.

(** A form-encoded body is not JSON. *)
Lemma fallback_without_json_body_witness :
  let parsedCurl :=
    {| url := "https://api.example.com/items/42"; method := "POST"; headers := ∅;
       body := Some "k=v&w=1" |} in
  map Scenario.url
    (fst (generateComprehensiveFallback (P := Demo.platform) Demo.zeros parsedCurl
            (analyzeApiContext (P := Demo.platform) parsedCurl) [] 1755943608718 0))
  = [ "https://api.example.com/items/42"; "https://api.example.com/items/42";
      "https://api.example.com/items/42?id=1' OR '1'='1";
      "https://api.example.com/items/42";
      "https://api.example.com/items/999999"; "https://api.example.com/items/42" ].
Proof.
  intros parsedCurl.
  pose proof (proj2 (fallback_without_json_body (P := Demo.platform) Demo.zeros parsedCurl
                (analyzeApiContext (P := Demo.platform) parsedCurl) [] 1755943608718 0)
                "k=v&w=1" eq_refl eq_refl eq_refl) as Hsix.
  vm_compute. reflexivity.
Defined.

(** ** The not-found probe *)
Section NotFoundFacts.
Import Regex.

Lemma star_greedy_some (p : ascii → bool) (s : string) (k : string → option Match) :
  (∀ t, is_Some (k t)) → is_Some (star_greedy p s k).
Proof.
  intros Hk. induction s as [|c s IH]; cbn [star_greedy]; [apply Hk|].
  destruct (p c); [|apply Hk].
  destruct (star_greedy p s k); [by eexists | apply Hk].
Qed.

(** A greedy star over a run of matching characters stops at its end. *)
Lemma star_greedy_run (p : ascii → bool) (run rest : string) (k : string → option Match)
    (m : Match) :
  (∀ c, Js.includes run (String c EmptyString) = true → p c = true) →
  match rest with EmptyString => True | String c _ => p c = false end →
  k rest = Some m →
  star_greedy p (run +:+ rest) k = Some m.
Proof.
  intros Hrun Hrest Hk. induction run as [|d run IH].
  - change (EmptyString +:+ rest) with rest.
    destruct rest as [|c rest]; cbn [star_greedy]; [exact Hk|]. by rewrite Hrest.
  - change (String d run +:+ rest) with (String d (run +:+ rest)). cbn [star_greedy].
    rewrite (Hrun d), IH; [reflexivity| |].
    + intros c Hc. apply Hrun. cbn [Js.includes]. rewrite Hc. apply orb_true_r.
    + apply includes_prefix. simpl. destruct (ascii_dec d d); [by destruct run | done].
Qed.

(** The pattern matches at the start of a text exactly when the text starts
    with a slash and a digit. *)
Lemma numeric_segment_here (s : string) :
  is_Some (match_here numeric_segment s) ↔
  ∃ d t, s = String "/"%char (String d t) ∧ Js.is_digit d = true.
Proof.
  unfold match_here, numeric_segment, plus. cbn [run].
  destruct s as [|a [|b t]].
  - split; [intros [? ?]; discriminate | intros (d & t & Hs & _); discriminate].
  - destruct (Ascii.eqb "/"%char a);
      (split; [intros [? ?]; discriminate | intros (d & t & Hs & _); discriminate]).
  - destruct (Ascii.eqb "/"%char a) eqn:Ea.
    + apply Ascii.eqb_eq in Ea as <-. destruct (Js.is_digit b) eqn:Eb.
      * split; [intros _; by exists b, t|]. intros _.
        apply star_greedy_some. intros ?. by eexists.
      * split; [intros [? ?]; discriminate|].
        intros (d & t' & Hs & Hd). injection Hs as <- _. congruence.
    + split; [intros [? ?]; discriminate|].
      intros (d & t' & Hs & _). injection Hs as -> _ _.
      rewrite Ascii.eqb_refl in Ea. discriminate.
Qed.

Lemma replace_first_no_match (r : regex) (replacement s : string) :
  search r s = None → replace_first r replacement s = s.
Proof.
  induction s as [|c s IH]; cbn [search replace_first].
  - destruct (match_here r EmptyString) as [[? ?]|]; [discriminate | reflexivity].
  - destruct (match_here r (String c s)) as [[? ?]|]; [discriminate|].
    intros Hs. by rewrite (IH Hs).
Qed.

Lemma search_none_here (r : regex) (s : string) :
  search r s = None → match_here r s = None.
Proof.
  destruct s; cbn [search]; destruct (match_here r _); (discriminate || reflexivity).
Qed.

Lemma search_none_tail (r : regex) (c : ascii) (s : string) :
  search r (String c s) = None → search r s = None.
Proof. cbn [search]. destruct (match_here r (String c s)); [discriminate | done]. Qed.

End NotFoundFacts.

(** X15.  The URL of the not-found probe.  A URL in which no slash is
    followed by a digit is left as it is.  Otherwise the digits after the
    first such slash, all of them, are replaced by [999999], and what
    precedes and what follows is kept. *)
Theorem not_found_url (before digits after : string) :
  Regex.search numeric_segment before = None →
  (replace_first numeric_segment "/999999" before = before) ∧
  (digits ≠ "" →
   (∀ c, Js.includes digits (String c EmptyString) = true → Js.is_digit c = true) →
   match after with EmptyString => True | String c _ => Js.is_digit c = false end →
   replace_first numeric_segment "/999999" (before +:+ "/" +:+ digits +:+ after)
     = before +:+ "/999999" +:+ after).
Proof.
  intros Hbefore. split; [by apply replace_first_no_match|].
  intros Hne Hdigits Hafter.
  assert (Regex.match_here numeric_segment ("/" +:+ digits +:+ after) = Some (None, after))
    as Hsegment.
  { destruct digits as [|d digits]; [done|].
    change ("/" +:+ String d digits +:+ after)
      with (String "/"%char (String d (digits +:+ after))).
    unfold Regex.match_here, numeric_segment, Regex.plus. cbn [Regex.run].
    rewrite Ascii.eqb_refl, (Hdigits d).
    - apply star_greedy_run; [|exact Hafter | reflexivity].
      intros c Hc. apply Hdigits. cbn [Js.includes]. rewrite Hc. apply orb_true_r.
    - apply includes_prefix. simpl. destruct (ascii_dec d d); [by destruct digits | done]. }
  induction before as [|c before IH].
  - change (EmptyString +:+ "/" +:+ digits +:+ after) with ("/" +:+ digits +:+ after).
    destruct digits as [|d digits]; [done|].
    change ("/" +:+ String d digits +:+ after)
      with (String "/"%char (String d (digits +:+ after))) in *.
    cbn [replace_first]. rewrite Hsegment. reflexivity.
  - change (String c before +:+ "/" +:+ digits +:+ after)
      with (String c (before +:+ "/" +:+ digits +:+ after)).
    cbn [replace_first].
    destruct (Regex.match_here numeric_segment
                (String c (before +:+ "/" +:+ digits +:+ after))) as [m|] eqn:Hm.
    + exfalso.
      assert (is_Some (Regex.match_here numeric_segment
                         (String c (before +:+ "/" +:+ digits +:+ after)))) as Hsome
        by (by rewrite Hm).
      apply numeric_segment_here in Hsome as (d & t & Hs & Hd).
      injection Hs as -> Hs.
      pose proof (search_none_here _ _ Hbefore) as Hhere.
      destruct before as [|b before].
      * change (EmptyString +:+ "/" +:+ digits +:+ after)
          with (String "/"%char (digits +:+ after)) in Hs.
        injection Hs as <- _. discriminate Hd.
      * change (String b before +:+ "/" +:+ digits +:+ after)
          with (String b (before +:+ "/" +:+ digits +:+ after)) in Hs.
        injection Hs as -> _.
        assert (is_Some (Regex.match_here numeric_segment
                           (String "/"%char (String d before)))) as [m' Hm'].
        { apply numeric_segment_here. by exists d, before. }
        rewrite Hm' in Hhere. discriminate.
    + rewrite (IH (search_none_tail _ _ _ Hbefore)). reflexivity.
Qed.

(** A URL with two numeric segments: the first one is replaced. *)
Lemma not_found_url_witness :
  replace_first numeric_segment "/999999" "https://api.example.com/users/42/orders/7"
    = "https://api.example.com/users/999999/orders/7" ∧
  replace_first numeric_segment "/999999" "https://api.example.com/users"
    = "https://api.example.com/users".
Proof.
  split.
  - apply (proj2 (not_found_url "https://api.example.com/users" "42" "/orders/7" eq_refl)).
    + discriminate.
    + intros c Hc. cbn [Js.includes] in Hc. simpl in Hc.
      destruct (ascii_dec c "4"%char) as [->|]; [reflexivity|].
      destruct (ascii_dec c "2"%char) as [->|]; [reflexivity|]. discriminate.
    + reflexivity.
  - apply (proj1 (not_found_url "https://api.example.com/users" "" "" eq_refl)).
Defined.
(** ** The object cut out of the answer of the model *)
Section ExtractFacts.
Import Extract.

Lemma includes_char_skip (c x : ascii) (s : string) :
  x ≠ c → Js.includes s (String c EmptyString) = false →
  Js.includes (String x s) (String c EmptyString) = false.
Proof.
  intros Hx Hs. cbn [Js.includes]. rewrite Hs, orb_false_r. simpl.
  destruct (ascii_dec c x); [congruence | reflexivity].
Qed.

Lemma from_first_brace_none (s : string) :
  from_first_brace s = None → Js.includes s "{" = false.
Proof.
  induction s as [|c s IH]; [reflexivity|]. cbn [from_first_brace].
  destruct (Ascii.eqb c "{"%char) eqn:E; [discriminate|].
  intros Hs. apply includes_char_skip; [|by apply IH].
  intros ->. discriminate E.
Qed.

Lemma from_first_brace_some (s text : string) :
  from_first_brace s = Some text →
  ∃ before rest, s = before +:+ text ∧ text = String "{"%char rest ∧
                 Js.includes before "{" = false.
Proof.
  induction s as [|c s IH]; [discriminate|]. cbn [from_first_brace].
  destruct (Ascii.eqb c "{"%char) eqn:E.
  - apply Ascii.eqb_eq in E as ->. intros [= <-]. by exists EmptyString, s.
  - intros Hs. destruct (IH Hs) as (before & rest & -> & -> & Hbefore).
    exists (String c before), rest. split; [reflexivity|]. split; [reflexivity|].
    apply includes_char_skip; [|exact Hbefore]. intros ->. discriminate E.
Qed.

Lemma depth_cons (c : ascii) (s : string) :
  depth (String c s)
    = (if Ascii.eqb c "{"%char then 1 else if Ascii.eqb c "}"%char then -1 else 0) + depth s.
Proof. reflexivity. Qed.

(** Where the loop stops: at the first closing brace that brings the count
    to zero. *)
Lemma scan_some (s : string) (braceCount : Z) (object : string) :
  0 < braceCount → scan s braceCount = Some object →
  ∃ init after,
    object = init +:+ "}" ∧ s = object +:+ after ∧ braceCount + depth object = 0 ∧
    ∀ p q, object = p +:+ q → q ≠ EmptyString → 0 < braceCount + depth p.
Proof.
  revert braceCount object. induction s as [|c s IH]; intros bc object Hbc; [discriminate|].
  cbn [scan].
  assert (∀ bc' delta o',
            0 < bc' → bc' = bc + delta → depth (String c EmptyString) = delta →
            scan s bc' = Some o' →
            ∃ init after,
              String c o' = init +:+ "}" ∧ String c s = String c o' +:+ after ∧
              bc + depth (String c o') = 0 ∧
              ∀ p q, String c o' = p +:+ q → q ≠ EmptyString → 0 < bc + depth p) as Hstep.
  { intros bc' delta o' Hbc' -> Hdelta Ho'.
    destruct (IH _ _ Hbc' Ho') as (init & after & -> & -> & Hzero & Hpre).
    exists (String c init), after. split; [reflexivity|]. split; [reflexivity|].
    rewrite depth_cons in Hdelta |- *. change (depth EmptyString) with 0 in Hdelta.
    split; [lia|].
    intros [|x p] q Hpq Hq; [change (depth EmptyString) with 0; lia|].
    change (String x p +:+ q) with (String x (p +:+ q)) in Hpq.
    injection Hpq as <- Hpq. specialize (Hpre p q Hpq Hq).
    rewrite depth_cons. lia. }
  destruct (Ascii.eqb c "{"%char) eqn:Eopen.
  - destruct (scan s (bc + 1)) as [o'|] eqn:Ho'; [|discriminate]. intros [= <-].
    apply (Hstep (bc + 1) 1 o'); [lia | reflexivity | | exact Ho'].
    rewrite depth_cons, Eopen. reflexivity.
  - destruct (Ascii.eqb c "}"%char) eqn:Eclose.
    + destruct (bc - 1 =? 0) eqn:Ezero.
      * intros [= <-]. apply Ascii.eqb_eq in Eclose as ->.
        exists EmptyString, s. split; [reflexivity|]. split; [reflexivity|].
        split; [change (depth "}") with (-1); lia|].
        intros [|x p] q Hpq Hq; [change (depth EmptyString) with 0; lia|].
        change (String x p +:+ q) with (String x (p +:+ q)) in Hpq.
        injection Hpq as _ Hpq. destruct p; [|discriminate].
        change (EmptyString +:+ q) with q in Hpq. congruence.
      * destruct (scan s (bc - 1)) as [o'|] eqn:Ho'; [|discriminate]. intros [= <-].
        apply (Hstep (bc - 1) (-1) o'); [lia | lia | | exact Ho'].
        rewrite depth_cons, Eopen, Eclose. reflexivity.
    + destruct (scan s bc) as [o'|] eqn:Ho'; [|discriminate]. intros [= <-].
      apply (Hstep bc 0 o'); [lia | lia | | exact Ho'].
      rewrite depth_cons, Eopen, Eclose. reflexivity.
Qed.

(** Where it does not stop: the count stays positive to the end of the
    text. *)
Lemma scan_none (s : string) (braceCount : Z) :
  0 < braceCount → scan s braceCount = None →
  ∀ p q, s = p +:+ q → 0 < braceCount + depth p.
Proof.
  revert braceCount. induction s as [|c s IH]; intros bc Hbc Hscan p q Hpq.
  - destruct p; [change (depth EmptyString) with 0; lia | discriminate].
  - destruct p as [|x p]; [change (depth EmptyString) with 0; lia|].
    change (String x p +:+ q) with (String x (p +:+ q)) in Hpq.
    injection Hpq as <- Hpq. cbn [scan] in Hscan. rewrite depth_cons.
    destruct (Ascii.eqb c "{"%char) eqn:Eopen.
    + destruct (scan s (bc + 1)) eqn:Hs; [discriminate|].
      specialize (IH (bc + 1) ltac:(lia) Hs p q Hpq). lia.
    + destruct (Ascii.eqb c "}"%char) eqn:Eclose.
      * destruct (bc - 1 =? 0) eqn:Ezero; [discriminate|].
        destruct (scan s (bc - 1)) eqn:Hs; [discriminate|].
        specialize (IH (bc - 1) ltac:(lia) Hs p q Hpq). lia.
      * destruct (scan s bc) eqn:Hs; [discriminate|].
        specialize (IH bc Hbc Hs p q Hpq). lia.
Qed.

(** The loop run on what it has cut out cuts out the same. *)
Lemma scan_fixed (s : string) (braceCount : Z) (object : string) :
  scan s braceCount = Some object → scan object braceCount = Some object.
Proof.
  revert braceCount object. induction s as [|c s IH]; intros bc object; [discriminate|].
  cbn [scan].
  destruct (Ascii.eqb c "{"%char) eqn:Eopen.
  - destruct (scan s (bc + 1)) as [o'|] eqn:Ho'; [|discriminate]. intros [= <-].
    cbn [scan]. by rewrite Eopen, (IH _ _ Ho').
  - destruct (Ascii.eqb c "}"%char) eqn:Eclose.
    + destruct (bc - 1 =? 0) eqn:Ezero.
      * intros [= <-]. cbn [scan]. by rewrite Eopen, Eclose, Ezero.
      * destruct (scan s (bc - 1)) as [o'|] eqn:Ho'; [|discriminate]. intros [= <-].
        cbn [scan]. by rewrite Eopen, Eclose, Ezero, (IH _ _ Ho').
    + destruct (scan s bc) as [o'|] eqn:Ho'; [|discriminate]. intros [= <-].
      cbn [scan]. by rewrite Eopen, Eclose, (IH _ _ Ho').
Qed.

End ExtractFacts.

(** X16.  The object that the generation route cuts out of the answer of the
    model starts at the first opening brace of the text and ends at the
    first closing brace at which the braces opened so far are all closed:
    it is balanced and none of its proper prefixes is.  A text without an
    opening brace, and a text whose first opening brace is never closed, are
    errors, each with its own message. *)
Theorem extract_or_throw_balanced (jsonString : string) :
  match Extract.extract_or_throw jsonString with
  | Normal object =>
      ∃ before inner after,
        jsonString = before +:+ object +:+ after ∧
        Js.includes before "{" = false ∧
        object = "{" +:+ inner +:+ "}" ∧
        Extract.depth object = 0 ∧
        ∀ p q, object = p +:+ q → p ≠ EmptyString → q ≠ EmptyString → 0 < Extract.depth p
  | Throw message =>
      (message = "No JSON object found in AI response" ∧
       Js.includes jsonString "{" = false) ∨
      (message = "Incomplete JSON object in AI response" ∧
       ∃ before text,
         jsonString = before +:+ "{" +:+ text ∧
         Js.includes before "{" = false ∧
         ∀ p q, text = p +:+ q → 0 < Extract.depth ("{" +:+ p))
  end.
Proof.
  unfold Extract.extract_or_throw.
  destruct (Extract.from_first_brace jsonString) as [text|] eqn:Hfirst.
  - destruct (from_first_brace_some _ _ Hfirst) as (before & rest & -> & -> & Hbefore).
    cbn [Extract.scan]. change (Ascii.eqb "{" "{") with true. cbn iota.
    change (0 + 1) with 1.
    destruct (Extract.scan rest 1) as [object|] eqn:Hscan; cbn [fmap option_fmap option_map].
    + destruct (scan_some rest 1 object ltac:(lia) Hscan) as (init & after & -> & -> & Hzero & Hpre).
      exists before, init, after. split; [reflexivity|]. split; [exact Hbefore|].
      split; [reflexivity|]. split; [rewrite depth_cons; change (Ascii.eqb "{" "{") with true; lia|].
      intros [|x p] q Hpq Hp Hq; [done|].
      change (String x p +:+ q) with (String x (p +:+ q)) in Hpq.
      injection Hpq as <- Hpq. rewrite depth_cons. change (Ascii.eqb "{" "{") with true.
      cbn iota. apply (Hpre p q Hpq Hq).
    + right. split; [reflexivity|]. exists before, rest.
      split; [reflexivity|]. split; [exact Hbefore|].
      intros p q Hpq. change ("{" +:+ p) with (String "{"%char p).
      rewrite depth_cons. change (Ascii.eqb "{" "{") with true. cbn iota.
      apply (scan_none rest 1 ltac:(lia) Hscan p q Hpq).
  - left. split; [reflexivity|]. by apply from_first_brace_none.
Qed.

(** X17.  The analysis route cuts the object out in the same way, but keeps
    the text as it is where the generation route raises an error; cutting
    out of what has been cut out changes nothing. *)
Theorem extract_or_keep_idempotent (jsonString : string) :
  Extract.extract_or_keep jsonString
    = match Extract.extract_or_throw jsonString with
      | Normal object => object
      | Throw _ => jsonString
      end ∧
  Extract.extract_or_keep (Extract.extract_or_keep jsonString)
    = Extract.extract_or_keep jsonString.
Proof.
  split.
  - unfold Extract.extract_or_keep, Extract.extract_or_throw.
    destruct (Extract.from_first_brace jsonString) as [text|]; [|reflexivity].
    by destruct (Extract.scan text 0).
  - unfold Extract.extract_or_keep at 2 3.
    destruct (Extract.from_first_brace jsonString) as [text|] eqn:Hfirst.
    + destruct (Extract.scan text 0) as [object|] eqn:Hscan.
      * destruct (from_first_brace_some _ _ Hfirst) as (before & rest & _ & -> & _).
        pose proof (scan_fixed _ _ _ Hscan) as Hfixed.
        cbn [Extract.scan] in Hscan. change (Ascii.eqb "{" "{") with true in Hscan.
        cbn iota in Hscan.
        destruct (Extract.scan rest (0 + 1)) as [o'|]; [|discriminate].
        injection Hscan as <-.
        unfold Extract.extract_or_keep. cbn [Extract.from_first_brace].
        change (Ascii.eqb "{" "{") with true. cbn iota. by rewrite Hfixed.
      * unfold Extract.extract_or_keep. by rewrite Hfirst, Hscan.
    + unfold Extract.extract_or_keep. by rewrite Hfirst.
Qed.
(** ** The request that is sent and the verdict on its answer *)
Section RequestFacts.
Context {P : Platform}.

Lemma default_headers_lookup (k : string) :
  k ≠ "User-Agent" → k ≠ "Accept" → default_headers !! k = None.
Proof.
  intros Hua Hacc. unfold default_headers.
  rewrite !lookup_insert_ne by done. apply lookup_empty.
Qed.

Lemma header_missing_false (headers : gmap string string) (k : string) :
  header_missing headers k = false ↔ ∃ v, headers !! k = Some v ∧ v ≠ EmptyString.
Proof.
  unfold header_missing. destruct (headers !! k) as [[|c v]|]; simpl.
  - split; [discriminate | intros (v & [= <-] & Hv); done].
  - split; [intros _; by eexists | reflexivity].
  - split; [discriminate | intros (v & Hv & _); discriminate].
Qed.

Lemma content_type_for_truthy (body : string) : content_type_for body ≠ EmptyString.
Proof.
  unfold content_type_for.
  destruct (bool_decide _); [discriminate|]. by destruct (_ && _).
Qed.

(** The outcome of the [try] block decides every field of the result. *)
Lemma executeTest_attempt (w : Exchange) (scenario : TestScenario) :
  attempt w scenario
    = (if URL_valid (Scenario.url scenario) then
         match fetch w (Scenario.url scenario) (requestOptions_of scenario) with
         | Rejected e => inl e
         | Resolved response =>
             inr {| Result.scenario := scenario;
                    Result.success := response_status response =? effective_expected scenario;
                    Result.status := response_status response;
                    Result.responseTime := endTime w - startTime w;
                    Result.error := None;
                    Result.response := Some (responseData_of (response_text response));
                    Result.payload := body_or_undefined (Scenario.body scenario) |}
         end
       else inl (ErrorObject ("URL invalide: " +:+ Scenario.url scenario))).
Proof. reflexivity. Qed.

End RequestFacts.

(** X18.  A result is a success exactly when the URL is well formed, the
    request is answered, and the status of the answer is the expected one,
    where a scenario that gives no expected status, or gives 0, expects the
    default of its method (201 for POST, 204 for DELETE, 200 otherwise).  A
    success carries no error; a result with an error is a failure with the
    status 0. *)
Theorem executeTest_success {P : Platform} (w : Exchange) (scenario : TestScenario) :
  (Result.success (executeTest w scenario) = true ↔
   URL_valid (Scenario.url scenario) = true ∧
   ∃ response,
     fetch w (Scenario.url scenario) (requestOptions_of scenario) = Resolved response ∧
     response_status response = effective_expected scenario) ∧
  (Result.success (executeTest w scenario) = true →
   Result.error (executeTest w scenario) = None ∧
   Result.status (executeTest w scenario) = effective_expected scenario) ∧
  (is_Some (Result.error (executeTest w scenario)) →
   Result.success (executeTest w scenario) = false ∧
   Result.status (executeTest w scenario) = 0) ∧
  ((Scenario.expectedStatus scenario = None ∨ Scenario.expectedStatus scenario = Some 0) →
   effective_expected scenario = default_status (Scenario.method scenario)) ∧
  (∀ expected, Scenario.expectedStatus scenario = Some expected → expected ≠ 0 →
   effective_expected scenario = expected).
Proof.
  unfold executeTest. rewrite executeTest_attempt.
  destruct (URL_valid (Scenario.url scenario)) eqn:Hurl.
  - destruct (fetch w (Scenario.url scenario) (requestOptions_of scenario))
      as [e|response] eqn:Hfetch; cbn [Result.success Result.error Result.status].
    + split; [split; [discriminate | intros (_ & r & [=] & _)]|].
      split; [discriminate|]. split; [done|].
      unfold effective_expected. split.
      * intros [-> | ->]; reflexivity.
      * intros expected -> Hne. by destruct (Z.eqb_spec expected 0).
    + split.
      { rewrite Z.eqb_eq. split.
        - intros Heq. split; [reflexivity|]. by exists response.
        - intros (_ & r & [= <-] & Heq). exact Heq. }
      split; [by rewrite Z.eqb_eq|]. split; [intros [? [=]]|].
      unfold effective_expected. split.
      * intros [-> | ->]; reflexivity.
      * intros expected -> Hne. by destruct (Z.eqb_spec expected 0).
  - cbn [Result.success Result.error Result.status].
    split; [split; [discriminate | intros ([=] & _)]|].
    split; [discriminate|]. split; [done|].
    unfold effective_expected. split.
    + intros [-> | ->]; reflexivity.
    + intros expected -> Hne. by destruct (Z.eqb_spec expected 0).
Qed.

(** A POST that expects the status 0 passes on the answer 201. *)
Lemma executeTest_success_witness :
  Result.success
    (executeTest (P := Demo.platform) Demo.exchange
       (Demo.scenario "https://api.example.com/register" 0)) = true ∧
  Result.error
    (executeTest (P := Demo.platform) Demo.exchange
       (Demo.scenario "https://api.example.com/register" 0)) = None.
Proof.
  destruct (executeTest_success (P := Demo.platform) Demo.exchange
              (Demo.scenario "https://api.example.com/register" 0))
    as (Hiff & Hsuccess & _ & Hdefault & _).
  assert (Result.success
            (executeTest (P := Demo.platform) Demo.exchange
               (Demo.scenario "https://api.example.com/register" 0)) = true) as Hok.
  { apply Hiff. split; [reflexivity|].
    eexists. split; [reflexivity|].
    rewrite Hdefault; [reflexivity | right; reflexivity]. }
  split; [exact Hok | apply (Hsuccess Hok)].
Defined.

(** X19.  The request that is sent.  It has the method of the scenario and
    its body, an empty body counting as none.  A header that the scenario
    gives with a non-empty value is sent as given, and [User-Agent] and
    [Accept] are always sent.  A request with a body always carries a
    non-empty [Content-Type] or [content-type]: the one of the scenario, or
    else one inferred from the body.  A request without a body gets no
    [Content-Type] of the executor's own, and no header other than
    [Content-Type] is ever inferred. *)
Theorem request_headers_invariants {P : Platform} (scenario : TestScenario) :
  let supplied := default ∅ (Scenario.headers scenario) in
  let options := requestOptions_of scenario in
  init_method options = Scenario.method scenario ∧
  init_body options = body_or_undefined (Scenario.body scenario) ∧
  (∀ k v, supplied !! k = Some v → v ≠ EmptyString → init_headers options !! k = Some v) ∧
  is_Some (init_headers options !! "User-Agent") ∧
  is_Some (init_headers options !! "Accept") ∧
  (∀ k, k ≠ "Content-Type" →
     init_headers options !! k = (supplied ∪ default_headers) !! k) ∧
  (is_Some (init_body options) →
   ∃ v, v ≠ EmptyString ∧
        (init_headers options !! "Content-Type" = Some v ∨
         init_headers options !! "content-type" = Some v)) ∧
  (init_body options = None →
   init_headers options !! "Content-Type" = supplied !! "Content-Type").
Proof.
  intros supplied options. subst options. unfold requestOptions_of.
  fold supplied.
  assert (∀ k, is_Some (default_headers !! k) → is_Some ((supplied ∪ default_headers) !! k))
    as Hdefaults.
  { intros k [v Hv]. destruct (supplied !! k) as [v'|] eqn:Hk.
    - exists v'. by apply lookup_union_Some_l.
    - exists v. by rewrite lookup_union_r. }
  assert ((supplied ∪ default_headers) !! "Content-Type" = supplied !! "Content-Type") as Hct.
  { destruct (supplied !! "Content-Type") as [v|] eqn:Hk.
    - by apply lookup_union_Some_l.
    - rewrite lookup_union_r by done. by apply default_headers_lookup. }
  assert ((supplied ∪ default_headers) !! "content-type" = supplied !! "content-type") as Hlc.
  { destruct (supplied !! "content-type") as [v|] eqn:Hk.
    - by apply lookup_union_Some_l.
    - rewrite lookup_union_r by done. by apply default_headers_lookup. }
  destruct (body_or_undefined (Scenario.body scenario)) as [body|] eqn:Hbody;
    cbn [init_method init_headers init_body].
  - split; [reflexivity|]. split; [reflexivity|].
    destruct (header_missing (supplied ∪ default_headers) "Content-Type") eqn:Hm1;
      [destruct (header_missing (supplied ∪ default_headers) "content-type") eqn:Hm2|];
      cbn [andb].
    + split.
      { intros k v Hk Hv. destruct (decide (k = "Content-Type")) as [->|Hne].
        - exfalso. assert (header_missing (supplied ∪ default_headers) "Content-Type" = false)
            as Hfalse; [|congruence].
          apply header_missing_false. exists v. by rewrite Hct.
        - rewrite lookup_insert_ne by done. by apply lookup_union_Some_l. }
      split; [rewrite lookup_insert_ne by done; by apply Hdefaults|].
      split; [rewrite lookup_insert_ne by done; by apply Hdefaults|].
      split; [intros k Hk; by rewrite lookup_insert_ne|].
      split; [|discriminate].
      intros _. exists (content_type_for body). split; [apply content_type_for_truthy|].
      left. apply lookup_insert_eq.
    + split; [intros k v Hk Hv; by apply lookup_union_Some_l|].
      split; [by apply Hdefaults|]. split; [by apply Hdefaults|].
      split; [reflexivity|]. split; [|discriminate].
      intros _. apply header_missing_false in Hm2 as (v & Hv & Hne).
      exists v. split; [exact Hne | by right].
    + split; [intros k v Hk Hv; by apply lookup_union_Some_l|].
      split; [by apply Hdefaults|]. split; [by apply Hdefaults|].
      split; [reflexivity|]. split; [|discriminate].
      intros _. apply header_missing_false in Hm1 as (v & Hv & Hne).
      exists v. split; [exact Hne | by left].
  - split; [reflexivity|]. split; [reflexivity|].
    split; [intros k v Hk Hv; by apply lookup_union_Some_l|].
    split; [by apply Hdefaults|]. split; [by apply Hdefaults|].
    split; [reflexivity|]. split; [intros [? [=]]|]. intros _. exact Hct.
Qed.

(** A JSON body sent without headers of the scenario's own. *)
Lemma request_headers_invariants_witness :
  init_headers
    (requestOptions_of (P := Demo.platform)
       (Demo.scenario "https://api.example.com/register" 201)) !! "Content-Type"
    = Some "application/json".
Proof.
  destruct (request_headers_invariants (P := Demo.platform)
              (Demo.scenario "https://api.example.com/register" 201))
    as (_ & Hbody & _ & _ & _ & _ & Htype & _).
  destruct Htype as (v & _ & [Hv | Hv]).
  - rewrite Hbody. by eexists.
  - rewrite Hv. f_equal. vm_compute in Hv. by injection Hv as <-.
  - exfalso. vm_compute in Hv. discriminate Hv.
Defined.
(** ** From the executor to the analysis and to the page *)
Section DisplayFacts.

Lemma at_least_of_Z (n c : Z) : Page.at_least (Num.of_Z n) c = (c <=? n).
Proof.
  unfold Page.at_least, Num.of_Z, Qle_bool, inject_Z. cbn [Qnum Qden].
  by rewrite !Z.mul_1_r.
Qed.

(** The integer nearest to [10 * passed / total] reaches [k] exactly when
    the pass rate reaches [k - 1/2] tenths. *)
Lemma nearest_reaches (passed total k : Z) :
  0 < total →
  k ≤ (2 * (10 * passed) + total) / (2 * total) ↔ (2 * k - 1) * total ≤ 20 * passed.
Proof.
  intros Ht. split.
  - intros Hk.
    destruct (Z_lt_le_dec (20 * passed) ((2 * k - 1) * total)) as [Hlt|]; [|done].
    assert ((2 * (10 * passed) + total) / (2 * total) < k); [|lia].
    apply Z.div_lt_upper_bound; lia.
  - intros Hk. apply Z.div_le_lower_bound; lia.
Qed.

Lemma removeStaticAttribute_from (k : nat) (l : list StaticAttribute) (index : nat) :
  omap (fun entry : nat * StaticAttribute =>
          if (fst entry =? index)%nat then None else Some (snd entry))
       (imap (fun i attr => ((k + i)%nat, attr)) l)
    = if (index <? k)%nat then l else delete (index - k)%nat l.
Proof.
  revert k. induction l as [|x l IH]; intros k.
  - by destruct (index <? k)%nat.
  - rewrite imap_cons. cbn [omap list_omap fst snd].
    rewrite (imap_ext _ (fun i attr => ((S k + i)%nat, attr)))
      by (intros; simpl; f_equal; lia).
    rewrite (IH (S k)).
    destruct (Nat.eqb_spec (k + 0) index) as [Heq|Hne].
    + destruct (Nat.ltb_spec index (S k)); [|lia].
      destruct (Nat.ltb_spec index k); [lia|].
      replace (index - k)%nat with 0%nat by lia. reflexivity.
    + destruct (Nat.ltb_spec index k).
      * destruct (Nat.ltb_spec index (S k)); [reflexivity | lia].
      * destruct (Nat.ltb_spec index (S k)); [lia|].
        replace (index - k)%nat with (S (index - S k)) by lia. reflexivity.
Qed.

End DisplayFacts.

(** X20.  The colour of the reliability score of the analysis built without
    the model, the pass rate being defined: green when at least three
    quarters of the tests passed, yellow when at least eleven in twenty did,
    red otherwise. *)
Theorem reliability_colour_thresholds (results : list TestResult) (summary : Summary) :
  0 < total summary →
  Page.getReliabilityColor (reliability_score (fallbackAnalysis results summary))
    = if 3 * total summary <=? 4 * passed summary then "text-green-500"
      else if 11 * total summary <=? 20 * passed summary then "text-yellow-500"
      else "text-red-500".
Proof.
  intros Ht. cbn [fallbackAnalysis reliability_score].
  rewrite (reliability_score_value summary Ht).
  unfold Page.getReliabilityColor. rewrite !at_least_of_Z.
  pose proof (nearest_reaches (passed summary) (total summary) 8 Ht) as H8.
  pose proof (nearest_reaches (passed summary) (total summary) 6 Ht) as H6.
  set (nearest := (2 * (10 * passed summary) + total summary) / (2 * total summary)) in *.
  destruct (Z.leb_spec 8 (Z.max 1 (Z.min 10 nearest)));
    destruct (Z.leb_spec 6 (Z.max 1 (Z.min 10 nearest)));
    destruct (Z.leb_spec (3 * total summary) (4 * passed summary));
    destruct (Z.leb_spec (11 * total summary) (20 * passed summary));
    (reflexivity || lia).
Qed.

(** Three tests out of four passed: the score is 8 and the colour green;
    two out of four: 5 and red. *)
Lemma reliability_colour_thresholds_witness :
  Page.getReliabilityColor
    (reliability_score
       (fallbackAnalysis []
          {| total := 4; passed := 3; failed := 1; avgResponseTime := Num.of_Z 120 |}))
    = "text-green-500" ∧
  Page.getReliabilityColor
    (reliability_score
       (fallbackAnalysis []
          {| total := 4; passed := 2; failed := 2; avgResponseTime := Num.of_Z 120 |}))
    = "text-red-500".
Proof.
  split.
  - apply (reliability_colour_thresholds []
             {| total := 4; passed := 3; failed := 1; avgResponseTime := Num.of_Z 120 |}).
    simpl. lia.
  - apply (reliability_colour_thresholds []
             {| total := 4; passed := 2; failed := 2; avgResponseTime := Num.of_Z 120 |}).
    simpl. lia.
Defined.

(** X21.  The two authentication probes of the fallback suite expect the
    status 401.  A scenario that expects 401 and passes has been answered
    with 401, so the analysis built without the model rates it [vulnerable],
    although its status is [success], and lists the authentication issue for
    the whole run. *)
Theorem passing_authentication_probe_is_flagged {P : Platform}
    (parsedCurl : RequestDescriptor) (w : Exchange) (scenario : TestScenario)
    (results : list TestResult) (summary : Summary) :
  (∀ probe, probe ∈ take 2 (security_scenarios parsedCurl) →
     Scenario.expectedStatus probe = Some 401) ∧
  (Scenario.expectedStatus scenario = Some 401 →
   Result.success (executeTest w scenario) = true →
   executeTest w scenario ∈ results →
   Result.status (executeTest w scenario) = 401 ∧
   analysis_status (analyze_scenario (executeTest w scenario)) = "success" ∧
   security_level (analyze_scenario (executeTest w scenario)) = "vulnerable" ∧
   scenario_security_issues (analyze_scenario (executeTest w scenario))
     = [Js.latin1 "Problème d'authentification"] ∧
   security_issues (fallbackAnalysis results summary) = [authentication_issue]).
Proof.
  split.
  { intros probe Hprobe. cbn [security_scenarios take] in Hprobe.
    apply elem_of_cons in Hprobe as [-> | Hprobe]; [reflexivity|].
    apply elem_of_cons in Hprobe as [-> | Hprobe]; [reflexivity|].
    by apply elem_of_nil in Hprobe. }
  intros Hexpected Hsuccess Hin.
  assert (Result.status (executeTest w scenario) = 401) as Hstatus.
  { revert Hsuccess. unfold executeTest, attempt.
    destruct (URL_valid (Scenario.url scenario)); [|discriminate].
    destruct (fetch w (Scenario.url scenario) (requestOptions_of scenario));
      [discriminate|].
    cbn [Result.success Result.status]. rewrite Hexpected.
    change (401 =? 0) with false. cbn iota. by rewrite Z.eqb_eq. }
  split; [exact Hstatus|].
  unfold analyze_scenario.
  cbn [analysis_status security_level scenario_security_issues].
  rewrite Hsuccess, Hstatus. do 3 (split; [reflexivity|]).
  cbn [fallbackAnalysis security_issues].
  assert (existsb (fun r => Result.status r =? 401) results = true) as ->; [|reflexivity].
  apply unauthorized_flagged. by exists (executeTest w scenario).
Qed.

(** A server that answers 401 to everything, and the first probe against
    it. *)
Lemma passing_authentication_probe_is_flagged_witness :
  let server :=
    {| startTime := 0; endTime := 35;
       fetch := fun _ _ => Resolved {| response_status := 401; response_text := inr "" |} |} in
  let probe :=
    {| Scenario.name := Js.latin1 "Sécurité - Authentification manquante";
       Scenario.description := "Test sans token d'authentification";
       Scenario.method := "GET";
       Scenario.url := "https://api.example.com/users";
       Scenario.headers := None;
       Scenario.body := None;
       Scenario.expectedStatus := Some 401 |} in
  let result := executeTest (P := Demo.platform) server probe in
  Result.success result = true ∧
  security_level (analyze_scenario result) = "vulnerable" ∧
  security_issues
    (fallbackAnalysis [result]
       {| total := 1; passed := 1; failed := 0; avgResponseTime := Num.of_Z 35 |})
    = [authentication_issue].
Proof.
  intros server probe result.
  destruct (passing_authentication_probe_is_flagged (P := Demo.platform)
              emptyDescriptor server probe [result]
              {| total := 1; passed := 1; failed := 0; avgResponseTime := Num.of_Z 35 |})
    as (_ & Hflag).
  destruct Hflag as (_ & _ & Hlevel & _ & Hissues).
  - reflexivity.
  - reflexivity.
  - apply list_elem_of_In. simpl. tauto.
  - split; [reflexivity|]. split; [exact Hlevel | exact Hissues].
Defined.

(** X22.  The page displays every scenario of the analysis built without the
    model with one of the values it knows: the badge, the colour of the
    rating and the colour of the security level never come from the default
    branch of the page. *)
Theorem fallback_analysis_is_displayed (result : TestResult) :
  Page.getStatusBadgeVariant (analysis_status (analyze_scenario result))
    = (if Result.success result then "default" else "destructive") ∧
  Page.getPerformanceColor (performance_rating (analyze_scenario result))
    = (if Result.responseTime result <? 200 then "text-green-600"
       else if Result.responseTime result <? 500 then "text-blue-600"
       else if Result.responseTime result <? 1000 then "text-yellow-600"
       else "text-red-600") ∧
  Page.getSecurityColor (security_level (analyze_scenario result))
    = (if Result.status result =? 401 then "text-red-600"
       else if Result.success result then "text-green-600"
       else "text-yellow-600") ∧
  Page.getStatusBadgeVariant (analysis_status (analyze_scenario result)) ≠ "outline" ∧
  Page.getPerformanceColor (performance_rating (analyze_scenario result)) ≠ "text-gray-600" ∧
  Page.getSecurityColor (security_level (analyze_scenario result)) ≠ "text-gray-600".
Proof.
  unfold analyze_scenario, rating_of.
  cbn [analysis_status performance_rating security_level].
  destruct (Result.success result); destruct (Result.status result =? 401);
    destruct (Result.responseTime result <? 200);
    destruct (Result.responseTime result <? 500);
    destruct (Result.responseTime result <? 1000);
    vm_compute; repeat split; discriminate.
Qed.

(** X23.  The reliability score of a run, computed from the summary of the
    run itself.  A run without scenarios has no score: it is [NaN].  Any
    other run has an integer score from 1 to 10, which is 10 when every test
    passed and 1, not 0, when none did. *)
Theorem reliability_of_a_run {P : Platform} (world : nat → Exchange)
    (scs : list TestScenario) :
  let results := run_all world scs in
  let score := reliability_score (fallbackAnalysis results (summarize results)) in
  (scs = [] → score = Num.NaN) ∧
  (scs ≠ [] →
   ∃ n, score = Num.of_Z n ∧ 1 ≤ n ≤ 10 ∧
        (passed (summarize results) = total (summarize results) → n = 10) ∧
        (passed (summarize results) = 0 → n = 1)).
Proof.
  intros results score. split.
  - intros ->. reflexivity.
  - intros Hne. subst score. cbn [fallbackAnalysis reliability_score].
    assert (0 < total (summarize results)) as Ht.
    { unfold summarize. cbn [total]. subst results. rewrite run_all_length.
      destruct scs; [done | cbn [length]; lia]. }
    rewrite (reliability_score_value _ Ht). eexists. split; [reflexivity|].
    split; [lia|]. split.
    + intros ->.
      assert ((2 * (10 * total (summarize results)) + total (summarize results))
                / (2 * total (summarize results)) = 10) as ->; [|reflexivity].
      symmetry. apply (Z.div_unique _ _ 10 (total (summarize results))); lia.
    + intros ->.
      assert ((2 * (10 * 0) + total (summarize results))
                / (2 * total (summarize results)) = 0) as ->; [|reflexivity].
      apply Z.div_small. lia.
Qed.

(** A run of one scenario that fails, and the run of nothing. *)
Lemma reliability_of_a_run_witness :
  reliability_score
    (fallbackAnalysis
       (run_all (P := Demo.platform) Demo.world [Demo.scenario "nope" 201])
       (summarize (run_all (P := Demo.platform) Demo.world [Demo.scenario "nope" 201])))
    = Num.of_Z 1 ∧
  reliability_score
    (fallbackAnalysis
       (run_all (P := Demo.platform) Demo.world [])
       (summarize (run_all (P := Demo.platform) Demo.world [])))
    = Num.NaN.
Proof.
  destruct (reliability_of_a_run (P := Demo.platform) Demo.world [Demo.scenario "nope" 201])
    as (_ & Hscore).
  destruct (reliability_of_a_run (P := Demo.platform) Demo.world []) as (Hnone & _).
  split; [|exact (Hnone eq_refl)].
  destruct (Hscore ltac:(discriminate)) as (n & -> & _ & _ & Hzero).
  f_equal. apply Hzero. reflexivity.
Defined.

(** X24.  The rows of static attributes on the page.  Removing a row deletes
    the row at that index and no other, so removing the row that has just
    been added gives the rows back.  A row that has just been added is
    blank, and blank rows are not sent to the generation route: what is sent
    are the rows, in their order, whose name and value both have a character
    that is not a space. *)
Theorem static_attribute_rows (staticAttributes : list StaticAttribute) (index : nat) :
  Page.removeStaticAttribute staticAttributes index = delete index staticAttributes ∧
  Page.removeStaticAttribute (Page.addStaticAttribute staticAttributes)
    (length staticAttributes) = staticAttributes ∧
  Page.validStaticAttributes (Page.addStaticAttribute staticAttributes)
    = Page.validStaticAttributes staticAttributes ∧
  (∀ attr, attr ∈ Page.validStaticAttributes staticAttributes ↔
           attr ∈ staticAttributes ∧
           Js.trim (name attr) ≠ EmptyString ∧ Js.trim (value attr) ≠ EmptyString).
Proof.
  assert (∀ l i, Page.removeStaticAttribute l i = delete i l) as Hremove.
  { intros l i. unfold Page.removeStaticAttribute.
    pose proof (removeStaticAttribute_from 0 l i) as Hfrom.
    destruct (Nat.ltb_spec i 0); [lia|]. rewrite Nat.sub_0_r in Hfrom. exact Hfrom. }
  split; [apply Hremove|]. split; [|split].
  - rewrite Hremove. unfold Page.addStaticAttribute.
    induction staticAttributes as [|x l IH]; [reflexivity|].
    simpl. f_equal. exact IH.
  - unfold Page.validStaticAttributes, Page.addStaticAttribute.
    rewrite List.filter_app. cbn [List.filter name value].
    change (Js.truthy (Js.trim EmptyString)) with false. cbn [andb].
    apply app_nil_r.
  - intros attr. unfold Page.validStaticAttributes.
    rewrite !list_elem_of_In, List.filter_In, andb_true_iff.
    assert (∀ s, Js.truthy s = true ↔ s ≠ EmptyString) as Htruthy
      by (intros [|? ?]; simpl; split; (done || discriminate)).
    by rewrite !Htruthy.
Qed.
(** ** Where a match ends and what its group holds *)
Section CaptureFacts.
Import Regex.

Lemma includes_char_inv (c x : ascii) (s : string) :
  Js.includes (String x s) (String c EmptyString) = true →
  c = x ∨ Js.includes s (String c EmptyString) = true.
Proof.
  cbn [Js.includes]. intros H. apply orb_true_iff in H as [H|H]; [left | by right].
  simpl in H. by destruct (ascii_dec c x).
Qed.

(** What a greedy star has consumed when its continuation succeeds. *)
Lemma star_greedy_reaches (p : ascii → bool) (s : string) (k : string → option Match)
    (m : Match) :
  star_greedy p s k = Some m →
  ∃ pre s', s = pre +:+ s' ∧
            (∀ c, Js.includes pre (String c EmptyString) = true → p c = true) ∧
            k s' = Some m.
Proof.
  induction s as [|c s IH]; cbn [star_greedy]; intros H.
  - exists EmptyString, EmptyString. split; [reflexivity|]. split; [discriminate | exact H].
  - assert (k (String c s) = Some m →
            ∃ pre s', String c s = pre +:+ s' ∧
              (∀ c, Js.includes pre (String c EmptyString) = true → p c = true) ∧
              k s' = Some m) as Hstop.
    { intros Hk. exists EmptyString, (String c s).
      split; [reflexivity|]. split; [discriminate | exact Hk]. }
    destruct (p c) eqn:Hc; [|by apply Hstop].
    destruct (star_greedy p s k) as [m'|] eqn:Hs; [|by apply Hstop].
    injection H as ->. destruct (IH eq_refl) as (pre & s' & -> & Hpre & Hk).
    exists (String c pre), s'. split; [reflexivity|]. split; [|exact Hk].
    intros x Hx. apply includes_char_inv in Hx as [-> | Hx]; [exact Hc | by apply Hpre].
Qed.

Lemma star_lazy_reaches (p : ascii → bool) (s : string) (k : string → option Match)
    (m : Match) :
  star_lazy p s k = Some m → ∃ pre s', s = pre +:+ s' ∧ k s' = Some m.
Proof.
  induction s as [|c s IH]; cbn [star_lazy]; intros H.
  - destruct (k EmptyString) eqn:Hk; [|discriminate].
    exists EmptyString, EmptyString. by rewrite <- H.
  - destruct (k (String c s)) eqn:Hk.
    + exists EmptyString, (String c s). by rewrite <- H.
    + destruct (p c); [|discriminate].
      destruct (IH H) as (pre & s' & -> & Hs'). by exists (String c pre), s'.
Qed.

(** A successful run ends in a successful call of its continuation, on a
    suffix of the input. *)
Lemma run_reaches (r : regex) (s : string) (cap : option string) (k : Cont) (m : Match) :
  run r s cap k = Some m → ∃ pre s' cap', s = pre +:+ s' ∧ k s' cap' = Some m.
Proof.
  revert s cap k. induction r as [|p|r1 IH1 r2 IH2|r1 IH1 r2 IH2|r1 IH1|p|p|r1 IH1|];
    intros s cap k H; cbn [run] in H.
  - by exists EmptyString, s, cap.
  - destruct s as [|c s]; [discriminate|]. destruct (p c); [|discriminate].
    by exists (String c EmptyString), s, cap.
  - destruct (IH1 _ _ _ H) as (pre1 & s1 & cap1 & -> & H1).
    destruct (IH2 _ _ _ H1) as (pre2 & s2 & cap2 & -> & H2).
    exists (pre1 +:+ pre2), s2, cap2. by rewrite app_assoc_string.
  - destruct (run r1 s cap k) eqn:E1.
    + injection H as ->. by apply (IH1 _ _ _ E1).
    + by apply (IH2 _ _ _ H).
  - destruct (run r1 s cap k) eqn:E1.
    + injection H as ->. by apply (IH1 _ _ _ E1).
    + by exists EmptyString, s, cap.
  - destruct (star_greedy_reaches _ _ _ _ H) as (pre & s' & -> & _ & Hk).
    by exists pre, s', cap.
  - destruct (star_lazy_reaches _ _ _ _ H) as (pre & s' & -> & Hk).
    by exists pre, s', cap.
  - destruct (IH1 _ _ _ H) as (pre & s' & cap' & -> & Hk). by eexists pre, s', _.
  - destruct s; [|discriminate]. by exists EmptyString, EmptyString, cap.
Qed.

Lemma plus_reaches (p : ascii → bool) (s : string) (cap : option string) (k : Cont)
    (m : Match) :
  run (plus p) s cap k = Some m →
  ∃ c pre s', s = String c (pre +:+ s') ∧ p c = true ∧
              (∀ x, Js.includes pre (String x EmptyString) = true → p x = true) ∧
              k s' cap = Some m.
Proof.
  unfold plus. cbn [run]. destruct s as [|c s]; [discriminate|].
  destruct (p c) eqn:Hc; [|discriminate]. intros H.
  destruct (star_greedy_reaches _ _ _ _ H) as (pre & s' & -> & Hpre & Hk).
  by exists c, pre, s'.
Qed.

Lemma search_reaches (r : regex) (s : string) (m : Match) :
  search r s = Some m → ∃ a b, s = a +:+ b ∧ match_here r b = Some m.
Proof.
  induction s as [|c s IH]; cbn [search].
  - destruct (match_here r EmptyString) eqn:E; [|discriminate].
    intros [= <-]. by exists EmptyString, EmptyString.
  - destruct (match_here r (String c s)) eqn:E.
    + intros [= <-]. by exists EmptyString, (String c s).
    + intros H. destruct (IH H) as (a & b & -> & Hb). by exists (String c a), b.
Qed.

Lemma substring_prefix (a b : string) : String.substring 0 (String.length a) (a +:+ b) = a.
Proof.
  induction a as [|c a IH]; [by destruct b|].
  change (String c a +:+ b) with (String c (a +:+ b)). cbn [String.length String.substring].
  by rewrite IH.
Qed.

Lemma run_seq (r1 r2 : regex) (s : string) (cap : option string) (k : Cont) :
  run (Seq r1 r2) s cap k = run r1 s cap (fun s' cap' => run r2 s' cap' k).
Proof. reflexivity. Qed.

(** The URL pattern at the start of a text: the keyword, then anything the
    pattern allows, then the group, which is a non-empty run of characters
    of its class. *)
Lemma url_pattern_here (b : string) (m : Match) :
  match_here Curl.url_pattern b = Some m →
  ∃ skipped c pre after,
    b = "curl" +:+ skipped +:+ String c pre +:+ after ∧
    fst m = Some (String c pre) ∧
    ∀ x, Js.includes (String c pre) (String x EmptyString) = true →
         negb (quote x || Ascii.eqb x ">"%char || Js.is_space x) = true.
Proof.
  unfold match_here, Curl.url_pattern. cbn [seq]. intros H.
  rewrite run_seq in H. apply run_lit in H as (rest1 & -> & H).
  rewrite run_seq in H. apply run_reaches in H as (pre2 & s2 & cap2 & -> & H).
  rewrite run_seq in H. apply run_reaches in H as (pre3 & s3 & cap3 & -> & H).
  rewrite run_seq in H. apply run_reaches in H as (pre4 & s4 & cap4 & -> & H).
  rewrite run_seq in H. cbn [run] in H.
  change (run (plus ?p) ?s ?cap ?k) with (run (plus p) s cap k) in H.
  apply plus_reaches in H as (c & pre & s' & -> & Hc & Hpre & H).
  apply star_greedy_reaches in H as (pre6 & s6 & -> & _ & H).
  injection H as <-. cbn [fst].
  exists (pre2 +:+ pre3 +:+ pre4), c, pre, (pre6 +:+ s6).
  split; [|split].
  - change (String c (pre +:+ pre6 +:+ s6)) with (String c pre +:+ pre6 +:+ s6).
    by rewrite !app_assoc_string.
  - f_equal.
    replace (S (String.length (pre +:+ pre6 +:+ s6)) - String.length (pre6 +:+ s6))%nat
      with (S (String.length pre)) by (rewrite !length_append_string; lia).
    f_equal. apply substring_prefix.
  - intros x Hx. apply includes_char_inv in Hx as [-> | Hx]; [exact Hc | by apply Hpre].
Qed.

End CaptureFacts.

(** X25.  The URL of the descriptor.  When it is not empty, it stands in the
    cleaned command after the keyword [curl], and it holds no quote, no
    [>] and no white space: the pattern never returns a URL with its
    quotes or with a redirection. *)
Theorem parseCurlCommand_url_shape (curlCommand : string) (d : RequestDescriptor) :
  Curl.parseCurlCommand curlCommand = Normal d →
  url d ≠ EmptyString →
  (∃ before after,
     Curl.cleanCurl_of curlCommand = before +:+ url d +:+ after ∧
     Js.includes before "curl" = true) ∧
  ∀ c, Js.includes (url d) (String c EmptyString) = true →
       Regex.quote c = false ∧ c ≠ ">"%char ∧ Js.is_space c = false.
Proof.
  rewrite parseCurlCommand_normal. unfold Curl.parse_body. intros Hd Hurl.
  injection Hd as <-. cbn [url] in Hurl |- *.
  destruct (Regex.search Curl.url_pattern (Curl.cleanCurl_of curlCommand)) as [m|] eqn:Hm;
    [|done].
  destruct (search_reaches _ _ _ Hm) as (a & b & Hclean & Hb).
  destruct (url_pattern_here _ _ Hb) as (skipped & c & pre & after & -> & Hgroup & Hclass).
  unfold Curl.group1. rewrite Hgroup. cbn [default]. split.
  - exists (a +:+ "curl" +:+ skipped), after. split.
    + rewrite Hclean. by rewrite !app_assoc_string.
    + apply includes_intro.
  - intros x Hx. specialize (Hclass x Hx).
    apply negb_true_iff, orb_false_iff in Hclass as [Hclass Hspace].
    apply orb_false_iff in Hclass as [Hquote Hgt].
    split; [exact Hquote|]. split; [|exact Hspace].
    intros ->. discriminate Hgt.
Qed.

(** A quoted URL after a method flag. *)
Lemma parseCurlCommand_url_shape_witness :
  ∃ d, Curl.parseCurlCommand "curl -X POST 'https://x.test/a b' > out" = Normal d ∧
       url d = "https://x.test/a" ∧
       Js.includes (url d) "'" = false.
Proof.
  assert (∃ d, Curl.parseCurlCommand "curl -X POST 'https://x.test/a b' > out" = Normal d)
    as [d Hd] by (eexists; vm_compute; reflexivity).
  assert (url d = "https://x.test/a") as Hurl
    by (vm_compute in Hd; injection Hd as <-; reflexivity).
  exists d. split; [exact Hd|]. split; [exact Hurl|].
  destruct (parseCurlCommand_url_shape _ d Hd) as (_ & Hclass).
  - rewrite Hurl. discriminate.
  - destruct (Js.includes (url d) "'") eqn:E; [|reflexivity].
    destruct (Hclass "'"%char E) as (Hquote & _). discriminate Hquote.
Defined.

(** ** The field classifier *)
Section FieldFacts.
Import Regex.

Lemma run_alt (r1 r2 : regex) (s : string) (cap : option string) (k : Cont) (m : Match) :
  run (Alt r1 r2) s cap k = Some m → run r1 s cap k = Some m ∨ run r2 s cap k = Some m.
Proof. cbn [run]. destruct (run r1 s cap k); [intros [= <-]; by left | by right]. Qed.

Lemma run_opt (r : regex) (s : string) (cap : option string) (k : Cont) (m : Match) :
  run (Opt r) s cap k = Some m → run r s cap k = Some m ∨ k s cap = Some m.
Proof. cbn [run]. destruct (run r s cap k); [intros [= <-]; by left | by right]. Qed.

Lemma run_group (r : regex) (s : string) (cap : option string) (k : Cont) :
  run (Group r) s cap k
    = run r s cap
        (fun s' _ => k s' (Some (String.substring 0 (String.length s - String.length s') s))).
Proof. reflexivity. Qed.

Lemma run_sequence (r1 r2 : regex) (s : string) (cap : option string) (k : Cont) :
  run (Seq r1 r2) s cap k = run r1 s cap (fun s' cap' => run r2 s' cap' k).
Proof. reflexivity. Qed.

(** A stem, an optional underscore and [name]. *)
Lemma stem_name_here (stem s : string) (cap : option string) (k : Cont) (m : Match) :
  run (seq [lit stem; Opt (lit "_"); lit "name"]) s cap k = Some m →
  ∃ rest, (s = stem +:+ "_name" +:+ rest ∨ s = stem +:+ "name" +:+ rest) ∧
          k rest cap = Some m.
Proof.
  cbn [seq]. rewrite run_sequence. intros H.
  apply run_lit in H as (rest1 & -> & H). rewrite run_sequence in H.
  apply run_opt in H as [H|H].
  - apply run_lit in H as (rest2 & -> & H). apply run_lit in H as (rest3 & -> & H).
    exists rest3. split; [by left | exact H].
  - apply run_lit in H as (rest3 & -> & H). exists rest3. split; [by right | exact H].
Qed.

Lemma human_name_pattern_spellings (s : string) :
  is_Some (match_here human_name_pattern s) ↔ s ∈ human_name_spellings.
Proof.
  split.
  - intros [m H]. unfold match_here, human_name_pattern in H. cbv beta zeta in H.
    rewrite run_sequence, run_group in H.
    set (k := fun (s' : string) (_ : option string) => _) in H.
    assert (∀ rest cap, k rest cap = Some m → rest = EmptyString) as Hend.
    { intros [|? ?] cap Hrest; [reflexivity | discriminate Hrest]. }
    clearbody k.
    do 4 (apply run_alt in H as [H|H];
          [apply stem_name_here in H as (rest & [-> | ->] & H);
             rewrite (Hend _ _ H); apply list_elem_of_In; vm_compute; tauto|]).
    apply run_alt in H as [H|H];
      apply run_lit in H as (rest & -> & H);
      rewrite (Hend _ _ H); apply list_elem_of_In; vm_compute; tauto.
  - intros Hs. unfold human_name_spellings in Hs.
    repeat (apply elem_of_cons in Hs as [-> | Hs]; [vm_compute; by eexists|]).
    inversion Hs.
Qed.

End FieldFacts.

(** X26.  The field classifier.  Its answer does not depend on the domain it
    is given.  A field is a human name exactly when its name is, letter case
    apart, one of ten spellings; only human names and fields that no rule
    recognises do not need uniqueness. *)
Theorem analyzeFieldContext_human_names (fieldName domain domain' : string) :
  analyzeFieldContext fieldName domain = analyzeFieldContext fieldName domain' ∧
  (dataType (analyzeFieldContext fieldName domain) = human_name ↔
   Js.toLowerCase fieldName ∈ human_name_spellings) ∧
  (needsUniqueness (analyzeFieldContext fieldName domain) = false ↔
   dataType (analyzeFieldContext fieldName domain) = human_name ∨
   dataType (analyzeFieldContext fieldName domain) = generic).
Proof.
  split; [|split].
  - unfold analyzeFieldContext.
    repeat match goal with |- context [if ?b then _ else _] => destruct b end;
      reflexivity.
  - rewrite <- human_name_pattern_spellings. unfold analyzeFieldContext.
    destruct (bool_decide (is_Some
                (Regex.match_here human_name_pattern (Js.toLowerCase fieldName)))) eqn:E.
    + apply bool_decide_eq_true in E. by split.
    + apply bool_decide_eq_false in E. split; [|done]. intros H. exfalso.
      revert H.
      (repeat match goal with |- context [if ?b then _ else _] => destruct b end;
        discriminate).
  - unfold analyzeFieldContext.
    (repeat match goal with |- context [if ?b then _ else _] => destruct b end;
      cbn [needsUniqueness dataType]; split;
      try (intros [? | ?]); (discriminate || reflexivity || (by left) || (by right))).
Qed.

(** X27.  The value of a human-name key.  A key that is, letter case apart,
    [firstname] or [first_name] gets an element of the pool of first names;
    each of the other eight spellings, the given name and [prenom] among
    them, gets an element of the pool of last names.  No random number is
    drawn and the current value plays no part. *)
Theorem human_name_keys_draw_from_name_pools (rnd : RandomSource) (domain : string)
    (timestamp : Z) (key : string) (current : option JValue) (next : nat) :
  Js.toLowerCase key ∈ human_name_spellings →
  ∃ pool,
    pool = (if bool_decide (Js.toLowerCase key ∈ ["first_name"; "firstname"])
            then Pools.firstNames else Pools.lastNames) ∧
    synthesize rnd domain timestamp key current next
      = (Some (JStr (pick pool (index_of timestamp key))), next) ∧
    pick pool (index_of timestamp key) ∈ pool.
Proof.
  intros Hin. eexists. split; [reflexivity|].
  assert (bool_decide (is_Some
            (Regex.match_here human_name_pattern (Js.toLowerCase key))) = true) as Hhuman
    by (by apply bool_decide_eq_true, human_name_pattern_spellings).
  split.
  - unfold synthesize, analyzeFieldContext. rewrite Hhuman.
    cbn [dataType DataType_eqb].
    remember (Js.toLowerCase key) as lower eqn:Hlower. clear Hlower Hhuman.
    unfold human_name_spellings in Hin.
    repeat (apply elem_of_cons in Hin as [-> | Hin]; [reflexivity|]).
    inversion Hin.
  - apply pick_in_pool; [|apply index_of_range].
    destruct (bool_decide (Js.toLowerCase key ∈ ["first_name"; "firstname"])); intros Hnil; apply (f_equal length) in Hnil;
      vm_compute in Hnil; discriminate Hnil.
Qed.

(** [Given_Name] gets a last name. *)
Lemma human_name_keys_draw_from_name_pools_witness :
  ∃ value,
    synthesize Demo.zeros "user" 1755943608718 "Given_Name" None 0%nat
      = (Some (JStr value), 0%nat) ∧
    value ∈ Pools.lastNames.
Proof.
  destruct (human_name_keys_draw_from_name_pools Demo.zeros "user" 1755943608718
              "Given_Name" None 0%nat) as (pool & -> & Hvalue & Hin).
  - apply list_elem_of_In. simpl. tauto.
  - eexists. split; [exact Hvalue | exact Hin].
Defined.

(** ** The cleaning of the answer of the model *)
Section CleanFacts.
Import Regex.

Lemma trimStart_length (s : string) :
  (String.length (Js.trimStart s) ≤ String.length s)%nat.
Proof.
  induction s as [|c s IH]; [reflexivity|]. cbn [Js.trimStart].
  destruct (Js.is_space c); cbn [String.length]; lia.
Qed.

(** A greedy star before a continuation that always succeeds takes every
    character it can. *)
Lemma star_greedy_all (s : string) (cap : option string) :
  star_greedy Js.is_space s (fun s' => Some (cap, s')) = Some (cap, Js.trimStart s).
Proof.
  induction s as [|c s IH]; [reflexivity|]. cbn [star_greedy Js.trimStart].
  destruct (Js.is_space c); [by rewrite IH | reflexivity].
Qed.

Lemma fence_here (t : string) :
  match_here Clean.fence ("```" +:+ t) = Some (None, Js.trimStart t).
Proof.
  unfold match_here, Clean.fence.
  change ("```" +:+ t) with (String "`"%char (String "`"%char (String "`"%char t))).
  cbn [run lit]. rewrite !Ascii.eqb_refl. apply star_greedy_all.
Qed.

Lemma fence_not_here (s : string) :
  String.prefix "```" s = false → match_here Clean.fence s = None.
Proof.
  intros Hs. destruct (match_here Clean.fence s) as [m|] eqn:E; [|reflexivity].
  unfold Clean.fence in E. apply run_lit in E as (rest & -> & _).
  by rewrite prefix_app in Hs.
Qed.

Lemma prefix_cons (c x : ascii) (p s : string) :
  String.prefix (String c p) (String x s) = true ↔ c = x ∧ String.prefix p s = true.
Proof.
  simpl. destruct (ascii_dec c x) as [->|Hne]; [by split; [|intros [_ ?]]|].
  split; [discriminate | intros [? _]; contradiction].
Qed.

(** What is left when the fences are removed: no fence, and no more
    backticks at its start than the text has. *)
Lemma remove_fences (fuel : nat) (s : string) :
  (String.length s < fuel)%nat →
  Js.includes (Clean.remove_all_fuel fuel Clean.fence s) "```" = false ∧
  (String.prefix "`" (Clean.remove_all_fuel fuel Clean.fence s) = true →
   String.prefix "`" s = true) ∧
  (String.prefix "``" (Clean.remove_all_fuel fuel Clean.fence s) = true →
   String.prefix "``" s = true).
Proof.
  revert s. induction fuel as [|fuel IH]; intros s Hlen; [lia|].
  cbn [Clean.remove_all_fuel].
  destruct (String.prefix "```" s) eqn:Hfence.
  - destruct (prefix_split _ _ Hfence) as [t ->]. rewrite fence_here.
    pose proof (trimStart_length t) as Htrim.
    assert (String.length ("```" +:+ t) = S (S (S (String.length t)))) as Hs by reflexivity.
    rewrite Hs in Hlen |- *.
    destruct (Nat.ltb_spec (String.length (Js.trimStart t)) (S (S (S (String.length t)))));
      [|lia].
    destruct (IH (Js.trimStart t) ltac:(lia)) as (Hnone & _ & _).
    split; [exact Hnone|]. split; reflexivity.
  - rewrite (fence_not_here _ Hfence). destruct s as [|c s]; [by repeat split|].
    cbn [String.length] in Hlen.
    destruct (IH s ltac:(lia)) as (Hnone & Hone & Htwo).
    set (o := Clean.remove_all_fuel fuel Clean.fence s) in *.
    split; [|split].
    + cbn [Js.includes]. rewrite Hnone, orb_false_r.
      destruct (String.prefix "```" (String c o)) eqn:E; [|reflexivity].
      change "```" with (String "`"%char "``") in E, Hfence.
      apply prefix_cons in E as [<- Ho]. exfalso.
      assert (String.prefix (String "`"%char "``") (String "`"%char s) = true) as Hs
        by (apply prefix_cons; split; [reflexivity | by apply Htwo]).
      congruence.
    + change "`" with (String "`"%char EmptyString).
      rewrite !prefix_cons. intros [<- _]. split; [reflexivity | by destruct s].
    + change "``" with (String "`"%char "`").
      rewrite !prefix_cons. intros [<- Ho]. split; [reflexivity | by apply Hone].
Qed.

Lemma includes_suffix (pre s sub : string) :
  Js.includes s sub = true → Js.includes (pre +:+ s) sub = true.
Proof.
  intros Hs. induction pre as [|c pre IH]; [exact Hs|].
  change (String c pre +:+ s) with (String c (pre +:+ s)).
  cbn [Js.includes]. rewrite IH. apply orb_true_r.
Qed.

(** Removing matches adds no character. *)
Lemma remove_all_includes (fuel : nat) (r : regex) (s : string) (c : ascii) :
  Js.includes (Clean.remove_all_fuel fuel r s) (String c EmptyString) = true →
  Js.includes s (String c EmptyString) = true.
Proof.
  revert s. induction fuel as [|fuel IH]; intros s; [done|].
  cbn [Clean.remove_all_fuel].
  assert (Js.includes
            match s with
            | EmptyString => EmptyString
            | String x s' => String x (Clean.remove_all_fuel fuel r s')
            end (String c EmptyString) = true →
          Js.includes s (String c EmptyString) = true) as Hcopy.
  { destruct s as [|x s]; [done|]. intros H.
    apply includes_char_inv in H as [-> | H].
    - apply includes_prefix. simpl. destruct (ascii_dec x x); [by destruct s | done].
    - cbn [Js.includes]. rewrite (IH _ H). apply orb_true_r. }
  destruct (match_here r s) as [[cap rest]|] eqn:Hm; [|exact Hcopy].
  destruct (String.length rest <? String.length s)%nat; [|exact Hcopy].
  intros H. apply run_reaches in Hm as (pre & s' & cap' & -> & [= _ <-]).
  apply includes_suffix. by apply IH.
Qed.

(** A text that starts with an opening brace keeps it when fences are
    removed. *)
Lemma remove_all_keeps_brace (fuel : nat) (r : regex) (rest : string) :
  fuel ≠ 0%nat →
  match_here r (String "{"%char rest) = None →
  ∃ rest', Clean.remove_all_fuel fuel r (String "{"%char rest) = String "{"%char rest'.
Proof.
  intros Hfuel Hm. destruct fuel as [|fuel]; [done|].
  cbn [Clean.remove_all_fuel]. rewrite Hm. by eexists.
Qed.

End CleanFacts.

(** X28.  In the generation route the loop over the introduction patterns
    leaves no code fence in the answer of the model, whatever the answer:
    the code-block pattern that is tried next never matches and the text
    goes on unchanged.  If the cleaned text has an opening brace at all, its
    first character is one. *)
Theorem code_block_never_matches (text : string) :
  Js.includes (Clean.clean_intro text) "```" = false ∧
  Regex.search Clean.code_block_pattern (Clean.clean_intro text) = None ∧
  Clean.unwrap_code_block (Clean.clean_intro text) = Clean.clean_intro text ∧
  (Js.includes (Clean.clean_intro text) "{" = true →
   Extract.from_first_brace (Clean.clean_intro text) = Some (Clean.clean_intro text)).
Proof.
  assert (Js.includes (Clean.clean_intro text) "```" = false) as Hnone.
  { unfold Clean.clean_intro, Clean.remove_all. apply remove_fences. lia. }
  assert (Regex.search Clean.code_block_pattern (Clean.clean_intro text) = None) as Hsearch
    by (by apply (search_lit_absent "```")).
  split; [exact Hnone|]. split; [exact Hsearch|]. split.
  { unfold Clean.unwrap_code_block. by rewrite Hsearch. }
  intros Hbrace. unfold Clean.clean_intro, Clean.remove_all in Hbrace |- *.
  pose proof Hbrace as Hin.
  apply remove_all_includes, remove_all_includes in Hin.
  unfold Clean.drop_intro in Hin |- *.
  destruct (Extract.from_first_brace (Js.trim text)) as [object|] eqn:Hfirst.
  - destruct (from_first_brace_some _ _ Hfirst) as (_ & rest & _ & -> & _).
    cbn [default from_option id].
    destruct (remove_all_keeps_brace (S (String.length (String "{"%char rest)))
                Clean.json_fence rest) as [rest' ->]; [done | reflexivity|].
    destruct (remove_all_keeps_brace (S (String.length (String "{"%char rest')))
                Clean.fence rest') as [rest'' ->]; [done | reflexivity|].
    reflexivity.
  - cbn [default from_option id] in Hin. rewrite (from_first_brace_none _ Hfirst) in Hin. discriminate.
Qed.

(** An answer with an introduction and a fenced object. *)
Lemma code_block_never_matches_witness :
  Clean.unwrap_code_block (Clean.clean_intro "Voici ```json {a:1} ``` fin") = "{a:1} fin".
Proof.
  rewrite (proj1 (proj2 (proj2 (code_block_never_matches _)))).
  vm_compute. reflexivity.
Defined.
(** ** The size of the battery *)
Section BatteryFacts.
Context {P : Platform}.
Variable rnd : RandomSource.
Variable parsedCurl : RequestDescriptor.
Variable apiContext : ApiContext.
Variable staticAttributes : list StaticAttribute.
Variable timestamp : Z.

Lemma field_scenarios_length (bodyObj : JValue) (fields : list string) (index next : nat) :
  (length (field_scenarios rnd parsedCurl apiContext staticAttributes timestamp bodyObj
             fields index next).1.1 ≤ 4 - index)%nat.
Proof.
  revert index next. induction fields as [|field fields IH]; intros index next.
  - cbn [field_scenarios fst length]. lia.
  - cbn [field_scenarios]. destruct (Nat.ltb_spec index 4).
    + destruct (generateValidTestData rnd bodyObj (domain apiContext)
                  (timestamp + Z.of_nat index) staticAttributes next) as [[base next1]|e].
      * specialize (IH (S index) next1).
        destruct (field_scenarios rnd parsedCurl apiContext staticAttributes timestamp
                    bodyObj fields (S index) next1) as [[more next2] completed].
        cbn [fst] in IH |- *. rewrite length_app.
        destruct (isStatic staticAttributes field); cbn [length]; lia.
      * cbn [fst length]. lia.
    + specialize (IH (S index) next). lia.
Qed.

Lemma business_scenarios_length (next : nat) :
  (length (business_scenarios rnd parsedCurl apiContext staticAttributes timestamp next).1
     ≤ 6)%nat.
Proof.
  unfold business_scenarios.
  destruct (body_or_undefined (body parsedCurl)) as [text|]; [|cbn; lia].
  destruct (JSON_parse text) as [bodyObj|]; [|cbn; lia].
  destruct (Object.keys_of bodyObj) as [fields|e]; [|cbn; lia].
  destruct (generateValidTestData rnd bodyObj (domain apiContext) timestamp
              staticAttributes next) as [[validData next1]|e]; [|cbn; lia].
  pose proof (field_scenarios_length bodyObj fields 0 next1) as Hlen.
  destruct (field_scenarios rnd parsedCurl apiContext staticAttributes timestamp bodyObj
              fields 0 next1) as [[per_field next2] completed].
  cbn [fst] in Hlen.
  destruct completed; [|cbn [fst length]; lia].
  destruct (generateValidTestData rnd bodyObj (domain apiContext) (timestamp + 100)
              staticAttributes next2) as [[missing next3]|e]; cbn [fst length].
  - rewrite length_app. cbn [length]. lia.
  - lia.
Qed.

Lemma performance_scenarios_length (next : nat) :
  (length (performance_scenarios rnd parsedCurl apiContext staticAttributes timestamp next).1
     ≤ 1)%nat.
Proof.
  unfold performance_scenarios.
  destruct (body_or_undefined (body parsedCurl)) as [text|]; [|cbn; lia].
  destruct (JSON_parse text) as [bodyObj|]; [|cbn; lia].
  destruct (generateValidTestData rnd bodyObj (domain apiContext) (timestamp + 200)
              staticAttributes next) as [[validData next1]|e]; cbn; lia.
Qed.

Lemma fallback_length (next : nat) :
  length (generateComprehensiveFallback rnd parsedCurl apiContext staticAttributes
            timestamp next).1
  = (length (business_scenarios rnd parsedCurl apiContext staticAttributes timestamp next).1
     + 3
     + length (performance_scenarios rnd parsedCurl apiContext staticAttributes timestamp
                 (business_scenarios rnd parsedCurl apiContext staticAttributes timestamp
                    next).2).1
     + 2)%nat.
Proof.
  unfold generateComprehensiveFallback.
  destruct (business_scenarios rnd parsedCurl apiContext staticAttributes timestamp next)
    as [business next1].
  cbn [fst snd].
  destruct (performance_scenarios rnd parsedCurl apiContext staticAttributes timestamp next1)
    as [performance next2].
  cbn [fst]. rewrite !length_app. cbn [length security_scenarios http_error_scenarios]. lia.
Qed.

End BatteryFacts.

(** X29.  The size of the battery.  The builder returns between 5 and 12
    scenarios, never more.  For a JSON body other than [null] on which the
    generator runs, it returns 8 scenarios and one more for each of the
    first four fields that is not pinned.  For a JSON body on which the
    generator throws, the business scenarios vanish without a trace: the
    battery is that of a body that is not JSON, six scenarios that carry the
    original body. *)
Theorem fallback_battery_size {P : Platform} (rnd : RandomSource)
    (parsedCurl : RequestDescriptor) (apiContext : ApiContext)
    (staticAttributes : list StaticAttribute) (timestamp : Z) (next : nat) :
  let battery :=
    (generateComprehensiveFallback rnd parsedCurl apiContext staticAttributes timestamp
       next).1 in
  (5 ≤ length battery ≤ 12)%nat ∧
  ∀ text bodyObj,
    body parsedCurl = Some text → Js.truthy text = true → JSON_parse text = Some bodyObj →
    (bodyObj ≠ JNull →
     staticAttributes = [] ∨ Object.hasOwn "hasOwnProperty" (Object.spread bodyObj) = false →
     length battery
       = (8 + length (List.filter (fun field => negb (isStatic staticAttributes field))
                        (take 4 (Object.keys (Object.spread bodyObj)))))%nat) ∧
    (staticAttributes ≠ [] →
     Object.hasOwn "hasOwnProperty" (Object.spread bodyObj) = true →
     map Scenario.expectedStatus battery
       = [Some 401; Some 401; Some 400; Some 429; Some 404; Some 409] ∧
     Forall (fun sc => Scenario.body sc = Some text) battery).
Proof.
  intros battery. subst battery. split.
  { rewrite fallback_length.
    pose proof (business_scenarios_length rnd parsedCurl apiContext staticAttributes
                  timestamp next).
    pose proof (performance_scenarios_length rnd parsedCurl apiContext staticAttributes
                  timestamp
                  (business_scenarios rnd parsedCurl apiContext staticAttributes timestamp
                     next).2).
    lia. }
  intros text bodyObj Hbody Htruthy Hparse.
  assert (body_or_undefined (body parsedCurl) = Some text) as Hsome.
  { unfold body_or_undefined. by rewrite Hbody, Htruthy. }
  split.
  - intros Hnull Hok. rewrite fallback_length.
    unfold business_scenarios, performance_scenarios. rewrite Hsome, Hparse.
    assert (Object.keys_of bodyObj = Normal (Object.keys (Object.spread bodyObj))) as ->
      by (by destruct bodyObj).
    destruct (generateValidTestData_normal rnd staticAttributes bodyObj (domain apiContext)
                timestamp next Hok) as (validData & next1 & ->).
    destruct (field_scenarios_shape rnd parsedCurl apiContext staticAttributes timestamp
                bodyObj (Object.keys (Object.spread bodyObj)) 0 next1 Hok)
      as (per_field & next2 & -> & Hnames & _).
    destruct (generateValidTestData_normal rnd staticAttributes bodyObj (domain apiContext)
                (timestamp + 100) next2 Hok) as (missing & next3 & ->).
    cbn [fst snd].
    destruct (generateValidTestData_normal rnd staticAttributes bodyObj (domain apiContext)
                (timestamp + 200) next3 Hok) as (limited & next4 & ->).
    cbn [fst length]. rewrite length_app. cbn [length].
    apply (f_equal length) in Hnames. rewrite !length_map in Hnames.
    change (4 - 0)%nat with 4%nat in Hnames. lia.
  - intros Hne Hown.
    unfold generateComprehensiveFallback, business_scenarios, performance_scenarios.
    rewrite Hsome, Hparse.
    assert (Object.keys_of bodyObj = Normal (Object.keys (Object.spread bodyObj))) as ->.
    { destruct bodyObj; try reflexivity. discriminate Hown. }
    rewrite !(generateValidTestData_throws rnd _ _ staticAttributes bodyObj _ Hne Hown).
    cbn [fst snd app]. unfold security_scenarios, http_error_scenarios. rewrite Hsome.
    split; [reflexivity|]. repeat constructor.
Qed.

(** Two fields, none pinned: ten scenarios. *)
Lemma fallback_battery_size_witness :
  let parsedCurl :=
    {| url := "https://api.example.com/register"; method := "POST"; headers := ∅;
       body := Some (Demo.stringify Demo.register_payload) |} in
  length
    (generateComprehensiveFallback (P := Demo.platform) Demo.zeros parsedCurl
       (analyzeApiContext (P := Demo.platform) parsedCurl) [] 1755943608718 0).1
  = 10%nat.
Proof.
  intros parsedCurl.
  destruct (fallback_battery_size (P := Demo.platform) Demo.zeros parsedCurl
              (analyzeApiContext (P := Demo.platform) parsedCurl) [] 1755943608718 0)
    as (_ & Hsize).
  destruct (Hsize (Demo.stringify Demo.register_payload) Demo.register_payload
              eq_refl eq_refl eq_refl) as (Hcount & _).
  rewrite Hcount; [reflexivity | discriminate | by left].
Defined.
(** ** The headers of the descriptor *)
Section HeaderFacts.

Lemma trimEnd_head (c : ascii) (s : string) :
  Js.trimEnd (String c s) = EmptyString ∨ ∃ t, Js.trimEnd (String c s) = String c t.
Proof.
  cbn [Js.trimEnd]. destruct (Js.trimEnd s) as [|x t].
  - destruct (Js.is_space c); [by left | right; by eexists].
  - right. by eexists.
Qed.

Lemma trimEnd_idempotent (s : string) : Js.trimEnd (Js.trimEnd s) = Js.trimEnd s.
Proof.
  induction s as [|c s IH]; [reflexivity|]. cbn [Js.trimEnd].
  destruct (Js.trimEnd s) as [|x t] eqn:E.
  - destruct (Js.is_space c) eqn:Hc; [reflexivity|]. cbn [Js.trimEnd]. by rewrite Hc.
  - cbn [Js.trimEnd] in IH |- *.
    destruct (Js.trimEnd t) as [|y u] eqn:Et.
    + destruct (Js.is_space x); [discriminate IH|]. by rewrite IH.
    + by rewrite IH.
Qed.

Lemma trimStart_head (s : string) :
  Js.trimStart s = EmptyString ∨
  ∃ c t, Js.trimStart s = String c t ∧ Js.is_space c = false.
Proof.
  induction s as [|c s IH]; [by left|]. cbn [Js.trimStart].
  destruct (Js.is_space c) eqn:Hc; [exact IH|]. right. by exists c, s.
Qed.

Lemma trim_idempotent (s : string) : Js.trim (Js.trim s) = Js.trim s.
Proof.
  unfold Js.trim.
  assert (Js.trimStart (Js.trimEnd (Js.trimStart s)) = Js.trimEnd (Js.trimStart s)) as ->.
  { destruct (trimStart_head s) as [-> | (c & t & -> & Hc)]; [reflexivity|].
    destruct (trimEnd_head c t) as [-> | [u ->]]; [reflexivity|].
    cbn [Js.trimStart]. by rewrite Hc. }
  apply trimEnd_idempotent.
Qed.

(** What holds of every entry that the header loop stores. *)
Lemma add_header_trimmed (headers : gmap string string) (captured : string) :
  (∀ k v, headers !! k = Some v →
          Js.trim k = k ∧ Js.trim v = v ∧ k ≠ "__proto__") →
  ∀ k v, Curl.add_header headers captured !! k = Some v →
         Js.trim k = k ∧ Js.trim v = v ∧ k ≠ "__proto__".
Proof.
  intros Hinv k v. unfold Curl.add_header.
  destruct (Js.split ":"%char captured) as [|key valueParts]; [apply Hinv|].
  destruct (Js.truthy key && (0 <? length valueParts)%nat); [|apply Hinv].
  destruct (String.eqb_spec (Js.trim key) "__proto__") as [Heq|Hne]; [apply Hinv|].
  rewrite lookup_insert_Some. intros [[<- <-] | [_ Hk]]; [|by apply Hinv].
  by rewrite !trim_idempotent.
Qed.

Lemma fold_add_header_trimmed (captures : list string) (headers : gmap string string) :
  (∀ k v, headers !! k = Some v →
          Js.trim k = k ∧ Js.trim v = v ∧ k ≠ "__proto__") →
  ∀ k v, fold_left Curl.add_header captures headers !! k = Some v →
         Js.trim k = k ∧ Js.trim v = v ∧ k ≠ "__proto__".
Proof.
  revert headers. induction captures as [|captured captures IH]; intros headers Hinv.
  - exact Hinv.
  - cbn [fold_left]. apply IH. by apply add_header_trimmed.
Qed.

End HeaderFacts.

(** X30.  The headers of the descriptor.  Every name and every value that
    the parser stores is trimmed: no header of the descriptor starts or ends
    with white space.  No header is named [__proto__], and a request string
    without the flag [-H] gives no header at all. *)
Theorem parseCurlCommand_headers_trimmed (curlCommand : string) (d : RequestDescriptor) :
  Curl.parseCurlCommand curlCommand = Normal d →
  (∀ k v, headers d !! k = Some v →
          Js.trim k = k ∧ Js.trim v = v ∧ k ≠ "__proto__") ∧
  (Js.includes (Curl.cleanCurl_of curlCommand) "-H" = false → headers d = ∅).
Proof.
  rewrite parseCurlCommand_normal. unfold Curl.parse_body. intros Hd.
  injection Hd as <-. cbn [headers]. split.
  - apply fold_add_header_trimmed. intros k v Hk. by rewrite lookup_empty in Hk.
  - intros HH. by rewrite (matchAll_header_absent _ HH).
Qed.

(** A header written with spaces around its name and its value. *)
Lemma parseCurlCommand_headers_trimmed_witness :
  ∃ d, Curl.parseCurlCommand "curl https://x.test/a -H ' Accept :  text/plain '" = Normal d ∧
       headers d !! "Accept" = Some "text/plain" ∧
       Js.trim "text/plain" = "text/plain".
Proof.
  assert (∃ d, Curl.parseCurlCommand "curl https://x.test/a -H ' Accept :  text/plain '"
               = Normal d) as [d Hd] by (eexists; vm_compute; reflexivity).
  assert (headers d !! "Accept" = Some "text/plain") as Hk
    by (vm_compute in Hd; injection Hd as <-; vm_compute; reflexivity).
  exists d. split; [exact Hd|]. split; [exact Hk|].
  exact (proj1 (proj2 (proj1 (parseCurlCommand_headers_trimmed _ d Hd) _ _ Hk))).
Defined.
